(** * haruneko-api: download orchestration and browser fetch engine

    A shallow embedding of
      - src/engine/platform/FetchProviderPuppeteer.ts
          (sanitizeHeaders, getBrowser, getPage, releasePage, cleanup,
           waitForCloudflare, Fetch, FetchWithBrowser, FetchWindowScript,
           FetchWindowPreloadScript, the replacements of FetchHTML)
      - src/api/services/download.service.ts
          (createDownload, processDownload, extractChapterNumber,
           downloadAndExport, getDownload, getDownloadFilePath,
           deleteDownload, updateDownloadStatus, cleanupOldDownloads)
    followed by the properties the specification states about them and
    by further properties of the code.

    JavaScript strings are sequences of UTF-16 code units, JavaScript
    numbers are IEEE 754 binary64 values (Rocq's primitive floats), the
    download table is a finite map from identifiers to records, and every
    source of non-determinism (clock, identifiers, file system, remote
    sites, the automated browser, the lateness of timers, what other
    calls do while one waits) is an explicit input. *)

From Stdlib Require Import ZArith NArith List Bool Ascii String Lia Floats Uint63.
From Stdlib Require QArith Qround.
From stdpp Require Import base option list gmap.
Import ListNotations.

(* ===================================================================== *)
(** * Part I: the embedding                                               *)
(* ===================================================================== *)

(** ** JavaScript strings *)

Module Js.

(** One UTF-16 code unit. *)
Abbreviation char16 := N (only parsing).
Abbreviation jsstring := (list N) (only parsing).

(** An ASCII literal as a JavaScript string. *)
Definition str (s : string) : jsstring :=
  map N_of_ascii (list_ascii_of_string s).

(** [hay.startsWith(needle)] *)
Fixpoint starts_with (needle hay : jsstring) : bool :=
  match needle, hay with
  | [], _ => true
  | _ :: _, [] => false
  | a :: needle', b :: hay' => (a =? b)%N && starts_with needle' hay'
  end.

(** [hay.includes(needle)] *)
Fixpoint includes (needle hay : jsstring) : bool :=
  starts_with needle hay ||
  match hay with
  | [] => false
  | _ :: hay' => includes needle hay'
  end.

(** [parts.join(sep)] *)
Fixpoint join (sep : jsstring) (parts : list jsstring) : jsstring :=
  match parts with
  | [] => []
  | [p] => p
  | p :: rest => p ++ sep ++ join sep rest
  end.

(** Truthiness of an optional string: [undefined] and [""] are falsy. *)
Definition truthy (o : option jsstring) : bool :=
  match o with
  | Some (_ :: _) => true
  | _ => false
  end.

(** A value thrown by what lies outside the code, as far as a handler
    looks at it: [null] or [undefined]; or any other value, by its
    [message], which it may lack.  A [message] that is there is taken to
    be a string, as it is on the errors of the libraries called. *)
Inductive thrown :=
| Nullish
| Thrown (message : option jsstring).

(** What a call rejects with: a value it caught or was given, or the
    TypeError raised by reading [message] of [null] or [undefined]. *)
Inductive raised :=
| Raised (error : thrown)
| TypeError.

(** [error.message?.includes(needle)]: nothing when reading
    [error.message] raises the TypeError, [false] for the [undefined]
    the optional chain gives when there is no message. *)
Definition message_includes (needle : jsstring) (error : thrown) : option bool :=
  match error with
  | Nullish => None
  | Thrown (Some message) => Some (includes needle message)
  | Thrown None => Some false
  end.

End Js.

(** ** JavaScript numbers *)

Module JsNumber.
Import Js.

(** The Number value of a length or of another non-negative integer
    below 2^63 (array lengths are below 2^32). *)
Definition of_nat (n : nat) : float :=
  PrimFloat.of_uint63 (Uint63.of_Z (Z.of_nat n)).

(** The value of a loop counter that started at [0] and went through
    [i] increments [counter++]. *)
Fixpoint counter (i : nat) : float :=
  match i with
  | O => 0%float
  | S j => (counter j + 1)%float
  end.

(** [Math.floor(x)] as an integer, for a finite [x]; NaN and the
    infinities have no integer value and give [0] here. *)
Definition Math_floor (x : float) : Z :=
  match Prim2SF x with
  | S754_finite s m e => Z.shiftl (cond_Zopp s (Zpos m)) e
  | _ => 0%Z
  end.

(** Classes of Numbers by what [Prim2SF] shows of them: those without
    a minus sign (NaN among them), and those above zero. *)
Definition unsigned_sf (x : spec_float) : bool :=
  match x with
  | S754_finite true _ _ | S754_infinity true | S754_zero true => false
  | _ => true
  end.

Definition positive_sf (x : spec_float) : bool :=
  match x with
  | S754_finite false _ _ | S754_infinity false => true
  | _ => false
  end.

(** The least exponent of a binary64 mantissa, [-1074]. *)
Definition emin64 : Z := SpecFloat.emin prec emax.

(** The round and sticky bits of a shifted mantissa say that bits were
    lost. *)
Definition inexact (r : shr_record) : bool := shr_r r || shr_s r.

(** A Number that is zero or positive and at most the integer [Y], and a
    Number that is the positive integer [N]; both with an exponent that
    is not positive, as all Numbers up to 2^53 have. *)
Definition bounded_by (x : spec_float) (Y : Z) : Prop :=
  match x with
  | S754_zero false => True
  | S754_finite false m e => (e <= 0 /\ Zpos m <= Y * 2 ^ (- e))%Z
  | _ => False
  end.

Definition exactly (x : spec_float) (N : Z) : Prop :=
  match x with
  | S754_finite false m e => (e <= 0)%Z /\ Zpos m = (N * 2 ^ (- e))%Z
  | _ => False
  end.

(** *** [parseFloat] on an unsigned decimal literal, and
        [Number.prototype.toString]

    A positive finite Number is kept as [Finite m e], of value
    [m * 2^e] with [2^52 <= m < 2^53], or [0 < m < 2^52] and
    [e = -1074]. *)
Inductive value :=
| Zero
| Finite (m e : Z)
| Infinity.

Definition is_digit (c : char16) : bool := ((48 <=? c) && (c <=? 57))%N.

Definition digit_value (c : char16) : Z := Z.of_N c - 48.

(** The integer a string of decimal digits denotes. *)
Definition digits_value (ds : jsstring) : Z :=
  fold_left (fun acc c => acc * 10 + digit_value c)%Z ds 0%Z.

(** [floor (num * 2^(-e) / den)] and what is left of the division. *)
Definition scaled_div (num den e : Z) : Z * Z * Z :=
  let n := if (e <? 0)%Z then (num * 2 ^ (- e))%Z else num in
  let d := if (e <? 0)%Z then den else (den * 2 ^ e)%Z in
  (n / d, n mod d, d)%Z.

(** The Number nearest to [num / den] (ties to even), for [num >= 0]
    and [den > 0]. *)
Definition round_to_double (num den : Z) : value :=
  if (num =? 0)%Z then Zero
  else
    let e0 := (Z.log2 num - Z.log2 den - 52)%Z in
    let e1 := if ((scaled_div num den e0).1.1 <? 2 ^ 52)%Z then (e0 - 1)%Z else e0 in
    let e := Z.max e1 (-1074) in
    let '(q, r, d) := scaled_div num den e in
    let up := match (2 * r ?= d)%Z with
              | Lt => false
              | Eq => Z.odd q
              | Gt => true
              end in
    let m := if up then (q + 1)%Z else q in
    let '(m, e) := if (m =? 2 ^ 53)%Z then (2 ^ 52, e + 1)%Z else (m, e) in
    if (m =? 0)%Z then Zero
    else if (971 <? e)%Z then Infinity
    else Finite m e.

(** [parseFloat] of the text [intPart] or [intPart.fracPart]. *)
Definition parseFloat (intPart fracPart : jsstring) : value :=
  round_to_double (digits_value (intPart ++ fracPart))
                  (10 ^ Z.of_nat (length fracPart)).

(** The decimal digits of a non-negative integer, without leading
    zeros; the empty string for [0]. *)
Fixpoint digits_of_fuel (fuel : nat) (z : Z) (acc : jsstring) : jsstring :=
  match fuel with
  | O => acc
  | S fuel' =>
      if (z <=? 0)%Z then acc
      else digits_of_fuel fuel' (z / 10)%Z (Z.to_N (48 + z mod 10) :: acc)
  end.

Definition digits_of (z : Z) : jsstring :=
  digits_of_fuel (S (Z.to_nat (Z.log2 z))) z [].

(** [String(n)] for an integer [n]. *)
Definition integer_to_string (z : Z) : jsstring :=
  if (z =? 0)%Z then str "0"
  else if (z <? 0)%Z then str "-" ++ digits_of (- z)
  else digits_of z.

(** [s * 10^p] as a fraction. *)
Definition decimal_fraction (s p : Z) : Z * Z :=
  if (p <? 0)%Z then (s, 10 ^ (- p))%Z else (s * 10 ^ p, 1)%Z.

(** The position [n] of the decimal point: [10^(n-1) <= num/den < 10^n]. *)
Fixpoint decimal_exponent_up (fuel : nat) (num den n : Z) : Z :=
  match fuel with
  | O => n
  | S fuel' =>
      let '(a, b) := decimal_fraction 1 n in
      if (num * b <? a * den)%Z then n
      else decimal_exponent_up fuel' num den (n + 1)
  end.

Definition decimal_exponent (num den : Z) : Z :=
  (* log10 (num/den) >= (log2 num - log2 den - 1) * 0.30102 - 1 *)
  let guess := ((Z.log2 num - Z.log2 den - 1) * 30102 / 100000 - 1)%Z in
  decimal_exponent_up 8 num den guess.

(** With [k] digits: the integers [s] next to [v / 10^(n-k)] whose
    decimal [s * 10^(n-k)] reads back as [v], the nearest first. *)
Definition candidates (v : value) (num den n k : Z) : list Z :=
  let p := (n - k)%Z in
  let '(a, b) := decimal_fraction 1 p in     (* 10^p = a / b *)
  let lo := ((num * b) / (den * a))%Z in
  let r := ((num * b) mod (den * a))%Z in
  let hi := (lo + 1)%Z in
  let reads_back s :=
    let '(x, y) := decimal_fraction s p in
    match round_to_double x y, v with
    | Finite m1 e1, Finite m2 e2 => (m1 =? m2)%Z && (e1 =? e2)%Z
    | _, _ => false
    end in
  let ordered :=
    match (2 * r ?= den * a)%Z with
    | Lt => [lo; hi]
    | Gt => [hi; lo]
    | Eq => if Z.even lo then [lo; hi] else [hi; lo]
    end in
  filter (fun s => (0 <? s)%Z && reads_back s) ordered.

Fixpoint shortest (fuel : nat) (v : value) (num den n k : Z) : option (Z * Z) :=
  match fuel with
  | O => None
  | S fuel' =>
      match candidates v num den n k with
      | s :: _ => Some (s, k)
      | [] => shortest fuel' v num den n (k + 1)
      end
  end.

Fixpoint strip_zeros (fuel : nat) (s : Z) : Z :=
  match fuel with
  | O => s
  | S fuel' => if (s mod 10 =? 0)%Z then strip_zeros fuel' (s / 10)%Z else s
  end.

Definition zeros (n : Z) : jsstring := repeat 48%N (Z.to_nat n).

(** The text of the decimal [0.d1...dk * 10^n], whose digits are
    [ds] (steps 6 to 10 of Number::toString). *)
Definition format_decimal (ds : jsstring) (n : Z) : jsstring :=
  let k := Z.of_nat (length ds) in
  if ((k <=? n) && (n <=? 21))%Z then ds ++ zeros (n - k)
  else if ((0 <? n) && (n <=? 21))%Z
  then take (Z.to_nat n) ds ++ str "." ++ drop (Z.to_nat n) ds
  else if ((-6 <? n) && (n <=? 0))%Z
  then str "0." ++ zeros (- n) ++ ds
  else
    let exponent :=
      (if (0 <=? n - 1)%Z then str "+" else str "-") ++ digits_of (Z.abs (n - 1)) in
    match ds with
    | [d] => [d] ++ str "e" ++ exponent
    | d :: more => [d] ++ str "." ++ more ++ str "e" ++ exponent
    | [] => []
    end.

(** [v.toString()] *)
Definition toString (v : value) : jsstring :=
  match v with
  | Zero => str "0"
  | Infinity => str "Infinity"
  | Finite m e =>
      let '(num, den) :=
        if (e <? 0)%Z then (m, 2 ^ (- e))%Z else (m * 2 ^ e, 1)%Z in
      let n := decimal_exponent num den in
      match shortest 17 v num den n 1 with
      | Some (s, k) =>
          let s' := strip_zeros 17 s in
          let ds := digits_of s' in
          (* s * 10^(n-k) has its decimal point after digit n - k + |s| *)
          format_decimal ds (n - k + Z.of_nat (length (digits_of s)))
      | None => []
      end
  end.

End JsNumber.

(** ** Response header sanitisation (FetchProviderPuppeteer.sanitizeHeaders) *)

Module Headers.
Import Js.

(** The class [[\r\n]] *)
Definition is_crlf (c : char16) : bool := ((c =? 13) || (c =? 10))%N.

(** The class [[\x00-\x1F\x7F]] *)
Definition is_control (c : char16) : bool := ((c <=? 31) || (c =? 127))%N.

(** [value.replace(/[\r\n]+/g, ', ')]: every maximal run of CR / LF
    becomes one comma followed by one space.  [in_run] tells that the
    previous code unit belonged to the run being replaced. *)
Fixpoint replace_crlf (in_run : bool) (value : jsstring) : jsstring :=
  match value with
  | [] => []
  | c :: rest =>
      if is_crlf c
      then (if in_run then replace_crlf true rest
            else str ", " ++ replace_crlf true rest)
      else c :: replace_crlf false rest
  end.

(** [/[\x00-\x1F\x7F]/.test(v)] *)
Definition has_control (v : jsstring) : bool := existsb is_control v.

(** [obj[key] = value] on an object created by the literal [{}] and
    holding strings: the one accessor an ordinary object inherits is
    [__proto__], whose setter ignores a value that is not an object, so
    that key is never stored. *)
Definition set_property (key value : jsstring)
    (obj : gmap (list N) (list N)) : gmap (list N) (list N) :=
  if decide (key = str "__proto__") then obj else <[key := value]> obj.

(** The body of the [for (const [key, value] of entries)] loop. *)
Definition sanitize_entry (sanitizedHeaders : gmap (list N) (list N))
    (entry : jsstring * jsstring) : gmap (list N) (list N) :=
  let sanitizedValue := replace_crlf false entry.2 in
  if has_control sanitizedValue then sanitizedHeaders
  else set_property entry.1 sanitizedValue sanitizedHeaders.

(** [entries] is [Array.from(headers.entries())] or
    [Object.entries(headers)]. *)
Definition sanitizeHeaders (entries : list (jsstring * jsstring))
    : gmap (list N) (list N) :=
  fold_left sanitize_entry entries ∅.

(** A control character other than CR and LF. *)
Definition is_other_control (c : char16) : bool := is_control c && negb (is_crlf c).

(** The values the entries give for a name, in their order. *)
Definition values_of (key : jsstring) (entries : list (jsstring * jsstring))
    : list jsstring :=
  map snd (filter (fun entry => entry.1 = key) entries).

End Headers.

(** ** The pool of browser pages (FetchProviderPuppeteer.getPage, releasePage) *)

Module Pool.

(** A page handle; [browser.newPage()] hands out handles never seen
    before, numbered in order of creation. *)
Definition Page := nat.

(** [browserPool] and [maxBrowsers] are the fields of the class.
    [connected] tells whether [this.browser] is set and connected.  The
    two other fields are bookkeeping the class does not do: the pages
    handed to callers and not yet given back, and the number of pages
    created so far. *)
Record state := {
  browserPool : list Page;
  maxBrowsers : nat;
  connected : bool;
  checkedOut : list Page;
  created : nat
}.

Definition init (cap : nat) : state :=
  {| browserPool := []; maxBrowsers := cap; connected := false;
     checkedOut := []; created := 0 |}.

Inductive reply :=
| GotPage (p : Page)      (* getPage resolves with a page *)
| Retry                   (* getPage sleeps 1000 ms and calls itself *)
| LaunchFailed            (* getBrowser throws *)
| Pooled                  (* releasePage pushed the page on the pool *)
| Closed.                 (* releasePage closed the page *)

(** [Array.prototype.pop]: the last element, if any. *)
Definition pop (l : list Page) : option Page * list Page :=
  match last l with
  | Some p => (Some p, removelast l)
  | None => (None, l)
  end.

(** [getBrowser]: launches when there is no connected browser;
    [launch_ok] is whether [puppeteer.launch] succeeds if called. *)
Definition getBrowser (launch_ok : bool) (s : state) : option state :=
  if connected s then Some s
  else if launch_ok
       then Some {| browserPool := browserPool s; maxBrowsers := maxBrowsers s;
                    connected := true; checkedOut := checkedOut s;
                    created := created s |}
       else None.

(** One pass through the body of [getPage], up to its recursive call. *)
Definition getPage (launch_ok : bool) (s : state) : state * reply :=
  let (availablePage, rest) := pop (browserPool s) in
  match availablePage with
  | Some p =>
      ({| browserPool := rest; maxBrowsers := maxBrowsers s;
          connected := connected s; checkedOut := p :: checkedOut s;
          created := created s |}, GotPage p)
  | None =>
      if length rest <? maxBrowsers s
      then match getBrowser launch_ok s with
           | Some s' =>
               let page := created s' in
               ({| browserPool := rest; maxBrowsers := maxBrowsers s';
                   connected := connected s';
                   checkedOut := page :: checkedOut s';
                   created := S (created s') |}, GotPage page)
           | None => (s, LaunchFailed)
           end
      else (s, Retry)
  end.

Definition remove_page (p : Page) (l : list Page) : list Page :=
  filter (fun q => q ≠ p) l.

(** [releasePage(page)]; [reset_ok] is whether clearing the storages in
    the page succeeds. *)
Definition releasePage (page : Page) (reset_ok : bool) (s : state)
    : state * reply :=
  let out := remove_page page (checkedOut s) in
  if reset_ok && (length (browserPool s) <? maxBrowsers s)
  then ({| browserPool := browserPool s ++ [page];
           maxBrowsers := maxBrowsers s; connected := connected s;
           checkedOut := out; created := created s |}, Pooled)
  else ({| browserPool := browserPool s; maxBrowsers := maxBrowsers s;
           connected := connected s; checkedOut := out;
           created := created s |}, Closed).

(** The calls made on the provider, in the order their bodies run.  A
    caller that got [Retry] calls again later, after other calls may
    have run. *)
Inductive call :=
| Acquire (launch_ok : bool)
| Release (page : Page) (reset_ok : bool).

Definition step (s : state) (c : call) : state :=
  match c with
  | Acquire launch_ok => (getPage launch_ok s).1
  | Release page reset_ok => (releasePage page reset_ok s).1
  end.

Definition run (s : state) (calls : list call) : state :=
  fold_left step calls s.

(** Live pages: handed out and not given back, plus idle in the pool. *)
Definition outstanding (s : state) : nat :=
  length (checkedOut s) + length (browserPool s).

(** [cleanup()]: the pages of the pool are closed and the pool is
    emptied, then the browser is closed and forgotten.  The pages handed
    out stay with their callers. *)
Definition cleanup (s : state) : state :=
  {| browserPool := []; maxBrowsers := maxBrowsers s; connected := false;
     checkedOut := checkedOut s; created := created s |}.

(** What the calls reply, in order. *)
Fixpoint replies (s : state) (calls : list call) : list reply :=
  match calls with
  | [] => []
  | c :: rest =>
      match c with
      | Acquire launch_ok => (getPage launch_ok s).2
      | Release page reset_ok => (releasePage page reset_ok s).2
      end :: replies (step s c) rest
  end.

(** Callers that give back only pages they hold, as [FetchWithBrowser]
    and [FetchWindowPreloadScript] do in their [finally]. *)
Fixpoint disciplined (s : state) (calls : list call) : bool :=
  match calls with
  | [] => true
  | c :: rest =>
      match c with
      | Acquire _ => true
      | Release page _ => bool_decide (page ∈ checkedOut s)
      end && disciplined (step s c) rest
  end.

(** No page is in two places, and every page is one that was created. *)
Definition consistent (s : state) : Prop :=
  NoDup (checkedOut s ++ browserPool s) /\
  Forall (fun p => p < created s) (checkedOut s ++ browserPool s).

End Pool.

(** ** Waiting for an anti-automation challenge
       (FetchProviderPuppeteer.waitForCloudflare) *)

Module Cloudflare.
Import Js.

(** What the first [page.evaluate] of one iteration does. *)
Inductive evaluation :=
| PageInfo (title : jsstring) (hasChallenge : bool)
| EvalThrows (error : thrown).

(** What the [page.evaluate] after a navigation does. *)
Inductive recheck :=
| StillChallenging (b : bool)
| RecheckThrows.

(** The behaviour of the page and of the timers during one iteration of
    the loop: the time in ms each evaluation takes, and by how many ms
    the timers of [setTimeout(resolve, 1000)] and of
    [setTimeout(resolve, 500)] fire late; a timer never fires early. *)
Record poll := {
  eval_ms : N;
  eval_result : evaluation;
  navigation_late_ms : N;
  recheck_ms : N;
  recheck_result : recheck;
  sleep_late_ms : N
}.

Inductive event :=
| Poll                                 (* the evaluation opening an iteration *)
| Recheck                              (* the evaluation after a navigation *)
| Sleep (ms : N)                       (* setTimeout with this delay *)
| InfoPageTitle (title : jsstring)
| InfoPassed
| InfoNavigated
| InfoPassedAfterNavigation
| WarnTimeout.

Inductive outcome :=
| Resolved                             (* the promise resolves *)
| Rejected (error : raised).           (* the promise rejects *)

Record result := {
  events : list event;
  settled : outcome;
  finished_at : Z
}.

(** [error.message?.includes('Execution context was destroyed')] *)
Definition context_destroyed (error : thrown) : option bool :=
  message_includes (str "Execution context was destroyed") error.

(** What the [catch] of an iteration rejects with when it does not take
    the error for a navigation: the error itself, thrown again, or the
    TypeError of reading its [message]. *)
Definition rethrown (error : thrown) : raised :=
  match context_destroyed error with
  | None => TypeError
  | Some _ => Raised error
  end.

Definition emit (evs : list event) (r : result) : result :=
  {| events := evs ++ events r; settled := settled r;
     finished_at := finished_at r |}.

(** The [while] loop; [now] is [Date.now()] when the condition is
    tested, [i] counts the iterations, and [fuel] bounds them. *)
Fixpoint loop (fuel : nat) (page : nat -> poll) (i : nat)
    (startTime maxWaitTime now : Z) (lastTitle : jsstring) : option result :=
  if (now - startTime <? maxWaitTime)%Z then
    match fuel with
    | O => None
    | S fuel' =>
        let p := page i in
        let t1 := (now + Z.of_N (eval_ms p))%Z in
        let sleep := (500 + Z.of_N (sleep_late_ms p))%Z in
        match eval_result p with
        | PageInfo title hasChallenge =>
            let titleLog :=
              if decide (title = lastTitle) then [] else [InfoPageTitle title] in
            let lastTitle' :=
              if decide (title = lastTitle) then lastTitle else title in
            if negb hasChallenge
            then Some {| events := Poll :: titleLog ++ [InfoPassed];
                         settled := Resolved; finished_at := t1 |}
            else emit (Poll :: titleLog ++ [Sleep 500]) <$>
                   loop fuel' page (S i) startTime maxWaitTime (t1 + sleep) lastTitle'
        | EvalThrows error =>
            match context_destroyed error with
            | Some true =>
                let t2 := (t1 + (1000 + Z.of_N (navigation_late_ms p))
                           + Z.of_N (recheck_ms p))%Z in
                match recheck_result p with
                | StillChallenging false =>
                    Some {| events := [Poll; InfoNavigated; Sleep 1000; Recheck;
                                       InfoPassedAfterNavigation];
                            settled := Resolved; finished_at := t2 |}
                | _ =>
                    emit [Poll; InfoNavigated; Sleep 1000; Recheck; Sleep 500] <$>
                      loop fuel' page (S i) startTime maxWaitTime (t2 + sleep) lastTitle
                end
            | _ => Some {| events := [Poll]; settled := Rejected (rethrown error);
                           finished_at := t1 |}
            end
        end
    end
  else Some {| events := [WarnTimeout]; settled := Resolved; finished_at := now |}.

(** Every iteration that goes round again lets at least 500 ms pass, so
    this many iterations reach any deadline. *)
Definition enough_fuel (maxWaitTime : Z) : nat :=
  S (Z.to_nat (maxWaitTime / 500)).

(** [waitForCloudflare(page, maxWaitTime)], entered when [Date.now()]
    is [startTime]. *)
Definition waitForCloudflare (page : nat -> poll) (startTime maxWaitTime : Z)
    : option result :=
  loop (enough_fuel maxWaitTime) page 0 startTime maxWaitTime startTime [].

(** *** Notions used to state the properties *)

(** Every [Poll] but the first comes right after a [Sleep 500]. *)
Fixpoint paced (previous : option event) (evs : list event) : bool :=
  match evs with
  | [] => true
  | e :: rest =>
      match e, previous with
      | Poll, None => true
      | Poll, Some (Sleep 500) => true
      | Poll, Some _ => false
      | _, _ => true
      end && paced (Some e) rest
  end.

(** The time in ms an iteration takes that goes round again: the
    evaluation and the sleep of 500 ms, and between them, after a
    navigation, the pause of 1000 ms and the second evaluation. *)
Definition round_ms (p : poll) : Z :=
  match eval_result p with
  | PageInfo _ _ =>
      Z.of_N (eval_ms p) + (500 + Z.of_N (sleep_late_ms p))
  | EvalThrows _ =>
      Z.of_N (eval_ms p) + (1000 + Z.of_N (navigation_late_ms p))
      + Z.of_N (recheck_ms p) + (500 + Z.of_N (sleep_late_ms p))
  end.

(** The time [n] iterations take, from iteration [i] on, that all go
    round again. *)
Fixpoint elapsed (page : nat -> poll) (i n : nat) : Z :=
  match n with
  | O => 0
  | S n' => round_ms (page i) + elapsed page (S i) n'
  end.

Definition title_events (shown : option jsstring) : list event :=
  match shown with
  | Some title => [InfoPageTitle title]
  | None => []
  end.

(** The behaviour the specification describes, with its clock: the runs
    from iteration [i] on, entered at the time [now], with their events,
    the way the promise settles and the time at which it does.  The
    deadline is tested when an iteration begins; an iteration is an
    evaluation of the signal, and ends the wait if the challenge is gone
    or the evaluation fails otherwise than by a navigation; after a
    navigation comes a pause of 1000 ms and one more evaluation; an
    iteration that does not end the wait sleeps 500 ms. *)
Inductive protocol (page : nat -> poll) (startTime maxWaitTime : Z)
    : nat -> Z -> list event -> outcome -> Z -> Prop :=
| run_timeout i now :
    (maxWaitTime <= now - startTime)%Z ->
    protocol page startTime maxWaitTime i now [WarnTimeout] Resolved now
| run_passed i now title shown :
    (now - startTime < maxWaitTime)%Z ->
    eval_result (page i) = PageInfo title false ->
    protocol page startTime maxWaitTime i now
      (Poll :: title_events shown ++ [InfoPassed]) Resolved
      (now + Z.of_N (eval_ms (page i)))
| run_passed_after_navigation i now error :
    (now - startTime < maxWaitTime)%Z ->
    eval_result (page i) = EvalThrows error ->
    context_destroyed error = Some true ->
    recheck_result (page i) = StillChallenging false ->
    protocol page startTime maxWaitTime i now
      [Poll; InfoNavigated; Sleep 1000; Recheck; InfoPassedAfterNavigation] Resolved
      (now + Z.of_N (eval_ms (page i))
       + (1000 + Z.of_N (navigation_late_ms (page i)))
       + Z.of_N (recheck_ms (page i)))
| run_rejected i now error :
    (now - startTime < maxWaitTime)%Z ->
    eval_result (page i) = EvalThrows error ->
    context_destroyed error <> Some true ->
    protocol page startTime maxWaitTime i now [Poll] (Rejected (rethrown error))
      (now + Z.of_N (eval_ms (page i)))
| run_again i now title shown rest o finished :
    (now - startTime < maxWaitTime)%Z ->
    eval_result (page i) = PageInfo title true ->
    protocol page startTime maxWaitTime (S i) (now + round_ms (page i)) rest o finished ->
    protocol page startTime maxWaitTime i now
      (Poll :: title_events shown ++ Sleep 500 :: rest) o finished
| run_again_after_navigation i now error rest o finished :
    (now - startTime < maxWaitTime)%Z ->
    eval_result (page i) = EvalThrows error ->
    context_destroyed error = Some true ->
    recheck_result (page i) <> StillChallenging false ->
    protocol page startTime maxWaitTime (S i) (now + round_ms (page i)) rest o finished ->
    protocol page startTime maxWaitTime i now
      (Poll :: InfoNavigated :: Sleep 1000 :: Recheck :: Sleep 500 :: rest) o finished.

(** A page on which the challenge does not clear in this iteration. *)
Definition challenged (p : poll) : Prop :=
  match eval_result p with
  | PageInfo _ hasChallenge => hasChallenge = true
  | EvalThrows error =>
      context_destroyed error = Some true /\
      recheck_result p <> StillChallenging false
  end.

(** The number of evaluations that open an iteration. *)
Fixpoint polls (evs : list event) : nat :=
  match evs with
  | [] => 0
  | Poll :: rest => S (polls rest)
  | _ :: rest => polls rest
  end.

(** The number of evaluations in the page, those that open an iteration
    and those that follow a navigation. *)
Fixpoint evaluations (evs : list event) : nat :=
  match evs with
  | [] => 0
  | Poll :: rest => S (evaluations rest)
  | Recheck :: rest => S (evaluations rest)
  | _ :: rest => evaluations rest
  end.

(** The titles logged, in order. *)
Fixpoint titles (evs : list event) : list jsstring :=
  match evs with
  | [] => []
  | InfoPageTitle title :: rest => title :: titles rest
  | _ :: rest => titles rest
  end.

(** No title is the one before it, [lastTitle] coming before the
    first. *)
Fixpoint changing (lastTitle : jsstring) (ts : list jsstring) : bool :=
  match ts with
  | [] => true
  | title :: rest => negb (bool_decide (title = lastTitle)) && changing title rest
  end.

(** A page that shows the challenge for ever and answers in 10 ms, with
    timers that fire 4 ms late. *)
Definition sample_challenge (i : nat) : poll :=
  {| eval_ms := 10; eval_result := PageInfo (str "Just a moment...") true;
     navigation_late_ms := 4; recheck_ms := 10; recheck_result := RecheckThrows;
     sleep_late_ms := 4 |}.

(** A page that navigates in the first iteration and still shows the
    challenge afterwards, with exact timers. *)
Definition sample_navigation (i : nat) : poll :=
  {| eval_ms := 0;
     eval_result :=
       match i with
       | O => EvalThrows (Thrown (Some (str "Execution context was destroyed, most likely because of a navigation.")))
       | S _ => PageInfo (str "Just a moment...") true
       end;
     navigation_late_ms := 0; recheck_ms := 0;
     recheck_result := StillChallenging true; sleep_late_ms := 0 |}.

End Cloudflare.

(** ** The download service (download.service.ts) *)

Module Download.
Import Js.

(** *** Data *)

Inductive Status := queued | downloading | processing | completed | failed.

Inductive Format := cbz | images | pdf | epub.

Definition format_name (f : Format) : jsstring :=
  match f with
  | cbz => str "cbz"
  | images => str "images"
  | pdf => str "pdf"
  | epub => str "epub"
  end.

Record DownloadRequest := {
  req_sourceId : jsstring;
  req_mangaId : jsstring;
  req_chapterIds : list jsstring;
  req_format : option Format;
  req_downloadPath : option jsstring
}.

Record DownloadStatus := {
  id : jsstring;
  sourceId : jsstring;
  mangaId : jsstring;
  chapterIds : list jsstring;
  status : Status;
  progress : Z;
  format : Format;
  downloadPath : option jsstring;
  createdAt : jsstring;
  updatedAt : jsstring;
  mangaTitle : option jsstring;
  currentChapter : option jsstring;
  completedAt : option jsstring;
  fileUrl : option jsstring;
  error : option jsstring
}.

(** The properties of a [DownloadStatus]. *)
Inductive Field :=
| Fid | FsourceId | FmangaId | FchapterIds | Fstatus | Fprogress | Fformat
| FdownloadPath | FcreatedAt | FupdatedAt | FmangaTitle | FcurrentChapter
| FcompletedAt | FfileUrl | Ferror.

#[export] Instance Field_eq_dec : EqDecision Field.
Proof. solve_decision. Defined.

(** A [Partial<DownloadStatus>] written as an object literal: its
    properties with their values, in the order they are written. *)
Inductive Assign :=
| SetId (v : jsstring)
| SetSourceId (v : jsstring)
| SetMangaId (v : jsstring)
| SetChapterIds (v : list jsstring)
| SetStatus (v : Status)
| SetProgress (v : Z)
| SetFormat (v : Format)
| SetDownloadPath (v : option jsstring)
| SetCreatedAt (v : jsstring)
| SetUpdatedAt (v : jsstring)
| SetMangaTitle (v : option jsstring)
| SetCurrentChapter (v : option jsstring)
| SetCompletedAt (v : option jsstring)
| SetFileUrl (v : option jsstring)
| SetError (v : option jsstring).

Definition field_of (a : Assign) : Field :=
  match a with
  | SetId _ => Fid | SetSourceId _ => FsourceId | SetMangaId _ => FmangaId
  | SetChapterIds _ => FchapterIds | SetStatus _ => Fstatus
  | SetProgress _ => Fprogress | SetFormat _ => Fformat
  | SetDownloadPath _ => FdownloadPath | SetCreatedAt _ => FcreatedAt
  | SetUpdatedAt _ => FupdatedAt | SetMangaTitle _ => FmangaTitle
  | SetCurrentChapter _ => FcurrentChapter | SetCompletedAt _ => FcompletedAt
  | SetFileUrl _ => FfileUrl | SetError _ => Ferror
  end.

(** The value a property has after the properties of [updates] were
    copied over [old], the last of the same name winning. *)
Definition assigned {A} (pick : Assign -> option A) (old : A)
    (updates : list Assign) : A :=
  fold_left (fun acc a => default acc (pick a)) updates old.

(** [Object.assign(download, updates, { updatedAt: now })] *)
Definition assign (download : DownloadStatus) (updates : list Assign)
    (now : jsstring) : DownloadStatus :=
  {| id := assigned (fun a => match a with SetId v => Some v | _ => None end)
             (id download) updates;
     sourceId := assigned (fun a => match a with SetSourceId v => Some v | _ => None end)
             (sourceId download) updates;
     mangaId := assigned (fun a => match a with SetMangaId v => Some v | _ => None end)
             (mangaId download) updates;
     chapterIds := assigned (fun a => match a with SetChapterIds v => Some v | _ => None end)
             (chapterIds download) updates;
     status := assigned (fun a => match a with SetStatus v => Some v | _ => None end)
             (status download) updates;
     progress := assigned (fun a => match a with SetProgress v => Some v | _ => None end)
             (progress download) updates;
     format := assigned (fun a => match a with SetFormat v => Some v | _ => None end)
             (format download) updates;
     downloadPath := assigned (fun a => match a with SetDownloadPath v => Some v | _ => None end)
             (downloadPath download) updates;
     createdAt := assigned (fun a => match a with SetCreatedAt v => Some v | _ => None end)
             (createdAt download) updates;
     updatedAt := now;
     mangaTitle := assigned (fun a => match a with SetMangaTitle v => Some v | _ => None end)
             (mangaTitle download) updates;
     currentChapter := assigned (fun a => match a with SetCurrentChapter v => Some v | _ => None end)
             (currentChapter download) updates;
     completedAt := assigned (fun a => match a with SetCompletedAt v => Some v | _ => None end)
             (completedAt download) updates;
     fileUrl := assigned (fun a => match a with SetFileUrl v => Some v | _ => None end)
             (fileUrl download) updates;
     error := assigned (fun a => match a with SetError v => Some v | _ => None end)
             (error download) updates |}.

(** A property of a record, for statements about all of them. *)
Inductive Value :=
| VString (v : jsstring)
| VStrings (v : list jsstring)
| VOptional (v : option jsstring)
| VStatus (v : Status)
| VNumber (v : Z)
| VFormat (v : Format).

Definition get (f : Field) (d : DownloadStatus) : Value :=
  match f with
  | Fid => VString (id d)
  | FsourceId => VString (sourceId d)
  | FmangaId => VString (mangaId d)
  | FchapterIds => VStrings (chapterIds d)
  | Fstatus => VStatus (status d)
  | Fprogress => VNumber (progress d)
  | Fformat => VFormat (format d)
  | FdownloadPath => VOptional (downloadPath d)
  | FcreatedAt => VString (createdAt d)
  | FupdatedAt => VString (updatedAt d)
  | FmangaTitle => VOptional (mangaTitle d)
  | FcurrentChapter => VOptional (currentChapter d)
  | FcompletedAt => VOptional (completedAt d)
  | FfileUrl => VOptional (fileUrl d)
  | Ferror => VOptional (error d)
  end.

(** *** Errors *)

(** The factories of middleware/error-handler.js. *)
Inductive ApiError :=
| SourceNotFound | MangaNotFound | DownloadNotFound | BadRequest | NotFound.

Inductive Error :=
| Errors (kind : ApiError) (argument : jsstring)   (* Errors.<kind>(argument) *)
| JsError (message : jsstring).                    (* new Error(message) *)

(** *** What the service is given *)

(** Functions of other modules, which the service calls and this file
    does not define: [SanitizeFileName] of engine/StorageController,
    the message of an error built by [Errors], and Node's [path]. *)
Class Platform := {
  SanitizeFileName : jsstring -> jsstring;
  Errors_message : ApiError -> jsstring -> jsstring;
  path_resolve : jsstring -> jsstring;
  path_join : list jsstring -> jsstring;
  path_dirname : jsstring -> jsstring
}.

Definition message `{Platform} (e : Error) : jsstring :=
  match e with
  | Errors kind argument => Errors_message kind argument
  | JsError m => m
  end.

Definition Blob := jsstring.

(** A page of a chapter: [Fetch] resolves with the image or rejects
    with an [Error] of the given message. *)
Record PageEntry := { Fetch : jsstring + Blob }.

(** A chapter of the catalog: [Update] is the message of the error
    [chapter.Update()] rejects with, if it does; [Pages] is
    [chapter.Entries.Value] after the update. *)
Record Chapter := {
  Identifier : jsstring;
  Title : jsstring;
  Update : option jsstring;
  Pages : list PageEntry
}.

Record Manga := {
  manga_Identifier : jsstring;
  manga_Title : jsstring;
  manga_Entries : list Chapter
}.

Record Plugin := {
  plugin_Identifier : jsstring;
  plugin_Entries : list Manga
}.

(** Everything outside the service: configuration, identifiers, the
    clock (the text of the n-th reading), the file system, the plugin
    registry, the temporary storage and the exporters.  [mkdir] gives
    the message of the error it rejects with, if it does; [readdir]
    gives that message or the names of the entries. *)
Record World := {
  downloadDir : jsstring;
  randomUUID : nat -> jsstring;
  toISOString : nat -> jsstring;
  mkdir : jsstring -> option jsstring;
  access : jsstring -> bool;
  readdir : jsstring -> jsstring + list jsstring;
  WebsitePlugins : list Plugin;
  SaveTemporary : Blob -> jsstring + jsstring;
  Export : Format -> list (nat * jsstring) -> jsstring -> jsstring -> jsstring
           -> option jsstring
}.

(** *** The state of the service

    [downloads] is the [Map] of the class; it holds references to the
    records, which live in [objects], so that a record handed to a
    caller is the one later updates change. *)
Record Service := {
  objects : gmap nat DownloadStatus;
  downloads : gmap (list N) nat;
  allocated : nat;
  uuids : nat;
  clock : nat
}.

Definition empty_service : Service :=
  {| objects := ∅; downloads := ∅; allocated := 0; uuids := 0; clock := 0 |}.

(** [this.downloads.get(downloadId)], dereferenced. *)
Definition record_of (s : Service) (downloadId : jsstring) : option DownloadStatus :=
  r ← downloads s !! downloadId; objects s !! r.

(** What the service does to the outside. *)
Inductive Effect :=
| MadeDirectory (path : jsstring)
| Fetching (chapterIndex pageIndex : nat) (shown : option Z)
    (* page.Fetch is called; [shown] is the progress of the record then *)
| Exporting (fmt : Format) (resourceMap : list (nat * jsstring))
    (outputPath chapterTitle mangaTitle : jsstring)
| RemovedTemporary (keys : list jsstring)
| Unlinked (path : jsstring).

(** *** Computations: state, effects and exceptions *)

Definition M (A : Type) : Type := Service -> Service * list Effect * (Error + A).

Definition ret {A} (a : A) : M A := fun s => (s, [], inr a).

Definition bind {A B} (m : M A) (k : A -> M B) : M B := fun s =>
  match m s with
  | (s1, log1, inl e) => (s1, log1, inl e)
  | (s1, log1, inr a) =>
      let '(s2, log2, r) := k a s1 in (s2, log1 ++ log2, r)
  end.

Definition throw {A} (e : Error) : M A := fun s => (s, [], inl e).

(** [try { m } catch (error) { handler(error) }] *)
Definition try_catch {A} (m : M A) (handler : Error -> M A) : M A := fun s =>
  match m s with
  | (s1, log1, inl e) =>
      let '(s2, log2, r) := handler e s1 in (s2, log1 ++ log2, r)
  | done => done
  end.

(** [try { m } finally { cleanup }], for a cleanup that does not throw. *)
Definition finally {A} (m : M A) (cleanup : M unit) : M A := fun s =>
  let '(s1, log1, r) := m s in
  let '(s2, log2, _) := cleanup s1 in (s2, log1 ++ log2, r).

Definition perform (e : Effect) : M unit := fun s => (s, [e], inr tt).

Definition inspect {A} (f : Service -> A) : M A := fun s => (s, [], inr (f s)).

#[export] Instance M_ret : MRet M := @ret.
#[export] Instance M_bind : MBind M := fun A B k m => bind m k.

(** [new Date().toISOString()] *)
Definition now (w : World) : M jsstring := fun s =>
  ({| objects := objects s; downloads := downloads s; allocated := allocated s;
      uuids := uuids s; clock := S (clock s) |}, [], inr (toISOString w (clock s))).

Definition fresh_uuid (w : World) : M jsstring := fun s =>
  ({| objects := objects s; downloads := downloads s; allocated := allocated s;
      uuids := S (uuids s); clock := clock s |}, [], inr (randomUUID w (uuids s))).

(** A new object. *)
Definition allocate (d : DownloadStatus) : M nat := fun s =>
  ({| objects := <[allocated s := d]> (objects s); downloads := downloads s;
      allocated := S (allocated s); uuids := uuids s; clock := clock s |},
   [], inr (allocated s)).

(** [this.downloads.set(downloadId, ref)] *)
Definition downloads_set (downloadId : jsstring) (ref : nat) : M unit := fun s =>
  ({| objects := objects s; downloads := <[downloadId := ref]> (downloads s);
      allocated := allocated s; uuids := uuids s; clock := clock s |},
   [], inr tt).

(** [this.downloads.delete(downloadId)] *)
Definition downloads_delete (downloadId : jsstring) : M unit := fun s =>
  ({| objects := objects s; downloads := delete downloadId (downloads s);
      allocated := allocated s; uuids := uuids s; clock := clock s |},
   [], inr tt).

(** *** updateDownloadStatus *)

Definition updateDownloadStatus (w : World) (downloadId : jsstring)
    (updates : list Assign) : M unit := fun s =>
  match downloads s !! downloadId with
  | Some ref =>
      match objects s !! ref with
      | Some download =>
          ({| objects := <[ref := assign download updates (toISOString w (clock s))]>
                           (objects s);
              downloads := <[downloadId := ref]> (downloads s);
              allocated := allocated s; uuids := uuids s;
              clock := S (clock s) |}, [], inr tt)
      | None => (s, [], inr tt)
      end
  | None => (s, [], inr tt)
  end.

(** *** extractChapterNumber *)

(** The class [\s] of a regular expression. *)
Definition is_space (c : char16) : bool :=
  ((9 <=? c) && (c <=? 13) || (c =? 32) || (c =? 160) || (c =? 5760)
   || (8192 <=? c) && (c <=? 8202) || (c =? 8232) || (c =? 8233)
   || (c =? 8239) || (c =? 8287) || (c =? 12288) || (c =? 65279))%N.

(** Matching of a letter of the pattern under the flag [i]: both sides
    are mapped to upper case, and no code unit from 128 on is mapped to
    one below 128. *)
Definition canonicalize (c : char16) : char16 :=
  if ((97 <=? c) && (c <=? 122))%N then (c - 32)%N else c.

Fixpoint starts_with_ci (pattern text : jsstring) : option jsstring :=
  match pattern, text with
  | [], rest => Some rest
  | _ :: _, [] => None
  | p :: pattern', c :: text' =>
      if (canonicalize p =? canonicalize c)%N then starts_with_ci pattern' text'
      else None
  end.

(** The longest prefix of code units in a class, and what follows. *)
Fixpoint span (class : char16 -> bool) (text : jsstring) : jsstring * jsstring :=
  match text with
  | c :: rest =>
      if class c then let '(run, after) := span class rest in (c :: run, after)
      else ([], text)
  | [] => ([], [])
  end.

(** The group [(\d+(?:\.\d+)?)] matched at the start of [text]: the
    digits before the point and those after it, if there is a point
    followed by a digit. *)
Definition number_at (text : jsstring) : option (jsstring * jsstring) :=
  let '(intPart, after) := span JsNumber.is_digit text in
  match intPart with
  | [] => None
  | _ :: _ =>
      match after with
      | 46%N :: fraction =>
          let '(fracPart, _) := span JsNumber.is_digit fraction in
          Some (intPart, fracPart)
      | _ => Some (intPart, [])
      end
  end.

(** [/Ch\.?(\d+(?:\.\d+)?)/i] matched at the start of [text]. *)
Definition ch_at (text : jsstring) : option (jsstring * jsstring) :=
  match starts_with_ci (str "Ch") text with
  | Some after =>
      match after with
      | 46%N :: after_point =>
          match number_at after_point with
          | Some n => Some n
          | None => number_at after      (* [\.?] matching nothing *)
          end
      | _ => number_at after
      end
  | None => None
  end.

(** [/Chapter\s*(\d+(?:\.\d+)?)/i] matched at the start of [text]. *)
Definition chapter_at (text : jsstring) : option (jsstring * jsstring) :=
  match starts_with_ci (str "Chapter") text with
  | Some after => number_at (span is_space after).2
  | None => None
  end.

(** [text.match(pattern)] for a pattern without [^]: the match at the
    leftmost position that has one. *)
Fixpoint search (at_start : jsstring -> option (jsstring * jsstring))
    (text : jsstring) : option (jsstring * jsstring) :=
  match at_start text with
  | Some found => Some found
  | None =>
      match text with
      | [] => None
      | _ :: rest => search at_start rest
      end
  end.

(** The four patterns, in the order of the array. *)
Definition patterns : list (jsstring -> option (jsstring * jsstring)) :=
  [ search ch_at;          (* /Ch\.?(\d+(?:\.\d+)?)/i *)
    search chapter_at;     (* /Chapter\s*(\d+(?:\.\d+)?)/i *)
    number_at;             (* /^(\d+(?:\.\d+)?)/ *)
    search number_at ].    (* /(\d+(?:\.\d+)?)/ *)

(** The [for (const pattern of patterns)] loop. *)
Fixpoint first_match (ps : list (jsstring -> option (jsstring * jsstring)))
    (chapterTitle : jsstring) : option (jsstring * jsstring) :=
  match ps with
  | [] => None
  | pattern :: rest =>
      match pattern chapterTitle with
      | Some found => Some found
      | None => first_match rest chapterTitle
      end
  end.

Definition extractChapterNumber `{Platform} (chapterTitle : jsstring) : jsstring :=
  match first_match patterns chapterTitle with
  | Some (intPart, fracPart) =>
      JsNumber.toString (JsNumber.parseFloat intPart fracPart)
  | None => SanitizeFileName chapterTitle
  end.

(** *** downloadAndExport *)

(** [Math.floor(((chapterIndex + pageNumber / pageCount) / totalChapters) * 90)]
    on the Numbers these expressions denote. *)
Definition formula_progress (chapterIndex pageNumber pageCount totalChapters : float) : Z :=
  JsNumber.Math_floor (((chapterIndex + pageNumber / pageCount) / totalChapters) * 90)%float.

(** The inner loop [for (let pageIndex = 0; ...)] from [pageIndex] on,
    [pages] being the pages left and [pageCount] being [pages.length]
    of the whole chapter. *)
Fixpoint fetchPages `{Platform} (w : World) (downloadId : jsstring)
    (chapterIndex totalChapters pageCount : nat)
    (pages : list PageEntry) (pageIndex : nat)
    (resourceMap : list (nat * jsstring)) : M (list (nat * jsstring)) :=
  match pages with
  | [] => mret resourceMap
  | page :: rest =>
      shown ← inspect (fun s => progress <$> record_of s downloadId);
      perform (Fetching chapterIndex pageIndex shown);;
      let failed_page errorMessage :=
        throw (JsError (str "Failed to download page "
                        ++ JsNumber.integer_to_string (Z.of_nat (pageIndex + 1))
                        ++ str ": " ++ errorMessage)) in
      match Fetch page with
      | inl errorMessage => failed_page errorMessage
      | inr imageBlob =>
          match SaveTemporary w imageBlob with
          | inl errorMessage => failed_page errorMessage
          | inr tempKey =>
              let chapterProgress :=
                ((JsNumber.counter chapterIndex
                  + (JsNumber.counter pageIndex + 1) / JsNumber.of_nat pageCount)
                 / JsNumber.of_nat totalChapters)%float in
              updateDownloadStatus w downloadId
                [SetProgress (JsNumber.Math_floor (chapterProgress * 90)%float)];;
              fetchPages w downloadId chapterIndex totalChapters pageCount rest
                (S pageIndex) (resourceMap ++ [(pageIndex, tempKey)])
          end
      end
  end.

(** What follows the inner loop for a chapter whose pages were fetched:
    naming, export, removal of the temporary files. *)
Definition exportChapter `{Platform} (w : World) (fmt : Format)
    (chapter : Chapter) (mangaTitle downloadPath : jsstring)
    (resourceMap : list (nat * jsstring)) : M jsstring :=
  let chapterNumber := extractChapterNumber (Title chapter) in
  let sanitizedMangaTitle := SanitizeFileName mangaTitle in
  outputPath ←
    match fmt with
    | cbz =>
        mret (path_join [downloadPath; sanitizedMangaTitle;
                         str "chapter_" ++ chapterNumber ++ str ".cbz"])
    | images =>
        mret (path_join [downloadPath; sanitizedMangaTitle;
                         str "chapter_" ++ chapterNumber])
    | _ => throw (JsError (str "Unsupported format: " ++ format_name fmt))
    end;
  match mkdir w (path_dirname outputPath) with
  | Some errorMessage => throw (JsError errorMessage)
  | None => perform (MadeDirectory (path_dirname outputPath))
  end;;
  finally
    (perform (Exporting fmt resourceMap outputPath (Title chapter) mangaTitle);;
     match Export w fmt resourceMap outputPath (Title chapter) mangaTitle with
     | Some errorMessage => throw (JsError errorMessage)
     | None => mret tt
     end)
    (perform (RemovedTemporary (map snd resourceMap)));;
  mret outputPath.

(** The outer loop [for (let chapterIndex = 0; ...)] from [chapterIndex]
    on, [chapters] being the chapters left and [totalChapters] being
    [chapters.length] of the whole array; the [catch] of the loop body
    logs and throws the error again. *)
Fixpoint chapterLoop `{Platform} (w : World) (downloadId : jsstring)
    (fmt : Format) (mangaTitle downloadPath : jsstring)
    (totalChapters : nat) (chapters : list Chapter) (chapterIndex : nat)
    : M jsstring :=
  match chapters with
  | [] => throw (JsError (str "No chapters were successfully downloaded"))
  | chapter :: rest =>
      updateDownloadStatus w downloadId
        [SetCurrentChapter (Some (Title chapter));
         SetProgress (JsNumber.Math_floor
                        ((JsNumber.counter chapterIndex / JsNumber.of_nat totalChapters)
                         * 90)%float)];;
      match Update chapter with
      | Some errorMessage => throw (JsError errorMessage)
      | None =>
          match Pages chapter with
          | [] =>                                             (* continue *)
              chapterLoop w downloadId fmt mangaTitle downloadPath
                totalChapters rest (S chapterIndex)
          | _ :: _ =>
              resourceMap ← fetchPages w downloadId chapterIndex totalChapters
                              (length (Pages chapter)) (Pages chapter) 0 [];
              exportChapter w fmt chapter mangaTitle downloadPath resourceMap
          end
      end
  end.

Definition downloadAndExport `{Platform} (w : World) (downloadId : jsstring)
    (request : DownloadRequest) (chapters : list Chapter)
    (mangaTitle downloadPath : jsstring) : M jsstring :=
  let fmt := default cbz (req_format request) in
  chapterLoop w downloadId fmt mangaTitle downloadPath (length chapters) chapters 0.

(** *** processDownload *)

Definition no_valid_chapters (available requested : list jsstring) : jsstring :=
  str "No valid chapters found to download. Available chapter IDs: "
  ++ join (str ", ") available
  ++ str ". Requested: " ++ join (str ", ") requested.

(** [request.chapterIds.includes(c.Identifier)] *)
Definition requested (request : DownloadRequest) (c : Chapter) : bool :=
  bool_decide (Identifier c ∈ req_chapterIds request).

(** An [async] function runs until its first [await] before its caller
    goes on.  This is the part of [processDownload] before the first
    [await]; if the plugin is missing, the function throws there, which
    rejects its promise and changes no state. *)
Definition processDownload_start (w : World) (downloadId : jsstring) : M unit :=
  updateDownloadStatus w downloadId [SetStatus downloading].

(** The rest of [processDownload]; its [catch] logs and throws the error
    again. *)
Definition processDownload_rest `{Platform} (w : World) (downloadId : jsstring)
    (request : DownloadRequest) (downloadPath : jsstring) : M unit :=
  match find (fun p => bool_decide (plugin_Identifier p = req_sourceId request))
             (WebsitePlugins w) with
  | None => throw (Errors SourceNotFound (req_sourceId request))
  | Some plugin =>
      match find (fun m => bool_decide (manga_Identifier m = req_mangaId request))
                 (plugin_Entries plugin) with
      | None => throw (Errors MangaNotFound (req_mangaId request))
      | Some manga =>
          let chapters := manga_Entries manga in
          let chaptersToDownload := filter (fun c => requested request c = true) chapters in
          match chaptersToDownload with
          | [] =>
              throw (JsError (no_valid_chapters (map Identifier chapters)
                                                (req_chapterIds request)))
          | _ :: _ =>
              updateDownloadStatus w downloadId
                [SetStatus processing; SetProgress 0;
                 SetMangaTitle (Some (manga_Title manga))];;
              downloadAndExport w downloadId request chaptersToDownload
                (manga_Title manga) downloadPath;;
              completed_at ← now w;
              updateDownloadStatus w downloadId
                [SetStatus completed; SetProgress 100;
                 SetCompletedAt (Some completed_at);
                 SetFileUrl (Some (str "/api/v1/downloads/" ++ downloadId
                                   ++ str "/file"))]
          end
      end
  end.

Definition processDownload `{Platform} (w : World) (downloadId : jsstring)
    (request : DownloadRequest) (downloadPath : jsstring) : M unit :=
  processDownload_start w downloadId;;
  processDownload_rest w downloadId request downloadPath.

(** *** createDownload *)

(** The path the download is written under. *)
Definition download_path `{Platform} (w : World) (request : DownloadRequest) : jsstring :=
  if truthy (req_downloadPath request)
  then path_resolve (default [] (req_downloadPath request))
  else downloadDir w.

(** [createDownload(request)] up to its [return]: the result is the
    record it returns, by reference, together with the identifier it
    drew.  The call of [processDownload] has then run up to its first
    [await] and goes on later, see [settle]. *)
Definition createDownload `{Platform} (w : World) (request : DownloadRequest)
    : M (nat * jsstring) :=
  downloadId ← fresh_uuid w;
  let downloadPath := download_path w request in
  (if truthy (req_downloadPath request)
   then match mkdir w downloadPath with
        | Some errorMessage =>
            throw (JsError (str "Invalid download path: " ++ errorMessage))
        | None => perform (MadeDirectory downloadPath)
        end
   else mret tt);;
  created_at ← now w;
  updated_at ← now w;
  status_ref ← allocate
    {| id := downloadId;
       sourceId := req_sourceId request;
       mangaId := req_mangaId request;
       chapterIds := req_chapterIds request;
       status := queued;
       progress := 0;
       format := default cbz (req_format request);
       downloadPath := if truthy (req_downloadPath request)
                       then Some downloadPath else None;
       createdAt := created_at;
       updatedAt := updated_at;
       mangaTitle := None; currentChapter := None; completedAt := None;
       fileUrl := None; error := None |};
  downloads_set downloadId status_ref;;
  processDownload_start w downloadId;;
  mret (status_ref, downloadId).

(** What goes on after [createDownload] returned: the rest of
    [processDownload], and the handler given to [.catch] if it throws. *)
Definition settle `{Platform} (w : World) (downloadId : jsstring)
    (request : DownloadRequest) : M unit :=
  try_catch
    (processDownload_rest w downloadId request (download_path w request))
    (fun error =>
       updateDownloadStatus w downloadId
         [SetStatus failed; SetError (Some (message error))]).

(** A download from the request to the end of its processing, no other
    call coming in between. *)
Definition download `{Platform} (w : World) (request : DownloadRequest)
    : M (nat * jsstring) :=
  created ← createDownload w request;
  settle w created.2 request;;
  mret created.

(** *** getDownload, getDownloadFilePath, deleteDownload *)

Definition getDownload (downloadId : jsstring) : M DownloadStatus := fun s =>
  match record_of s downloadId with
  | Some download => (s, [], inr download)
  | None => (s, [], inl (Errors DownloadNotFound downloadId))
  end.

Definition getDownloadFilePath `{Platform} (w : World) (downloadId : jsstring)
    : M jsstring :=
  download ← getDownload downloadId;
  match status download with
  | completed =>
      let folderName :=
        if truthy (mangaTitle download)
        then SanitizeFileName (default [] (mangaTitle download))
        else SanitizeFileName (mangaId download) in
      let baseDir :=
        if truthy (downloadPath download)
        then default [] (downloadPath download) else downloadDir w in
      let mangaDir := path_join [baseDir; folderName] in
      if access w mangaDir
      then match readdir w mangaDir with
           | inl errorMessage => throw (JsError errorMessage)   (* outside the [try] *)
           | inr [] => throw (Errors NotFound (str "Download file"))
           | inr (entry :: _) => mret (path_join [mangaDir; entry])
           end
      else throw (Errors NotFound (str "Download file"))
  | _ => throw (Errors BadRequest (str "Download is not completed yet"))
  end.

(** [deleteDownload]; a failure to find or to remove the file is only
    logged. *)
Definition deleteDownload `{Platform} (w : World) (downloadId : jsstring) : M unit :=
  download ← getDownload downloadId;
  match status download with
  | completed =>
      try_catch (filePath ← getDownloadFilePath w downloadId;
                 perform (Unlinked filePath))
                (fun _ => mret tt)
  | _ => mret tt
  end;;
  downloads_delete downloadId.

(** *** Notions used to state the properties *)

(** The text [extractChapterNumber] returns for a matched number. *)
Definition number_label (found : jsstring * jsstring) : jsstring :=
  JsNumber.toString (JsNumber.parseFloat found.1 found.2).



(** The exports a run asked for: title of the chapter and output path. *)
Definition exports (log : list Effect) : list (jsstring * jsstring) :=
  omap (fun e => match e with
                 | Exporting _ _ outputPath chapterTitle _ => Some (chapterTitle, outputPath)
                 | _ => None
                 end) log.

(** The path [downloadAndExport] builds for a chapter. *)
Definition export_path `{Platform} (fmt : Format) (downloadPath mangaTitle : jsstring)
    (chapter : Chapter) : option jsstring :=
  match fmt with
  | cbz => Some (path_join [downloadPath; SanitizeFileName mangaTitle;
                            str "chapter_" ++ extractChapterNumber (Title chapter)
                            ++ str ".cbz"])
  | images => Some (path_join [downloadPath; SanitizeFileName mangaTitle;
                               str "chapter_" ++ extractChapterNumber (Title chapter)])
  | _ => None
  end.

(** The fields fixed when the record is created. *)
Definition same_identity (d d' : DownloadStatus) : Prop :=
  id d' = id d /\ sourceId d' = sourceId d /\ mangaId d' = mangaId d /\
  chapterIds d' = chapterIds d /\ format d' = format d /\ createdAt d' = createdAt d.

Definition identity_fields : list Field :=
  [Fid; FsourceId; FmangaId; FchapterIds; Fformat; FcreatedAt].

(** A computation that keeps every record in place with its identity. *)
Definition keeps_identity {A} (m : M A) : Prop :=
  forall s ref d, objects s !! ref = Some d ->
    exists d', objects (m s).1.1 !! ref = Some d' /\ same_identity d d'.

(** *** A small world to run the service in *)

(** The loop of Node's [path.posix.dirname]: [reversed] holds the code
    units at [i], [i - 1], ..., 0; the result is the index of the slash
    that ends the directory. *)
Fixpoint dirname_end (matchedSlash : bool) (i : nat) (reversed : jsstring) : option nat :=
  match i, reversed with
  | S i', c :: rest =>
      if (c =? 47)%N
      then if matchedSlash then dirname_end true i' rest else Some i
      else dirname_end false i' rest
  | _, _ => None
  end.

Definition posix_dirname (path : jsstring) : jsstring :=
  match path with
  | [] => str "."
  | first :: _ =>
      let hasRoot := (first =? 47)%N in
      match dirname_end true (length path - 1) (rev path) with
      | None => if hasRoot then str "/" else str "."
      | Some slash => if hasRoot && (slash =? 1)%nat then str "//" else take slash path
      end
  end.

Definition sample_platform : Platform :=
  {| SanitizeFileName := filter (fun c => c ≠ 47%N);
     Errors_message := fun _ argument => argument;
     path_resolve := fun p => p;
     path_join := join (str "/");
     path_dirname := posix_dirname |}.

Definition sample_page : PageEntry := {| Fetch := inr (str "image") |}.

Definition sample_chapter (identifier title : string) (pages : nat) : Chapter :=
  {| Identifier := str identifier; Title := str title; Update := None;
     Pages := repeat sample_page pages |}.

(** One site with one manga, with the given chapters. *)
Definition sample_world (chapters : list Chapter) : World :=
  {| downloadDir := str "downloads";
     randomUUID := fun n => str "id-" ++ JsNumber.integer_to_string (Z.of_nat n);
     toISOString := fun n => str "t" ++ JsNumber.integer_to_string (Z.of_nat n);
     mkdir := fun _ => None;
     access := fun _ => true;
     readdir := fun _ => inr [str "chapter_2.cbz"];
     WebsitePlugins :=
       [ {| plugin_Identifier := str "site";
            plugin_Entries :=
              [ {| manga_Identifier := str "berserk";
                   manga_Title := str "Berserk";
                   manga_Entries := chapters |} ] |} ];
     SaveTemporary := fun blob => inr (str "tmp");
     Export := fun _ _ _ _ _ => None |}.

(** A catalog whose first chapter has no page. *)
Definition sample_chapters : list Chapter :=
  [ sample_chapter "a" "Ch.001 - The Black Swordsman" 0;
    sample_chapter "b" "Chapter 2" 2;
    sample_chapter "c" "Vol.1 Chapter 3" 1 ].

Definition sample_request (chapters : list jsstring) : DownloadRequest :=
  {| req_sourceId := str "site"; req_mangaId := str "berserk";
     req_chapterIds := chapters; req_format := None;
     req_downloadPath := None |}.

(** The state in which [createDownload] returns for a first request. *)
Definition sample_created (chapters : list Chapter) (requested : list jsstring) : Service :=
  (createDownload (H := sample_platform) (sample_world chapters)
     (sample_request requested) empty_service).1.1.

(** The first request being for a, b and c: its [downloadAndExport]. *)
Definition sample_run : Service * list Effect * (Error + jsstring) :=
  downloadAndExport (H := sample_platform) (sample_world sample_chapters)
    (str "id-0") (sample_request [str "a"; str "b"; str "c"]) sample_chapters
    (str "Berserk") (str "downloads")
    (sample_created sample_chapters [str "a"; str "b"; str "c"]).

(** The formula of the progress read in exact arithmetic:
    [floor((chapterIndex + pageIndex / pageCount) / totalChapters * 90)]
    on rational numbers. *)
Definition exact_progress (chapterIndex pageIndex pageCount totalChapters : Z) : Z :=
  Qround.Qfloor
    (QArith_base.Qmult
       (QArith_base.Qdiv
          (QArith_base.Qplus (QArith_base.inject_Z chapterIndex)
             (QArith_base.Qdiv (QArith_base.inject_Z pageIndex)
                               (QArith_base.inject_Z pageCount)))
          (QArith_base.inject_Z totalChapters))
       (QArith_base.inject_Z 90)).

(** A request for one chapter of ten pages: its [downloadAndExport]. *)
Definition ten_pages : list Chapter := [sample_chapter "a" "Chapter 1" 10].

Definition ten_pages_run : Service * list Effect * (Error + jsstring) :=
  downloadAndExport (H := sample_platform) (sample_world ten_pages)
    (str "id-0") (sample_request [str "a"]) ten_pages
    (str "Berserk") (str "downloads")
    (sample_created ten_pages [str "a"]).

(** *** cleanupOldDownloads *)

(** [now - new Date(download.createdAt).getTime() > retentionMs], on
    times in ms that are integers; [getTime] gives nothing for a text
    that is not a date, the time is then NaN and the comparison false. *)
Definition expired (getTime : jsstring -> option Z) (retentionMs now_ms : Z)
    (download : DownloadStatus) : bool :=
  match getTime (createdAt download) with
  | Some createdAt_ms => (retentionMs <? now_ms - createdAt_ms)%Z
  | None => false
  end.

(** What the other calls of the service do to it while this one waits
    at an [await]. *)
Definition meanwhile (change : Service -> Service) : M unit := fun s =>
  (change s, [], inr tt).

(** The loop of [cleanupOldDownloads] over [entries], the copy of the
    table made before the loop: identifiers with their records, which
    are the records of the table themselves.  The loop waits only where
    it awaits [deleteDownload]; [others turn] is what other calls do to
    the service during the wait of the iteration [turn], taken to come
    when the deletion is over: nothing in [deleteDownload] throws after
    its first lookup, and its last step only removes the entry. *)
Fixpoint cleanupLoop `{Platform} (w : World) (getTime : jsstring -> option Z)
    (retentionMs now_ms : Z) (others : nat -> Service -> Service) (turn : nat)
    (entries : list (jsstring * nat)) : M unit :=
  match entries with
  | [] => mret tt
  | (downloadId, ref) :: rest =>
      download ← inspect (fun s => objects s !! ref);
      (if default false (expired getTime retentionMs now_ms <$> download)
       then deleteDownload w downloadId;; meanwhile (others turn)
       else mret tt);;
      cleanupLoop w getTime retentionMs now_ms others (S turn) rest
  end.

(** [cleanupOldDownloads()], for a number of days that is an integer;
    [now_ms] is [Date.now()].  The table is a finite map here and does
    not tell the order of insertion, so the copy of its entries is
    given. *)
Definition cleanupOldDownloads `{Platform} (w : World) (getTime : jsstring -> option Z)
    (retentionDays now_ms : Z) (others : nat -> Service -> Service)
    (entries : list (jsstring * nat)) : M unit :=
  let retentionMs := (retentionDays * 24 * 60 * 60 * 1000)%Z in
  cleanupLoop w getTime retentionMs now_ms others 0 entries.

(** Other calls that add and remove no download, and keep every record
    in place with its time of creation, as the updates of a download
    being processed do. *)
Definition keeps_table (change : Service -> Service) : Prop :=
  forall s,
    downloads (change s) = downloads s /\
    forall ref d, objects s !! ref = Some d ->
      exists d', objects (change s) !! ref = Some d' /\ createdAt d' = createdAt d.

(** No other call runs meanwhile. *)
Definition no_others : nat -> Service -> Service := fun _ s => s.

(** Another call that deletes the download [downloadId] meanwhile. *)
Definition deleted_meanwhile (downloadId : jsstring) (s : Service) : Service :=
  {| objects := objects s; downloads := delete downloadId (downloads s);
     allocated := allocated s; uuids := uuids s; clock := clock s |}.

(** Reading the sample clock: the text [t<n>] is the time [n] days. *)
Definition sample_getTime (text : jsstring) : option Z :=
  match text with
  | 116%N :: digits => Some (JsNumber.digits_value digits * 86400000)%Z
  | _ => None
  end.

(** *** More notions and samples *)

Definition is_fetching (e : Effect) : bool :=
  match e with
  | Fetching _ _ _ => true
  | _ => false
  end.

(** The temporary files a run removed: the keys of each removal. *)
Definition removals (log : list Effect) : list (list jsstring) :=
  omap (fun e => match e with
                 | RemovedTemporary keys => Some keys
                 | _ => None
                 end) log.

(** A page that is fetched and saved under [key]. *)
Definition saved_as (w : World) (page : PageEntry) (key : jsstring) : Prop :=
  exists imageBlob, Fetch page = inr imageBlob /\ SaveTemporary w imageBlob = inr key.

(** The effects of a run that exports [chapter] to [outputPath]. *)
Definition export_effects `{Platform} (fmt : Format) (resourceMap : list (nat * jsstring))
    (outputPath : jsstring) (chapter : Chapter) (mangaTitle : jsstring) : list Effect :=
  [ MadeDirectory (path_dirname outputPath);
    Exporting fmt resourceMap outputPath (Title chapter) mangaTitle;
    RemovedTemporary (map snd resourceMap) ].

(** A page the site fails to deliver. *)
Definition broken_page : PageEntry := {| Fetch := inl (str "socket hang up") |}.

(** A catalog whose second chapter has a page that fails after one that
    does not. *)
Definition broken_chapters : list Chapter :=
  [ sample_chapter "a" "Chapter 1" 0;
    {| Identifier := str "b"; Title := str "Chapter 2"; Update := None;
       Pages := [sample_page; broken_page; sample_page] |} ].

(** A request like [sample_request], for the given format. *)
Definition sample_request_as (fmt : Format) (chapters : list jsstring) : DownloadRequest :=
  {| req_sourceId := str "site"; req_mangaId := str "berserk";
     req_chapterIds := chapters; req_format := Some fmt;
     req_downloadPath := None |}.

(** A catalog whose second chapter cannot be updated. *)
Definition stale_chapters : list Chapter :=
  [ sample_chapter "a" "Chapter 1" 0;
    {| Identifier := str "b"; Title := str "Chapter 2";
       Update := Some (str "404 Not Found"); Pages := [] |};
    sample_chapter "c" "Chapter 3" 1 ].

(** A computation that works on one download: it leaves the table as it
    is, keeps every record in place, and changes no record but the one
    the table holds for [downloadId]. *)
Definition touches_only (downloadId : jsstring) {A} (m : M A) : Prop :=
  forall s,
    downloads (m s).1.1 = downloads s /\
    (forall ref, is_Some (objects s !! ref) -> is_Some (objects (m s).1.1 !! ref)) /\
    (forall ref, downloads s !! downloadId <> Some ref ->
       objects (m s).1.1 !! ref = objects s !! ref).

(** The sample world with a file system that refuses to make
    directories. *)
Definition readonly_world (chapters : list Chapter) : World :=
  {| downloadDir := downloadDir (sample_world chapters);
     randomUUID := randomUUID (sample_world chapters);
     toISOString := toISOString (sample_world chapters);
     mkdir := fun _ => Some (str "EACCES: permission denied");
     access := access (sample_world chapters);
     readdir := readdir (sample_world chapters);
     WebsitePlugins := WebsitePlugins (sample_world chapters);
     SaveTemporary := SaveTemporary (sample_world chapters);
     Export := Export (sample_world chapters) |}.

(** The sample world with directories that exist and cannot be
    listed. *)
Definition unlistable_world (chapters : list Chapter) : World :=
  {| downloadDir := downloadDir (sample_world chapters);
     randomUUID := randomUUID (sample_world chapters);
     toISOString := toISOString (sample_world chapters);
     mkdir := mkdir (sample_world chapters);
     access := access (sample_world chapters);
     readdir := fun _ => inl (str "EACCES: permission denied, scandir");
     WebsitePlugins := WebsitePlugins (sample_world chapters);
     SaveTemporary := SaveTemporary (sample_world chapters);
     Export := Export (sample_world chapters) |}.

(** A request for a custom download path. *)
Definition sample_request_to (path : jsstring) (chapters : list jsstring)
    : DownloadRequest :=
  {| req_sourceId := str "site"; req_mangaId := str "berserk";
     req_chapterIds := chapters; req_format := None;
     req_downloadPath := Some path |}.

(** A computation that keeps every record in place and related by [R]
    to what it was. *)
Definition preserves (R : DownloadStatus -> DownloadStatus -> Prop) {A} (m : M A) : Prop :=
  forall s ref d, objects s !! ref = Some d ->
    exists d', objects (m s).1.1 !! ref = Some d' /\ R d d'.

(** Records that differ at most in [fields] and in [updatedAt]. *)
Definition unchanged_outside (fields : list Field) (d d' : DownloadStatus) : Prop :=
  forall f, f ∉ fields -> f <> FupdatedAt -> get f d' = get f d.

(** The updates [updateDownloadStatus] is called with inside
    [downloadAndExport] name these fields. *)
Definition progress_fields : list Field := [FcurrentChapter; Fprogress].

(** A request for a site that is not registered. *)
Definition lost_request : DownloadRequest :=
  {| req_sourceId := str "nowhere"; req_mangaId := str "berserk";
     req_chapterIds := [str "a"]; req_format := None; req_downloadPath := None |}.

(** The state after two requests, for the chapters b and c, were
    accepted. *)
Definition two_downloads : Service :=
  (createDownload (H := sample_platform) (sample_world sample_chapters)
     (sample_request [str "c"]) (sample_created sample_chapters [str "b"])).1.1.

(** The cleanup of these two downloads, made on day 0 and on day 3, with
    seven days of retention, on the day [today]. *)
Definition sample_cleanup (today : Z) (others : nat -> Service -> Service)
    : Service * list Effect * (Error + unit) :=
  cleanupOldDownloads (H := sample_platform) (sample_world sample_chapters)
    sample_getTime 7 (today * 86400000) others
    [(str "id-0", 0); (str "id-1", 1)] two_downloads.

(** The first request being for a, b and c: the end of its processing. *)
Definition sample_settled : Service * list Effect * (Error + unit) :=
  settle (H := sample_platform) (sample_world sample_chapters) (str "id-0")
    (sample_request [str "a"; str "b"; str "c"])
    (sample_created sample_chapters [str "a"; str "b"; str "c"]).

(** The code units of the text of a non-negative Number: digits, the
    point, the letter and signs of the exponent, and the letters of
    [Infinity]. *)
Definition label_char (c : char16) : bool :=
  JsNumber.is_digit c || existsb (N.eqb c) (str ".e+-Infinity").

End Download.

(** ** Fetching through the browser (FetchProviderPuppeteer.Fetch,
       FetchWithBrowser, FetchWindowScript, FetchWindowPreloadScript) *)

Module Provider.
Import Js.

(** [new Error(message)] *)
Definition new_Error (message : jsstring) : thrown := Thrown (Some message).

(** The part of a [Request] the provider reads; [Referer] is
    [request.headers.get('Referer')]. *)
Record Request := {
  method : jsstring;
  url : jsstring;
  Referer : option jsstring
}.

(** Status, status text and header entries of a response of the network
    or of the page. *)
Record Head := {
  head_status : Z;
  head_statusText : jsstring;
  head_headers : list (jsstring * jsstring)
}.

(** The arguments of [new Response(body, { status, statusText, headers })]. *)
Record Response := {
  response_body : jsstring;
  response_status : Z;
  response_statusText : jsstring;
  response_headers : gmap (list N) (list N)
}.

(** How a call of the provider stands: it returned, it threw, or it is
    still waiting (in [getPage]). *)
Inductive outcome (A : Type) :=
| Returned (a : A)
| Threw (error : raised)
| Pending.
Arguments Returned {A} a.
Arguments Threw {A} error.
Arguments Pending {A}.

(** What lies outside the provider while it serves one request; what
    it throws is a value of [thrown]. *)
Record Site := {
  direct : thrown + Head * jsstring;
    (* fetch(request), ValidateResponse and response.arrayBuffer() *)
  origin : jsstring -> jsstring;                (* new URL(url).origin *)
  goto : jsstring -> thrown + option Head;      (* page.goto(url): null is None *)
  challenge : nat -> Cloudflare.poll;           (* the page during waitForCloudflare *)
  clock : Z;                                    (* Date.now() on entering it *)
  content : thrown + jsstring;                  (* page.content() *)
  request_text : option thrown;                 (* what request.text() throws *)
  in_page_fetch : thrown + Head * jsstring;     (* the page.evaluate calling fetch *)
  preload_throws : option thrown;               (* page.evaluateOnNewDocument *)
  hasChallenge : thrown + bool;                 (* the first page.evaluate *)
  script : thrown + jsstring;                   (* page.evaluate(script) *)
  reset_ok : bool;                              (* releasePage clears the storages *)
  Response_throws : Response -> option thrown   (* what new Response throws *)
}.

(** [new Response(body, { status, statusText, headers })] with the
    headers sanitised. *)
Definition new_Response (site : Site) (head : Head) (body : jsstring)
    : thrown + Response :=
  let response :=
    {| response_body := body; response_status := head_status head;
       response_statusText := head_statusText head;
       response_headers := Headers.sanitizeHeaders (head_headers head) |} in
  match Response_throws site response with
  | Some error => inl error
  | None => inr response
  end.

(** [return new Response(...)] where no handler is around it. *)
Definition respond (site : Site) (head : Head) (body : jsstring) : outcome Response :=
  match new_Response site head body with
  | inl error => Threw (Raised error)
  | inr response => Returned response
  end.

(** [await this.waitForCloudflare(page, maxWaitTime)], then [next]. *)
Definition after_challenge {A} (site : Site) (maxWaitTime : Z) (next : outcome A)
    : outcome A :=
  match Cloudflare.waitForCloudflare (challenge site) (clock site) maxWaitTime with
  | Some r =>
      match Cloudflare.settled r with
      | Cloudflare.Resolved => next
      | Cloudflare.Rejected error => Threw error
      end
  | None => Pending
  end.

(** [request.method && request.method !== 'GET' && request.method !== 'HEAD'] *)
Definition has_body_method (request : Request) : bool :=
  truthy (Some (method request))
  && negb (bool_decide (method request = str "GET"))
  && negb (bool_decide (method request = str "HEAD")).

(** The [try] block of [FetchWithBrowser]. *)
Definition FetchWithBrowser_try (site : Site) (request : Request) : outcome Response :=
  if has_body_method request
  then
    let pageToVisit :=
      if truthy (Referer request) then default [] (Referer request)
      else origin site (url request) in
    match goto site pageToVisit with
    | inl error => Threw (Raised error)
    | inr None => Threw (Raised (new_Error (str "Failed to load " ++ pageToVisit)))
    | inr (Some initialResponse) =>
        after_challenge site 45000
          match request_text site with
          | Some error => Threw (Raised error)
          | None =>
              match in_page_fetch site with
              | inl error => Threw (Raised error)
              | inr (result, body) => respond site result body
              end
          end
    end
  else
    match goto site (url request) with
    | inl error => Threw (Raised error)
    | inr None => Threw (Raised (new_Error (str "Failed to load " ++ url request)))
    | inr (Some response) =>
        after_challenge site 45000
          match content site with
          | inl error => Threw (Raised error)
          | inr html => respond site response html
          end
    end.

(** The error [getBrowser] throws when the launch fails. *)
Definition launch_failure : jsstring :=
  str "Failed to launch browser. Please install Chromium/Chrome or set PUPPETEER_EXECUTABLE_PATH environment variable. See PUPPETEER_SETUP.md for instructions.".

(** [const page = await this.getPage(); try { ... } finally { await
    this.releasePage(page) }], the shape of [FetchWithBrowser] and of
    [FetchWindowPreloadScript]; [launch_ok] is whether a launch of the
    browser succeeds, should [getPage] need one. *)
Definition FetchWithBrowser (site : Site) (request : Request) (launch_ok : bool)
    (s : Pool.state) : Pool.state * outcome Response :=
  match Pool.getPage launch_ok s with
  | (s1, Pool.GotPage page) =>
      ((Pool.releasePage page (reset_ok site) s1).1, FetchWithBrowser_try site request)
  | (s1, Pool.LaunchFailed) => (s1, Threw (Raised (new_Error launch_failure)))
  | (s1, _) => (s1, Pending)
  end.

(** The [try] block of [FetchWindowPreloadScript]; [preload] tells
    whether a preload script is given. *)
Definition FetchWindowPreloadScript_try (site : Site) (request : Request)
    (preload : bool) (timeout : Z) : outcome jsstring :=
  match (if preload then preload_throws site else None) with
  | Some error => Threw (Raised error)
  | None =>
      match goto site (url request) with
      | inl error => Threw (Raised error)
      | inr None => Threw (Raised (new_Error (str "Failed to load " ++ url request)))
      | inr (Some response) =>
          match hasChallenge site with
          | inl error => Threw (Raised error)
          | inr challenged =>
              let result :=
                match script site with
                | inl error => Threw (Raised error)
                | inr value => Returned value
                end in
              if challenged then after_challenge site timeout result else result
          end
      end
  end.

Definition FetchWindowPreloadScript (site : Site) (request : Request)
    (preload : bool) (timeout : Z) (launch_ok : bool) (s : Pool.state)
    : Pool.state * outcome jsstring :=
  match Pool.getPage launch_ok s with
  | (s1, Pool.GotPage page) =>
      ((Pool.releasePage page (reset_ok site) s1).1,
       FetchWindowPreloadScript_try site request preload timeout)
  | (s1, Pool.LaunchFailed) => (s1, Threw (Raised (new_Error launch_failure)))
  | (s1, _) => (s1, Pending)
  end.

(** [FetchWindowScript] passes the preload script [() => undefined]. *)
Definition FetchWindowScript (site : Site) (request : Request) (timeout : Z)
    (launch_ok : bool) (s : Pool.state) : Pool.state * outcome jsstring :=
  FetchWindowPreloadScript site request true timeout launch_ok s.

(** [Fetch]: the plain fetch first, the browser when that throws an
    error whose message holds CloudFlare or Forbidden.  The handler
    reads [error.message] of whatever the [try] block threw, which
    raises a TypeError on [null] and [undefined]; the call of
    [FetchWithBrowser] is in the handler, so what it throws goes to the
    caller. *)
Definition Fetch (site : Site) (request : Request) (launch_ok : bool)
    (s : Pool.state) : Pool.state * outcome Response :=
  let plain :=
    match direct site with
    | inl error => inl error
    | inr (response, body) => new_Response site response body
    end in
  match plain with
  | inr response => (s, Returned response)
  | inl error =>
      match message_includes (str "CloudFlare") error with
      | None => (s, Threw TypeError)
      | Some true => FetchWithBrowser site request launch_ok s
      | Some false =>
          match message_includes (str "Forbidden") error with
          | Some true => FetchWithBrowser site request launch_ok s
          | _ => (s, Threw (Raised error))
          end
      end
  end.

(** A site behind a challenge that never clears; its response has a
    header broken over two lines. *)
Definition sample_site : Site :=
  {| direct := inl (new_Error (str "Forbidden"));
     origin := fun _ => str "https://example.org";
     goto := fun _ =>
       inr (Some {| head_status := 200; head_statusText := str "OK";
                    head_headers :=
                      [(str "server-timing",
                        str "cfL4;desc=x" ++ [13; 10]%N ++ str "cfExtPri")] |});
     challenge := Cloudflare.sample_challenge;
     clock := 0;
     content := inr (str "<html></html>");
     request_text := None;
     in_page_fetch := inl (Thrown None);
     preload_throws := None;
     hasChallenge := inr true;
     script := inr (str "42");
     reset_ok := true;
     Response_throws := fun _ => None |}.

Definition sample_get : Request :=
  {| method := str "GET"; url := str "https://example.org/manga"; Referer := None |}.

End Provider.

(** ** Stripping the style sheets out of a page (FetchProviderPuppeteer.FetchHTML) *)

Module Html.
Import Js.

(** The class [[^>]], and the class of the two quotes, double and
    single, with its complement. *)
Definition not_gt (c : char16) : bool := negb (c =? 62)%N.

Definition is_quote (c : char16) : bool := ((c =? 34) || (c =? 39))%N.

Definition not_quote (c : char16) : bool := negb (is_quote c).

(** What follows the first occurrence of [pattern] in [text], letters
    compared without case: the lazy [[\s\S]*?] followed by [pattern]. *)
Fixpoint after_first_ci (pattern text : jsstring) : option jsstring :=
  match Download.starts_with_ci pattern text with
  | Some rest => Some rest
  | None =>
      match text with
      | [] => None
      | _ :: text' => after_first_ci pattern text'
      end
  end.

(** [/<style[^>]*>[\s\S]*?<\/style>/i] matched at the start of [text]:
    what follows the match.  The greedy [[^>]*] stops at the first [>],
    which the pattern then wants. *)
Definition style_element_at (text : jsstring) : option jsstring :=
  match Download.starts_with_ci (str "<style") text with
  | Some after_name =>
      match (Download.span not_gt after_name).2 with
      | 62%N :: content => after_first_ci (str "</style>") content
      | _ => None
      end
  | None => None
  end.

(** The second pattern matched at the start of [text]: white space,
    [style], [=] with white space around it, a quote, code units that
    are no quotes, a quote.  Letters are compared without case. *)
Definition style_attribute_at (text : jsstring) : option jsstring :=
  match Download.span Download.is_space text with
  | (_ :: _, after_space) =>
      match Download.starts_with_ci (str "style") after_space with
      | Some after_name =>
          match (Download.span Download.is_space after_name).2 with
          | 61%N :: after_equals =>
              match (Download.span Download.is_space after_equals).2 with
              | opening :: value =>
                  if is_quote opening
                  then match (Download.span not_quote value).2 with
                       | closing :: rest => Some rest
                       | [] => None
                       end
                  else None
              | [] => None
              end
          | _ => None
          end
      | None => None
      end
  | _ => None
  end.

(** [rel], [=] with white space around it, and [stylesheet] between
    two quotes, matched at the start of [text] without case. *)
Definition rel_stylesheet_at (text : jsstring) : bool :=
  match Download.starts_with_ci (str "rel") text with
  | Some after_name =>
      match (Download.span Download.is_space after_name).2 with
      | 61%N :: after_equals =>
          match (Download.span Download.is_space after_equals).2 with
          | opening :: value =>
              is_quote opening
              && match Download.starts_with_ci (str "stylesheet") value with
                 | Some (closing :: _) => is_quote closing
                 | _ => false
                 end
          | [] => false
          end
      | _ => false
      end
  | None => false
  end.

(** The text and what is left of it after each of its code units. *)
Fixpoint tails (text : jsstring) : list jsstring :=
  text :: match text with
          | [] => []
          | _ :: text' => tails text'
          end.

(** The third pattern matched at the start of [text]: [<link], code
    units other than [>], the [rel] attribute above, code units other
    than [>], and [>].  The tag ends at the first [>] after [<link], and
    the first [[^>]*] gives back code units until the attribute is found
    somewhere before that [>]. *)
Definition link_stylesheet_at (text : jsstring) : option jsstring :=
  match Download.starts_with_ci (str "<link") text with
  | Some after_name =>
      let '(attributes, rest) := Download.span not_gt after_name in
      match rest with
      | 62%N :: after_tag =>
          if existsb rel_stylesheet_at (tails attributes) then Some after_tag else None
      | _ => None
      end
  | None => None
  end.

(** [text.replace(pattern, '')] for a pattern with the flag [g] that
    matches no empty text: the matches are looked for from left to right,
    each search beginning where the match before ended. *)
Fixpoint remove_matches (fuel : nat) (match_at : jsstring -> option jsstring)
    (text : jsstring) : jsstring :=
  match fuel with
  | O => text
  | S fuel' =>
      match match_at text with
      | Some rest => remove_matches fuel' match_at rest
      | None =>
          match text with
          | [] => []
          | c :: text' => c :: remove_matches fuel' match_at text'
          end
      end
  end.

Definition remove_all (match_at : jsstring -> option jsstring) (text : jsstring)
    : jsstring :=
  remove_matches (S (length text)) match_at text.

(** The three replacements [FetchHTML] makes before it parses the
    page. *)
Definition strip_css (html : jsstring) : jsstring :=
  remove_all link_stylesheet_at
    (remove_all style_attribute_at
       (remove_all style_element_at html)).

End Html.

(* ===================================================================== *)
(** * Part II: properties                                                 *)
(* ===================================================================== *)

(** ** Header sanitisation *)

Section HeadersFacts.
Import Js Headers.

Lemma is_crlf_control c : is_crlf c = true -> is_control c = true.
Proof.
  unfold is_crlf, is_control.
  intros [H | H]%orb_true_iff; apply N.eqb_eq in H; subst; reflexivity.
Qed.

Lemma replace_crlf_no_crlf value in_run :
  forallb (fun c => negb (is_crlf c)) (replace_crlf in_run value) = true.
Proof.
  revert in_run.
  induction value as [| c rest IH]; intros in_run; simpl; [reflexivity |].
  destruct (is_crlf c) eqn:Hc.
  - destruct in_run; simpl; auto.
  - simpl. rewrite Hc. simpl. auto.
Qed.

(** A value without CR / LF is left as it is. *)
Lemma replace_crlf_id value :
  forallb (fun c => negb (is_crlf c)) value = true ->
  replace_crlf false value = value.
Proof.
  induction value as [| c rest IH]; simpl; [reflexivity |].
  intros [Hc Hrest]%andb_true_iff.
  apply negb_true_iff in Hc. rewrite Hc. f_equal. auto.
Qed.



Lemma sanitize_entry_inv (P : jsstring -> jsstring -> Prop) acc entry :
  (forall k v, acc !! k = Some v -> P k v) ->
  (has_control (replace_crlf false entry.2) = false ->
   P entry.1 (replace_crlf false entry.2)) ->
  forall k v, sanitize_entry acc entry !! k = Some v -> P k v.
Proof.
  intros Hacc Hnew k v. unfold sanitize_entry, set_property.
  destruct (has_control _) eqn:Hctl; [apply Hacc |].
  case_decide; [apply Hacc |].
  destruct (decide (entry.1 = k)) as [<- | Hne].
  - rewrite lookup_insert_eq. intros [= <-]. auto.
  - rewrite lookup_insert_ne by done. apply Hacc.
Qed.

Lemma sanitizeHeaders_fold_inv (P : jsstring -> jsstring -> Prop) entries :
  forall acc,
  (forall k v, acc !! k = Some v -> P k v) ->
  (forall k v0, In (k, v0) entries ->
     has_control (replace_crlf false v0) = false ->
     P k (replace_crlf false v0)) ->
  forall k v, fold_left sanitize_entry entries acc !! k = Some v -> P k v.
Proof.
  induction entries as [| [k0 v0] entries IH]; intros acc Hacc Hnew; simpl.
  - exact Hacc.
  - apply IH.
    + apply sanitize_entry_inv; [exact Hacc |]. simpl. intros Hc.
      apply Hnew; [left; reflexivity | exact Hc].
    + intros k v1 Hin. apply Hnew. right. exact Hin.
Qed.

(** Every header of the result comes from an entry of the input, holds
    that entry's value with its CR / LF runs replaced, and holds no
    control character. *)
Lemma sanitizeHeaders_sound entries k v :
  sanitizeHeaders entries !! k = Some v ->
  has_control v = false /\
  forallb (fun c => negb (is_crlf c)) v = true /\
  exists v0, In (k, v0) entries /\ v = replace_crlf false v0.
Proof.
  unfold sanitizeHeaders.
  apply (sanitizeHeaders_fold_inv
           (fun k v => has_control v = false /\
                       forallb (fun c => negb (is_crlf c)) v = true /\
                       exists v0, In (k, v0) entries /\ v = replace_crlf false v0)).
  - intros k' v'. rewrite lookup_empty. discriminate.
  - intros k' v0 Hin Hc. split; [exact Hc |]. split.
    + apply replace_crlf_no_crlf.
    + exists v0. split; [exact Hin | reflexivity].
Qed.



(** *** Which headers are kept *)

(** After the replacement, the control characters left are those that
    were there and are neither CR nor LF. *)
Lemma has_control_replace_crlf value : forall in_run,
  has_control (replace_crlf in_run value) = existsb is_other_control value.
Proof.
  unfold has_control.
  induction value as [| c rest IH]; intros in_run; simpl; [reflexivity |].
  unfold is_other_control at 1. destruct (is_crlf c) eqn:Hc.
  - rewrite andb_false_r. simpl. destruct in_run; simpl; apply IH.
  - simpl. rewrite andb_true_r, IH. reflexivity.
Qed.

Lemma values_of_snoc key entries k0 v0 :
  values_of key (entries ++ [(k0, v0)]) =
  values_of key entries ++ (if decide (k0 = key) then [v0] else []).
Proof.
  unfold values_of. rewrite filter_app, map_app. f_equal.
  rewrite filter_cons. simpl. destruct (decide (k0 = key)); reflexivity.
Qed.

Lemma sanitizeHeaders_lookup_eq (entries : list (jsstring * jsstring)) (key : jsstring) :
  sanitizeHeaders entries !! key =
  if decide (key = str "__proto__") then None
  else replace_crlf false <$>
         last (filter (fun v => existsb is_other_control v = false)
                      (values_of key entries)).
Proof.
  induction entries as [| [k0 v0] entries IH] using rev_ind.
  - unfold sanitizeHeaders. simpl. rewrite lookup_empty. case_decide; reflexivity.
  - unfold sanitizeHeaders in *. rewrite fold_left_app. simpl.
    remember (fold_left sanitize_entry entries ∅) as acc eqn:Hacc. clear Hacc.
    rewrite values_of_snoc, filter_app.
    unfold sanitize_entry, set_property. simpl.
    rewrite has_control_replace_crlf.
    destruct (existsb is_other_control v0) eqn:Hv0.
    + rewrite IH. destruct (decide (k0 = key)); simpl.
      * rewrite filter_cons_False by (rewrite Hv0; discriminate).
        rewrite filter_nil, app_nil_r. reflexivity.
      * rewrite filter_nil, app_nil_r. reflexivity.
    + destruct (decide (k0 = str "__proto__")) as [Hproto | Hproto].
      * rewrite IH. destruct (decide (key = str "__proto__")); [reflexivity |].
        rewrite decide_False by congruence.
        rewrite filter_nil, app_nil_r. reflexivity.
      * destruct (decide (k0 = key)) as [-> | Hne].
        -- rewrite lookup_insert_eq. rewrite decide_False by exact Hproto.
           rewrite filter_cons_True by exact Hv0. rewrite filter_nil.
           rewrite last_snoc. reflexivity.
        -- rewrite lookup_insert_ne by exact Hne. rewrite IH.
           rewrite filter_nil, app_nil_r. reflexivity.
Qed.



(** A [server-timing] value broken over two lines is folded, and a value
    with a tab is dropped. *)
Example sanitizeHeaders_sample :
  sanitizeHeaders
    [ (str "server-timing", str "cfL4;desc=x" ++ [13; 10]%N ++ str "cfExtPri");
      (str "x-tab", str "a" ++ [9%N] ++ str "b");
      (str "content-type", str "text/html") ]
  = <[str "content-type" := str "text/html"]>
      (<[str "server-timing" := str "cfL4;desc=x, cfExtPri"]> ∅).
Proof. vm_compute. reflexivity. Qed.

(** X6: [sanitizeHeaders] gives a name the last of its values that holds
    no control character other than CR and LF, with the runs of CR and
    LF replaced; a name without such a value is absent, and so is the
    name [__proto__].  A line break alone never makes a header
    disappear, and a later rejected value does not remove an earlier
    accepted one. *)
Theorem sanitizeHeaders_lookup (entries : list (jsstring * jsstring)) (key : jsstring) :
  sanitizeHeaders entries !! key =
  if decide (key = str "__proto__") then None
  else replace_crlf false <$>
         last (filter (fun v => existsb is_other_control v = false)
                      (values_of key entries)).
Proof. apply sanitizeHeaders_lookup_eq. Qed.

(** X7: headers whose values hold no control character at all, and none
    of which is named [__proto__], pass through unchanged: every name
    gets the last value the entries give it. *)
Theorem sanitizeHeaders_clean (entries : list (jsstring * jsstring)) (key : jsstring) :
  Forall (fun entry => has_control entry.2 = false) entries ->
  key <> str "__proto__" ->
  sanitizeHeaders entries !! key = last (values_of key entries).
Proof.
  intros Hclean Hkey.
  assert (Hvalues : Forall (fun v => has_control v = false) (values_of key entries)).
  { unfold values_of. apply Forall_forall. intros v Hv.
    apply list_elem_of_In, in_map_iff in Hv as ([k0 v0] & <- & Hin).
    apply list_elem_of_In, list_elem_of_filter in Hin as [_ Hin].
    rewrite Forall_forall in Hclean. apply (Hclean _ Hin). }
  rewrite sanitizeHeaders_lookup_eq, decide_False by exact Hkey.
  induction (values_of key entries) as [| v vs IH] using rev_ind; [reflexivity |].
  apply Forall_app in Hvalues as [Hvs Hv]. inversion Hv as [| ? ? Hv' _]; subst.
  assert (Hno : existsb is_other_control v = false).
  { unfold has_control in Hv'. apply not_true_iff_false. intros Hex.
    apply existsb_exists in Hex as (c & Hc & Hoc).
    unfold is_other_control in Hoc. apply andb_true_iff in Hoc as [Hoc _].
    assert (existsb is_control v = true) by (apply existsb_exists; eauto). congruence. }
  rewrite filter_app, filter_cons_True by exact Hno. rewrite filter_nil.
  rewrite !last_snoc. simpl. f_equal. apply replace_crlf_id.
  apply forallb_forall. intros c Hc. apply negb_true_iff.
  destruct (is_crlf c) eqn:Hcr; [| reflexivity].
  apply is_crlf_control in Hcr.
  assert (existsb is_control v = true) by (apply existsb_exists; eauto).
  unfold has_control in Hv'. congruence.
Qed.

Lemma sanitizeHeaders_clean_witness :
  sanitizeHeaders [(str "content-type", str "text/html"); (str "x-a", str "1");
                   (str "content-type", str "text/plain")] !! str "content-type"
  = last (values_of (str "content-type")
            [(str "content-type", str "text/html"); (str "x-a", str "1");
             (str "content-type", str "text/plain")]).
Proof.
  apply (sanitizeHeaders_clean
           [(str "content-type", str "text/html"); (str "x-a", str "1");
            (str "content-type", str "text/plain")] (str "content-type")).
  - repeat constructor.
  - intros Heq. vm_compute in Heq. discriminate.
Defined.

End HeadersFacts.

(** ** The pool of pages *)

Section PoolFacts.
Import Pool.

Lemma run_cons s c calls : run s (c :: calls) = run (step s c) calls.
Proof. reflexivity. Qed.

Lemma pop_nil : pop [] = (None, []).
Proof. reflexivity. Qed.

Lemma pop_length l p rest : pop l = (Some p, rest) -> length l = S (length rest).
Proof.
  unfold pop. destruct (last l) as [q |] eqn:Hlast; [| discriminate].
  intros [= <- <-].
  destruct l as [| a l] using rev_ind; [discriminate |].
  rewrite removelast_last, length_app. simpl. lia.
Qed.

(** The pool itself never holds more than [maxBrowsers] pages, once it
    does not. *)
Lemma step_idle_bounded s c :
  length (browserPool s) <= maxBrowsers s ->
  length (browserPool (step s c)) <= maxBrowsers (step s c) /\
  maxBrowsers (step s c) = maxBrowsers s.
Proof.
  intros Hle. destruct c as [launch_ok | page reset_ok]; simpl.
  - unfold getPage. destruct (pop (browserPool s)) as [[p |] rest] eqn:Hpop.
    + apply pop_length in Hpop. simpl. lia.
    + destruct (length rest <? maxBrowsers s) eqn:Hlt; [| simpl; lia].
      unfold getBrowser. destruct (connected s), launch_ok; simpl;
        apply Nat.ltb_lt in Hlt; lia.
  - unfold releasePage.
    destruct (reset_ok && (length (browserPool s) <? maxBrowsers s)) eqn:Hc; simpl.
    + apply andb_true_iff in Hc as [_ Hlt]. apply Nat.ltb_lt in Hlt.
      rewrite length_app. simpl. lia.
    + lia.
Qed.

Lemma run_idle_bounded calls s :
  length (browserPool s) <= maxBrowsers s ->
  length (browserPool (run s calls)) <= maxBrowsers s.
Proof.
  revert s. induction calls as [| c calls IH]; intros s Hle; [exact Hle |].
  destruct (step_idle_bounded s c Hle) as [Hle' Hcap].
  rewrite run_cons, <- Hcap. apply IH. exact Hle'.
Qed.

(** With the pool empty, [getPage] creates a page whatever the number of
    pages handed out. *)
Lemma getPage_empty_pool s :
  browserPool s = [] -> 0 < maxBrowsers s ->
  let s' := step s (Acquire true) in
  browserPool s' = [] /\ maxBrowsers s' = maxBrowsers s /\
  length (checkedOut s') = S (length (checkedOut s)).
Proof.
  intros Hpool Hcap. simpl. unfold getPage. rewrite Hpool, pop_nil. simpl.
  destruct (maxBrowsers s) as [| cap] eqn:Hmax; [lia |]. simpl.
  unfold getBrowser. destruct (connected s); simpl; rewrite ?Hmax; auto.
Qed.

Lemma acquire_n_times n s :
  browserPool s = [] -> 0 < maxBrowsers s ->
  outstanding (run s (repeat (Acquire true) n)) = n + length (checkedOut s).
Proof.
  revert s. induction n as [| n IH]; intros s Hpool Hcap.
  - simpl. unfold outstanding. rewrite Hpool. simpl. lia.
  - destruct (getPage_empty_pool s Hpool Hcap) as (Hpool' & Hcap' & Hout).
    change (repeat (Acquire true) (S n)) with (Acquire true :: repeat (Acquire true) n).
    rewrite run_cons, IH; [| exact Hpool' | rewrite Hcap'; exact Hcap].
    rewrite Hout. lia.
Qed.

(** C1 (the code does not keep it): the number of live pages, handed out
    plus idle in the pool, is meant never to exceed the cap
    [maxBrowsers].  [getPage] compares the cap with the length of the
    pool only, which is [0] whenever it gets there, so for every cap of
    at least one page, [n] calls of [getPage] with no [releasePage] in
    between leave [n] live pages, however large [n] is. *)
Theorem getPage_ignores_pages_handed_out (cap n : nat) :
  0 < cap ->
  outstanding (run (init cap) (repeat (Acquire true) n)) = n.
Proof.
  intros Hcap. rewrite acquire_n_times; [simpl; lia | reflexivity | exact Hcap].
Qed.

Lemma getPage_ignores_pages_handed_out_witness :
  outstanding (run (init 1) [Acquire true; Acquire true]) = 2.
Proof. apply (getPage_ignores_pages_handed_out 1 2). lia. Defined.

(** *** Further properties of the pool *)

Lemma pop_snoc l p : pop (l ++ [p]) = (Some p, l).
Proof. unfold pop. rewrite last_snoc, removelast_last. reflexivity. Qed.

Lemma pop_some l p rest : pop l = (Some p, rest) -> l = rest ++ [p].
Proof.
  unfold pop. destruct (last l) as [q |] eqn:Hlast; [| discriminate].
  intros [= <- <-]. destruct l as [| a l _] using rev_ind; [discriminate |].
  rewrite last_snoc in Hlast. injection Hlast as ->.
  rewrite removelast_last. reflexivity.
Qed.

Lemma pop_none l rest : pop l = (None, rest) -> l = [] /\ rest = [].
Proof.
  unfold pop. destruct (last l) as [q |] eqn:Hlast; [discriminate |].
  apply last_None in Hlast. intros [= <-]. auto.
Qed.

Lemma step_maxBrowsers s c : maxBrowsers (step s c) = maxBrowsers s.
Proof.
  destruct c as [launch_ok | page reset_ok]; simpl.
  - unfold getPage. destruct (pop (browserPool s)) as [[p |] rest]; [reflexivity |].
    destruct (length rest <? maxBrowsers s); [| reflexivity].
    unfold getBrowser. destruct (connected s), launch_ok; reflexivity.
  - unfold releasePage. destruct (reset_ok && _); reflexivity.
Qed.

(** X1: whatever calls of [getPage] and [releasePage] are made, in
    whatever order, the pool of idle pages never holds more than
    [maxBrowsers] pages: [releasePage] closes a page it has no room
    for. *)
Theorem browserPool_within_maxBrowsers (cap : nat) (calls : list call) :
  length (browserPool (run (init cap) calls)) <= cap.
Proof. apply (run_idle_bounded calls (init cap)). simpl. lia. Qed.

Lemma getPage_no_retry launch_ok s :
  0 < maxBrowsers s -> (getPage launch_ok s).2 <> Retry.
Proof.
  intros Hcap. unfold getPage.
  destruct (pop (browserPool s)) as [[p |] rest] eqn:Hpop; [discriminate |].
  apply pop_none in Hpop as [_ ->]. simpl.
  destruct (maxBrowsers s) as [| cap]; [lia |]. simpl.
  destruct (getBrowser launch_ok s); discriminate.
Qed.

Lemma replies_no_retry calls : forall s,
  0 < maxBrowsers s -> Retry ∉ replies s calls.
Proof.
  induction calls as [| c calls IH]; intros s Hcap; simpl; [apply not_elem_of_nil |].
  apply not_elem_of_cons. split.
  - destruct c as [launch_ok | page reset_ok].
    + intros Heq. symmetry in Heq. revert Heq. apply getPage_no_retry. exact Hcap.
    + unfold releasePage. destruct (reset_ok && _); discriminate.
  - apply IH. rewrite step_maxBrowsers. exact Hcap.
Qed.

Lemma replies_without_cap calls : forall s p,
  maxBrowsers s = 0 -> browserPool s = [] -> GotPage p ∉ replies s calls.
Proof.
  induction calls as [| c calls IH]; intros s p Hcap Hpool; simpl;
    [apply not_elem_of_nil |].
  assert (Hstep : browserPool (step s c) = []).
  { pose proof (step_idle_bounded s c) as Hb. rewrite Hpool, Hcap in Hb.
    destruct (Hb ltac:(simpl; lia)) as [Hle Hmax]. rewrite Hmax in Hle.
    destruct (browserPool (step s c)); [reflexivity | simpl in Hle; lia]. }
  apply not_elem_of_cons. split.
  - destruct c as [launch_ok | page reset_ok].
    + unfold getPage. rewrite Hpool, pop_nil, Hcap. discriminate.
    + unfold releasePage. destruct (reset_ok && _); discriminate.
  - apply IH; [rewrite step_maxBrowsers; exact Hcap | exact Hstep].
Qed.

(** X2: with [maxBrowsers] of at least one, [getPage] never takes its
    "wait and retry" branch, whatever calls were made before; with
    [maxBrowsers] of zero it never hands out a page, it waits and
    retries for ever. *)
Theorem getPage_waits_only_without_cap (cap : nat) (calls : list call) :
  (0 < cap -> Retry ∉ replies (init cap) calls) /\
  (cap = 0 -> forall p, GotPage p ∉ replies (init cap) calls).
Proof.
  split.
  - intros Hcap. apply replies_no_retry. exact Hcap.
  - intros -> p. apply replies_without_cap; reflexivity.
Qed.

Lemma remove_page_absent p l : p ∉ l -> remove_page p l = l.
Proof.
  intros Hp. unfold remove_page. induction l as [| q l IH]; [reflexivity |].
  apply not_elem_of_cons in Hp as [Hne Hl].
  rewrite filter_cons_True by congruence. f_equal. apply IH. exact Hl.
Qed.

Lemma remove_page_elem q p l : q ∈ remove_page p l <-> q ≠ p /\ q ∈ l.
Proof. unfold remove_page. rewrite list_elem_of_filter. reflexivity. Qed.

Lemma consistent_init cap : consistent (init cap).
Proof. split; simpl; constructor. Qed.

(** A call that gives back a page its caller holds, and any call of
    [getPage], keep every page in one place. *)
Lemma step_consistent s c :
  consistent s ->
  match c with Release page _ => page ∈ checkedOut s | Acquire _ => True end ->
  consistent (step s c).
Proof.
  intros [Hnodup Hold] Hheld.
  destruct c as [launch_ok | page reset_ok]; simpl.
  - unfold getPage. destruct (pop (browserPool s)) as [[p |] rest] eqn:Hpop.
    + apply pop_some in Hpop. rewrite Hpop in Hnodup, Hold. split; simpl.
      * apply NoDup_cons. rewrite app_assoc in Hnodup.
        apply NoDup_app in Hnodup as (Hleft & Hdisj & _). split; [| exact Hleft].
        intros Hin. apply (Hdisj p Hin). left.
      * rewrite app_assoc in Hold. apply Forall_app in Hold as [Hleft Hp].
        constructor; [| exact Hleft]. inversion Hp; assumption.
    + apply pop_none in Hpop as [Hpool ->]. simpl.
      destruct (0 <? maxBrowsers s); [| split; assumption].
      unfold getBrowser.
      assert (Hnew : consistent
                {| browserPool := []; maxBrowsers := maxBrowsers s; connected := true;
                   checkedOut := created s :: checkedOut s;
                   created := S (created s) |}).
      { rewrite Hpool, app_nil_r in Hnodup, Hold. split; simpl; rewrite app_nil_r.
        - apply NoDup_cons. split; [| exact Hnodup].
          intros Hin. rewrite Forall_forall in Hold. apply Hold in Hin. lia.
        - constructor; [lia |]. eapply Forall_impl; [exact Hold |].
          intros x Hx. simpl in Hx. lia. }
      destruct (connected s) eqn:Hconn; simpl; [exact Hnew |].
      destruct launch_ok; simpl; [exact Hnew | split; assumption].
  - unfold releasePage.
    assert (Hout : NoDup (remove_page page (checkedOut s) ++ browserPool s) /\
                   Forall (fun p => p < created s)
                     (remove_page page (checkedOut s) ++ browserPool s)).
    { apply NoDup_app in Hnodup as (Hleft & Hdisj & Hright).
      apply Forall_app in Hold as [Hl Hr]. split.
      - apply NoDup_app. split; [apply NoDup_filter; exact Hleft |].
        split; [| exact Hright].
        intros q Hq. apply remove_page_elem in Hq as [_ Hq]. apply Hdisj. exact Hq.
      - apply Forall_app. split; [| exact Hr].
        apply Forall_forall. intros q Hq. apply remove_page_elem in Hq as [_ Hq].
        rewrite Forall_forall in Hl. apply Hl. exact Hq. }
    destruct (reset_ok && _); simpl; [| exact Hout].
    destruct Hout as [Hnd Hall]. apply NoDup_app in Hnodup as (Hleft & Hdisj & Hright).
    split; simpl.
    + rewrite app_assoc. apply NoDup_app. split; [exact Hnd |].
      split; [| apply NoDup_singleton].
      intros q Hq Hq'. apply list_elem_of_singleton in Hq'. subst q.
      apply elem_of_app in Hq as [Hq | Hq].
      * apply remove_page_elem in Hq as [Hne _]. congruence.
      * apply (Hdisj page Hheld). exact Hq.
    + rewrite app_assoc. apply Forall_app. split; [exact Hall |].
      constructor; [| constructor].
      apply Forall_app in Hold as [Hl _]. rewrite Forall_forall in Hl.
      apply Hl. exact Hheld.
Qed.

Lemma run_consistent calls : forall s,
  consistent s -> disciplined s calls = true -> consistent (run s calls).
Proof.
  induction calls as [| c calls IH]; intros s Hs Hd; [exact Hs |].
  simpl in Hd. apply andb_true_iff in Hd as [Hc Hrest].
  rewrite run_cons. apply IH; [| exact Hrest].
  apply step_consistent; [exact Hs |].
  destruct c as [launch_ok | page reset_ok]; [exact I |].
  apply bool_decide_eq_true in Hc. exact Hc.
Qed.

(** X3: as long as callers give back only pages they hold, no page is
    ever in two places: the pages handed out and the pages idle in the
    pool are all different, so [getPage] never hands a page to two
    callers at once. *)
Theorem pages_never_shared (cap : nat) (calls : list call) :
  disciplined (init cap) calls = true ->
  NoDup (checkedOut (run (init cap) calls) ++ browserPool (run (init cap) calls)).
Proof.
  intros Hd. apply (run_consistent calls (init cap) (consistent_init cap) Hd).
Qed.

Lemma pages_never_shared_witness :
  NoDup (checkedOut (run (init 2) [Acquire true; Acquire true; Release 0 true;
                                   Acquire true; Release 1 false])
         ++ browserPool (run (init 2) [Acquire true; Acquire true; Release 0 true;
                                       Acquire true; Release 1 false])).
Proof. apply (pages_never_shared 2). reflexivity. Defined.

(** X4: a page given back while the pool has room is the next page
    handed out: [releasePage] pushes it and the following [getPage] pops
    it, creating no page and leaving the pool as it was. *)
Theorem released_page_is_reused (s : state) (page : Page) (launch_ok : bool) :
  length (browserPool s) < maxBrowsers s ->
  (releasePage page true s).2 = Pooled /\
  (getPage launch_ok (releasePage page true s).1).2 = GotPage page /\
  browserPool (getPage launch_ok (releasePage page true s).1).1 = browserPool s /\
  created (getPage launch_ok (releasePage page true s).1).1 = created s.
Proof.
  intros Hroom. apply Nat.ltb_lt in Hroom.
  unfold releasePage. rewrite Hroom. simpl.
  unfold getPage. simpl. rewrite pop_snoc. simpl. auto.
Qed.

Lemma released_page_is_reused_witness :
  (releasePage 0 true (run (init 1) [Acquire true])).2 = Pooled /\
  (getPage false (releasePage 0 true (run (init 1) [Acquire true])).1).2 = GotPage 0 /\
  browserPool (getPage false (releasePage 0 true (run (init 1) [Acquire true])).1).1
    = browserPool (run (init 1) [Acquire true]) /\
  created (getPage false (releasePage 0 true (run (init 1) [Acquire true])).1).1
    = created (run (init 1) [Acquire true]).
Proof. apply (released_page_is_reused (run (init 1) [Acquire true]) 0 false). simpl. lia. Defined.

Lemma run_maxBrowsers calls : forall s, maxBrowsers (run s calls) = maxBrowsers s.
Proof.
  induction calls as [| c calls IH]; intros s; [reflexivity |].
  rewrite run_cons, IH. apply step_maxBrowsers.
Qed.

(** X5: after [cleanup] the pool is empty and the browser is gone, so
    the next [getPage] launches a browser again: if the launch fails it
    throws and hands out nothing, otherwise it hands out a page that did
    not exist before, never one of the closed browser. *)
Theorem getPage_after_cleanup (cap : nat) (calls : list call) :
  0 < cap -> disciplined (init cap) calls = true ->
  browserPool (cleanup (run (init cap) calls)) = [] /\
  getPage false (cleanup (run (init cap) calls))
    = (cleanup (run (init cap) calls), LaunchFailed) /\
  exists page,
    (getPage true (cleanup (run (init cap) calls))).2 = GotPage page /\
    (page ∉ checkedOut (run (init cap) calls) ++ browserPool (run (init cap) calls)) /\
    connected (getPage true (cleanup (run (init cap) calls))).1 = true.
Proof.
  intros Hcap Hd.
  destruct (run_consistent calls (init cap) (consistent_init cap) Hd) as [_ Hold].
  pose proof (run_maxBrowsers calls (init cap)) as Hmax. simpl in Hmax.
  remember (run (init cap) calls) as s eqn:Hs. clear Hs.
  split; [reflexivity |].
  unfold getPage, cleanup. simpl. rewrite Hmax.
  destruct cap as [| cap]; [lia |]. simpl.
  split; [reflexivity |].
  exists (created s). split; [reflexivity |]. split; [| reflexivity].
  intros Hin. rewrite Forall_forall in Hold. apply Hold in Hin. lia.
Qed.

Lemma getPage_after_cleanup_witness :
  browserPool (cleanup (run (init 1) [Acquire true; Release 0 true])) = [] /\
  getPage false (cleanup (run (init 1) [Acquire true; Release 0 true]))
    = (cleanup (run (init 1) [Acquire true; Release 0 true]), LaunchFailed) /\
  exists page,
    (getPage true (cleanup (run (init 1) [Acquire true; Release 0 true]))).2
      = GotPage page /\
    (page ∉ checkedOut (run (init 1) [Acquire true; Release 0 true])
            ++ browserPool (run (init 1) [Acquire true; Release 0 true])) /\
    connected (getPage true (cleanup (run (init 1) [Acquire true; Release 0 true]))).1
      = true.
Proof.
  apply (getPage_after_cleanup 1 [Acquire true; Release 0 true]); [lia | reflexivity].
Defined.

End PoolFacts.

(** ** Waiting for the challenge *)

Section CloudflareFacts.
Import Js Cloudflare.

Lemma title_log_events (title lastTitle : jsstring) :
  (if decide (title = lastTitle) then [] else [InfoPageTitle title]) =
  title_events (if decide (title = lastTitle) then None else Some title).
Proof. case_decide; reflexivity. Qed.

Lemma round_ms_long p : (500 <= round_ms p)%Z.
Proof. unfold round_ms. destruct (eval_result p); lia. Qed.

Lemma elapsed_nonneg page n : forall i, (0 <= elapsed page i n)%Z.
Proof.
  induction n as [| n IH]; intros i; simpl; [lia |].
  pose proof (round_ms_long (page i)). specialize (IH (S i)). lia.
Qed.

Lemma polls_app evs1 evs2 : polls (evs1 ++ evs2) = polls evs1 + polls evs2.
Proof.
  induction evs1 as [| e evs1 IH]; [reflexivity |].
  destruct e; simpl; rewrite IH; reflexivity.
Qed.

Lemma evaluations_app evs1 evs2 :
  evaluations (evs1 ++ evs2) = evaluations evs1 + evaluations evs2.
Proof.
  induction evs1 as [| e evs1 IH]; [reflexivity |].
  destruct e; simpl; rewrite IH; reflexivity.
Qed.

Lemma titles_app evs1 evs2 : titles (evs1 ++ evs2) = titles evs1 ++ titles evs2.
Proof.
  induction evs1 as [| e evs1 IH]; [reflexivity |].
  destruct e; simpl; rewrite IH; reflexivity.
Qed.

(** *** The loop runs as the protocol says, and ends *)

Lemma loop_protocol fuel page : forall i startTime maxWaitTime now lastTitle r,
  loop fuel page i startTime maxWaitTime now lastTitle = Some r ->
  protocol page startTime maxWaitTime i now (events r) (settled r) (finished_at r).
Proof.
  induction fuel as [| fuel IH]; intros i startTime maxWaitTime now lastTitle r; simpl.
  - destruct (now - startTime <? maxWaitTime)%Z eqn:Hlt; [discriminate |].
    apply Z.ltb_ge in Hlt. intros [= <-]. constructor. exact Hlt.
  - destruct (now - startTime <? maxWaitTime)%Z eqn:Hlt;
      [| apply Z.ltb_ge in Hlt; intros [= <-]; constructor; exact Hlt].
    apply Z.ltb_lt in Hlt.
    assert (Hagain : forall prefix now' lastTitle' r,
              now' = (now + round_ms (page i))%Z ->
              (forall rest o finished,
                 protocol page startTime maxWaitTime (S i) (now + round_ms (page i))
                   rest o finished ->
                 protocol page startTime maxWaitTime i now (prefix ++ rest) o finished) ->
              emit prefix <$> loop fuel page (S i) startTime maxWaitTime now' lastTitle'
              = Some r ->
              protocol page startTime maxWaitTime i now
                (events r) (settled r) (finished_at r)).
    { intros prefix now' lastTitle' r0 Hnow' Hstep.
      destruct (loop fuel page (S i) _ _ _ _) as [r' |] eqn:Hrec; [| discriminate].
      intros [= <-]. simpl. apply Hstep. rewrite <- Hnow'. eapply IH. exact Hrec. }
    destruct (eval_result (page i)) as [title hasChallenge | error] eqn:Heval.
    + rewrite title_log_events. destruct hasChallenge; simpl.
      * apply Hagain; [unfold round_ms; rewrite Heval; lia |].
        intros rest o finished Hrest. simpl. rewrite <- app_assoc. simpl.
        eapply run_again; [exact Hlt | exact Heval | exact Hrest].
      * intros [= <-]. simpl. eapply run_passed; eauto.
    + destruct (context_destroyed error) as [[|] |] eqn:Hd.
      * assert (Hnav : forall r,
                  recheck_result (page i) <> StillChallenging false ->
                  emit [Poll; InfoNavigated; Sleep 1000; Recheck; Sleep 500] <$>
                    loop fuel page (S i) startTime maxWaitTime
                      (now + Z.of_N (eval_ms (page i))
                       + (1000 + Z.of_N (navigation_late_ms (page i)))
                       + Z.of_N (recheck_ms (page i))
                       + (500 + Z.of_N (sleep_late_ms (page i)))) lastTitle = Some r ->
                  protocol page startTime maxWaitTime i now
                    (events r) (settled r) (finished_at r)).
        { intros r0 Hre. apply Hagain; [unfold round_ms; rewrite Heval; lia |].
          intros rest o finished Hrest. simpl.
          eapply run_again_after_navigation; eauto. }
        destruct (recheck_result (page i)) as [[|] |] eqn:Hre;
          try (apply Hnav; congruence).
        intros [= <-]. simpl. eapply run_passed_after_navigation; eauto.
      * intros [= <-]. simpl. apply run_rejected; [exact Hlt | exact Heval | congruence].
      * intros [= <-]. simpl. apply run_rejected; [exact Hlt | exact Heval | congruence].
Qed.

(** The loop ends within the fuel [enough_fuel] gives it. *)
Lemma loop_total fuel page : forall i startTime maxWaitTime now lastTitle,
  (maxWaitTime - (now - startTime) <= 500 * Z.of_nat fuel)%Z ->
  is_Some (loop fuel page i startTime maxWaitTime now lastTitle).
Proof.
  induction fuel as [| fuel IH]; intros i startTime maxWaitTime now lastTitle Hfuel; simpl.
  - destruct (now - startTime <? maxWaitTime)%Z eqn:Hlt; [| eauto].
    apply Z.ltb_lt in Hlt. lia.
  - destruct (now - startTime <? maxWaitTime)%Z eqn:Hlt; [| eauto].
    destruct (eval_result (page i)) as [title hasChallenge | error].
    + destruct hasChallenge; simpl; [| eauto].
      apply fmap_is_Some, IH. lia.
    + destruct (context_destroyed error) as [[|] |]; [| eauto | eauto].
      assert (Hagain :
                is_Some (emit [Poll; InfoNavigated; Sleep 1000; Recheck; Sleep 500] <$>
                    loop fuel page (S i) startTime maxWaitTime
                      (now + Z.of_N (eval_ms (page i))
                       + (1000 + Z.of_N (navigation_late_ms (page i)))
                       + Z.of_N (recheck_ms (page i))
                       + (500 + Z.of_N (sleep_late_ms (page i)))) lastTitle)).
      { apply fmap_is_Some, IH. lia. }
      destruct (recheck_result (page i)) as [[|] |]; eauto.
Qed.

Lemma enough_fuel_enough maxWaitTime :
  (maxWaitTime <= 500 * Z.of_nat (enough_fuel maxWaitTime))%Z.
Proof.
  unfold enough_fuel. destruct (Z.le_gt_cases 0 maxWaitTime) as [Hpos | Hneg]; [| lia].
  rewrite Nat2Z.inj_succ, Z2Nat.id by (apply Z.div_pos; lia).
  pose proof (Z.mod_pos_bound maxWaitTime 500 ltac:(lia)).
  pose proof (Z.div_mod maxWaitTime 500 ltac:(lia)). lia.
Qed.

(** [waitForCloudflare] returns, and its run is a run of the
    protocol. *)
Lemma waitForCloudflare_runs page startTime maxWaitTime :
  exists r,
    waitForCloudflare page startTime maxWaitTime = Some r /\
    protocol page startTime maxWaitTime 0 startTime
      (events r) (settled r) (finished_at r).
Proof.
  unfold waitForCloudflare.
  destruct (loop_total (enough_fuel maxWaitTime) page 0 startTime maxWaitTime
              startTime []) as [r Hr].
  { pose proof (enough_fuel_enough maxWaitTime). lia. }
  exists r. split; [exact Hr |]. eapply loop_protocol. exact Hr.
Qed.

(** *** What follows from the protocol *)

Lemma protocol_nonempty page startTime maxWaitTime i now evs o finished :
  protocol page startTime maxWaitTime i now evs o finished -> evs <> [].
Proof. destruct 1; discriminate. Qed.

Lemma last_after (prefix rest : list event) :
  rest <> [] -> last (prefix ++ rest) = last rest.
Proof.
  intros Hrest. destruct rest as [| e rest]; [congruence |]. apply last_app_cons.
Qed.

(** A run that rejects ends with the evaluation that threw. *)
Lemma protocol_rejected_last page startTime maxWaitTime i now evs o finished :
  protocol page startTime maxWaitTime i now evs o finished ->
  forall error, o = Rejected error -> last evs = Some Poll.
Proof.
  induction 1 as [| | | | i now title shown rest o finished Hlt Heval Hrest IH
                  | i now e rest o finished Hlt Heval Hd Hre Hrest IH];
    intros err Ho; try discriminate; try reflexivity.
  - specialize (IH err Ho). apply protocol_nonempty in Hrest.
    rewrite <- IH.
    replace (Poll :: title_events shown ++ Sleep 500 :: rest)
      with ((Poll :: title_events shown ++ [Sleep 500]) ++ rest)
      by (simpl; rewrite <- app_assoc; reflexivity).
    apply last_after. exact Hrest.
  - specialize (IH err Ho). apply protocol_nonempty in Hrest.
    rewrite <- IH.
    apply (last_after [Poll; InfoNavigated; Sleep 1000; Recheck; Sleep 500]). exact Hrest.
Qed.

(** Every poll but the first comes right after a sleep of 500 ms. *)
Lemma protocol_paced page startTime maxWaitTime i now evs o finished :
  protocol page startTime maxWaitTime i now evs o finished ->
  forall previous, previous = None \/ previous = Some (Sleep 500) ->
  paced previous evs = true.
Proof.
  induction 1 as [| i now title shown | | | i now title shown rest o finished Hlt Heval Hrest IH
                  | i now e rest o finished Hlt Heval Hd Hre Hrest IH];
    intros previous [-> | ->]; try reflexivity;
    try (destruct shown; simpl; rewrite IH; auto);
    try (simpl; rewrite IH; auto);
    destruct shown; reflexivity.
Qed.

(** A run that ends by the time-out resolves, at or after the
    deadline. *)
Lemma protocol_timeout_late page startTime maxWaitTime i now evs o finished :
  protocol page startTime maxWaitTime i now evs o finished ->
  last evs = Some WarnTimeout ->
  o = Resolved /\ (maxWaitTime <= finished - startTime)%Z.
Proof.
  induction 1 as [| i now title shown | | | i now title shown rest o finished Hlt Heval Hrest IH
                  | i now e rest o finished Hlt Heval Hd Hre Hrest IH];
    intros Hlast.
  - split; [reflexivity | lia].
  - exfalso. rewrite app_comm_cons, last_snoc in Hlast. discriminate.
  - discriminate.
  - discriminate.
  - apply IH. rewrite <- Hlast. symmetry.
    replace (Poll :: title_events shown ++ Sleep 500 :: rest)
      with ((Poll :: title_events shown ++ [Sleep 500]) ++ rest)
      by (simpl; rewrite <- app_assoc; reflexivity).
    apply last_after. eapply protocol_nonempty. exact Hrest.
  - apply IH. rewrite <- Hlast. symmetry.
    apply (last_after [Poll; InfoNavigated; Sleep 1000; Recheck; Sleep 500]).
    eapply protocol_nonempty. exact Hrest.
Qed.

Lemma polls_title_events shown : polls (title_events shown) = 0.
Proof. destruct shown; reflexivity. Qed.

Lemma polls_round shown rest :
  polls (Poll :: title_events shown ++ Sleep 500 :: rest) = S (polls rest).
Proof. simpl. rewrite polls_app, polls_title_events. reflexivity. Qed.

(** While the challenge stays, the loop goes round until the deadline
    and leaves by the time-out: it resolves, having opened an iteration
    at every time before the deadline that the iterations before it
    lead to, and no other. *)
Lemma protocol_challenged page startTime maxWaitTime i now evs o finished :
  protocol page startTime maxWaitTime i now evs o finished ->
  (forall j, challenged (page j)) ->
  o = Resolved /\ last evs = Some WarnTimeout /\
  finished = (now + elapsed page i (polls evs))%Z /\
  (maxWaitTime <= finished - startTime)%Z /\
  forall j, j < polls evs -> (now + elapsed page i j - startTime < maxWaitTime)%Z.
Proof.
  intros Hrun Hall.
  induction Hrun as [i now Hlate | i now title shown Hlt Heval
                     | i now e Hlt Heval Hd Hre | i now e Hlt Heval Hd
                     | i now title shown rest o finished Hlt Heval Hrest IH
                     | i now e rest o finished Hlt Heval Hd Hre Hrest IH].
  - simpl. repeat split; try lia; intros j Hj; lia.
  - exfalso. pose proof (Hall i) as Hi. unfold challenged in Hi.
    rewrite Heval in Hi. discriminate.
  - exfalso. pose proof (Hall i) as Hi. unfold challenged in Hi.
    rewrite Heval in Hi. destruct Hi as [_ Hi]. contradiction.
  - exfalso. pose proof (Hall i) as Hi. unfold challenged in Hi.
    rewrite Heval in Hi. destruct Hi as [Hi _]. contradiction.
  - destruct IH as (Ho & Hlast & Hfin & Hlate & Hbefore).
    rewrite polls_round. split; [exact Ho |]. split.
    { rewrite <- Hlast.
      replace (Poll :: title_events shown ++ Sleep 500 :: rest)
        with ((Poll :: title_events shown ++ [Sleep 500]) ++ rest)
        by (simpl; rewrite <- app_assoc; reflexivity).
      apply last_after. eapply protocol_nonempty. exact Hrest. }
    split; [rewrite Hfin; simpl; lia |]. split; [exact Hlate |].
    intros [| j] Hj; simpl; [lia |]. specialize (Hbefore j ltac:(lia)). lia.
  - destruct IH as (Ho & Hlast & Hfin & Hlate & Hbefore).
    change (polls (Poll :: InfoNavigated :: Sleep 1000 :: Recheck :: Sleep 500 :: rest))
      with (S (polls rest)).
    split; [exact Ho |]. split.
    { rewrite <- Hlast.
      apply (last_after [Poll; InfoNavigated; Sleep 1000; Recheck; Sleep 500]).
      eapply protocol_nonempty. exact Hrest. }
    split; [rewrite Hfin; simpl; lia |]. split; [exact Hlate |].
    intros [| j] Hj; simpl; [lia |]. specialize (Hbefore j ltac:(lia)). lia.
Qed.

(** The iterations in which the challenge stays, as long as they begin
    before the deadline, are all run: [k] of them lead to iteration
    [i + k], entered [elapsed page i k] ms later. *)
Lemma protocol_rounds page startTime maxWaitTime : forall k i now evs o finished,
  protocol page startTime maxWaitTime i now evs o finished ->
  (forall j, j < k -> challenged (page (i + j))) ->
  (now + elapsed page i k - startTime < maxWaitTime)%Z ->
  exists prefix rest,
    evs = prefix ++ rest /\ polls prefix = k /\ ~ In WarnTimeout prefix /\
    protocol page startTime maxWaitTime (i + k) (now + elapsed page i k) rest o finished.
Proof.
  induction k as [| k IH]; intros i now evs o finished Hrun Hall Hbegun.
  - exists [], evs. simpl. rewrite Nat.add_0_r, Z.add_0_r. auto.
  - pose proof (Hall 0 ltac:(lia)) as Hi. rewrite Nat.add_0_r in Hi.
    unfold challenged in Hi.
    pose proof (elapsed_nonneg page k (S i)) as Hk.
    pose proof (round_ms_long (page i)) as Hround.
    simpl in Hbegun.
    assert (Hnext : forall rest,
              protocol page startTime maxWaitTime (S i) (now + round_ms (page i))
                rest o finished ->
              exists prefix rest',
                rest = prefix ++ rest' /\ polls prefix = k /\ ~ In WarnTimeout prefix /\
                protocol page startTime maxWaitTime (i + S k)
                  (now + (round_ms (page i) + elapsed page (S i) k)) rest' o finished).
    { intros rest Hrest.
      destruct (IH (S i) _ rest o finished Hrest) as (prefix & rest' & -> & Hp & Hno & Hrun').
      - intros j Hj. replace (S i + j) with (i + S j) by lia. apply Hall. lia.
      - lia.
      - exists prefix, rest'. repeat split; try assumption.
        replace (i + S k) with (S i + k) by lia.
        rewrite Z.add_assoc. exact Hrun'. }
    inversion Hrun as [i0 now0 Hlate | i0 now0 title shown Hlt Heval
                       | i0 now0 e Hlt Heval Hd Hre | i0 now0 e Hlt Heval Hd
                       | i0 now0 title shown rest o0 finished0 Hlt Heval Hrest
                       | i0 now0 e rest o0 finished0 Hlt Heval Hd Hre Hrest]; subst.
    + lia.
    + rewrite Heval in Hi. discriminate.
    + rewrite Heval in Hi. destruct Hi as [_ Hi]. contradiction.
    + rewrite Heval in Hi. destruct Hi as [Hi _]. contradiction.
    + destruct (Hnext rest Hrest) as (prefix & rest' & -> & Hp & Hno & Hrun').
      exists (Poll :: title_events shown ++ Sleep 500 :: prefix), rest'.
      split; [simpl; rewrite <- app_assoc; reflexivity |].
      split; [rewrite polls_round, Hp; reflexivity |].
      split; [| exact Hrun'].
      intros [Hin | Hin]; [discriminate |].
      apply in_app_or in Hin as [Hin | [Hin | Hin]];
        [destruct shown as [t |]; [destruct Hin as [Hin | []]; discriminate | destruct Hin]
        | discriminate | exact (Hno Hin)].
    + destruct (Hnext rest Hrest) as (prefix & rest' & -> & Hp & Hno & Hrun').
      exists (Poll :: InfoNavigated :: Sleep 1000 :: Recheck :: Sleep 500 :: prefix), rest'.
      split; [reflexivity |]. split; [simpl; rewrite Hp; reflexivity |].
      split; [| exact Hrun'].
      intros [Hin | [Hin | [Hin | [Hin | [Hin | Hin]]]]]; try discriminate.
      exact (Hno Hin).
Qed.

(** An iteration that begins before the deadline evaluates the signal,
    and ends the wait when the challenge is gone, at once or after a
    navigation, or when the evaluation fails otherwise. *)
Lemma protocol_iteration page startTime maxWaitTime i now evs o finished :
  protocol page startTime maxWaitTime i now evs o finished ->
  (now - startTime < maxWaitTime)%Z ->
  0 < polls evs /\
  (forall title, eval_result (page i) = PageInfo title false ->
     polls evs = 1 /\ ~ In WarnTimeout evs /\ o = Resolved /\
     last evs = Some InfoPassed /\
     finished = (now + Z.of_N (eval_ms (page i)))%Z) /\
  (forall error, eval_result (page i) = EvalThrows error ->
     context_destroyed error = Some true ->
     recheck_result (page i) = StillChallenging false ->
     evs = [Poll; InfoNavigated; Sleep 1000; Recheck; InfoPassedAfterNavigation] /\
     o = Resolved /\
     finished = (now + Z.of_N (eval_ms (page i))
                 + (1000 + Z.of_N (navigation_late_ms (page i)))
                 + Z.of_N (recheck_ms (page i)))%Z) /\
  (forall error, eval_result (page i) = EvalThrows error ->
     context_destroyed error <> Some true ->
     evs = [Poll] /\ o = Rejected (rethrown error) /\
     finished = (now + Z.of_N (eval_ms (page i)))%Z).
Proof.
  intros Hrun Hbegun.
  destruct Hrun as [i now Hlate | i now title shown Hlt Heval
                    | i now e Hlt Heval Hd Hre | i now e Hlt Heval Hd
                    | i now title shown rest o finished Hlt Heval Hrest
                    | i now e rest o finished Hlt Heval Hd Hre Hrest].
  - lia.
  - split; [simpl; lia |]. split; [| split; intros; congruence].
    intros title' _. split.
    { simpl. rewrite polls_app, polls_title_events. reflexivity. }
    split.
    { intros [Hin | Hin]; [discriminate |].
      apply in_app_or in Hin as [Hin | [Hin | []]]; [| discriminate].
      destruct shown; [destruct Hin as [Hin | []]; discriminate | destruct Hin]. }
    split; [reflexivity |]. split; [| reflexivity].
    rewrite app_comm_cons. apply last_snoc.
  - split; [simpl; lia |]. split; [intros; congruence |]. split.
    + intros error Heval' _ _. repeat split.
    + intros error Heval' Hd'. rewrite Heval in Heval'. injection Heval' as <-.
      contradiction.
  - split; [simpl; lia |]. split; [intros; congruence |]. split.
    + intros error Heval' Hd'. rewrite Heval in Heval'. injection Heval' as <-.
      contradiction.
    + intros error Heval' _. rewrite Heval in Heval'. injection Heval' as <-.
      repeat split.
  - split; [simpl; lia |]. split; [intros; congruence |].
    split; intros; congruence.
  - split; [simpl; lia |]. split; [intros; congruence |]. split.
    + intros error Heval' _ Hre'. contradiction.
    + intros error Heval' Hd'. rewrite Heval in Heval'. injection Heval' as <-.
      contradiction.
Qed.

(** C8: [waitForCloudflare] always returns, and runs as the protocol
    says, on its clock.  It evaluates the challenge signal when it is
    entered, if the deadline [maxWaitTime] allows, and then again after
    every sleep of 500 ms and after nothing else, as long as the
    challenge stays and the deadline has not passed when the sleep is
    over: every iteration [k] that begins before the deadline is run.
    If the signal is then gone, the wait ends there, resolved, at the
    time that evaluation is over, without a warning; if the evaluation
    fails because the execution context was destroyed, there is a pause
    of 1000 ms and one more evaluation, which ends the wait, resolved, if
    the challenge text is gone, and otherwise the polling goes on after
    the usual 500 ms (such an iteration counts among those in which the
    challenge stays); if the evaluation fails otherwise, the wait ends
    there, rejected.  When the challenge stays for ever, the wait
    resolves with the warning, at the first test of the deadline that
    finds it passed, so not before the deadline. *)
Theorem waitForCloudflare_polls_until_deadline
    (page : nat -> poll) (startTime maxWaitTime : Z) :
  exists r,
    waitForCloudflare page startTime maxWaitTime = Some r /\
    protocol page startTime maxWaitTime 0 startTime
      (events r) (settled r) (finished_at r) /\
    paced None (events r) = true /\
    (forall k,
       (forall j, j < k -> challenged (page j)) ->
       (elapsed page 0 k < maxWaitTime)%Z ->
       k < polls (events r) /\
       (forall title, eval_result (page k) = PageInfo title false ->
          polls (events r) = S k /\ ~ In WarnTimeout (events r) /\
          settled r = Resolved /\ last (events r) = Some InfoPassed /\
          finished_at r = (startTime + elapsed page 0 k + Z.of_N (eval_ms (page k)))%Z) /\
       (forall error, eval_result (page k) = EvalThrows error ->
          context_destroyed error = Some true ->
          recheck_result (page k) = StillChallenging false ->
          polls (events r) = S k /\ ~ In WarnTimeout (events r) /\
          settled r = Resolved /\
          (exists before,
             events r = before ++ [Poll; InfoNavigated; Sleep 1000; Recheck;
                                   InfoPassedAfterNavigation]) /\
          finished_at r = (startTime + elapsed page 0 k + Z.of_N (eval_ms (page k))
                           + (1000 + Z.of_N (navigation_late_ms (page k)))
                           + Z.of_N (recheck_ms (page k)))%Z) /\
       (forall error, eval_result (page k) = EvalThrows error ->
          context_destroyed error <> Some true ->
          polls (events r) = S k /\ settled r = Rejected (rethrown error) /\
          last (events r) = Some Poll /\
          finished_at r = (startTime + elapsed page 0 k + Z.of_N (eval_ms (page k)))%Z)) /\
    (last (events r) = Some WarnTimeout ->
     settled r = Resolved /\ (maxWaitTime <= finished_at r - startTime)%Z) /\
    (forall error, settled r = Rejected error -> last (events r) = Some Poll) /\
    ((forall i, challenged (page i)) ->
     settled r = Resolved /\ last (events r) = Some WarnTimeout /\
     finished_at r = (startTime + elapsed page 0 (polls (events r)))%Z /\
     (maxWaitTime <= finished_at r - startTime)%Z /\
     forall j, j < polls (events r) -> (elapsed page 0 j < maxWaitTime)%Z).
Proof.
  destruct (waitForCloudflare_runs page startTime maxWaitTime) as (r & Hr & Hp).
  exists r. split; [exact Hr |]. split; [exact Hp |].
  split; [eapply protocol_paced; eauto |]. split; [| split; [| split]].
  - intros k Hall Hbegun.
    destruct (protocol_rounds page startTime maxWaitTime k 0 startTime _ _ _ Hp)
      as (prefix & rest & Hevs & Hpolls & Hno & Hrest).
    { intros j Hj. apply Hall. exact Hj. }
    { lia. }
    simpl in Hrest.
    destruct (protocol_iteration _ _ _ _ _ _ _ _ Hrest ltac:(lia))
      as (Hpos & Hpassed & Hnavigated & Hrejected).
    rewrite Hevs, polls_app, Hpolls.
    split; [lia |]. split; [| split].
    + intros title Heval.
      destruct (Hpassed title Heval) as (Hone & Hno' & Ho & Hlast & Hfin).
      split; [lia |]. split.
      { intros [Hin | Hin]%in_app_or; [exact (Hno Hin) | exact (Hno' Hin)]. }
      split; [exact Ho |]. split; [| exact Hfin].
      rewrite <- Hlast. apply last_after. intros ->. discriminate.
    + intros error Heval Hd Hre.
      destruct (Hnavigated error Heval Hd Hre) as (-> & Ho & Hfin).
      split; [simpl; lia |]. split.
      { intros [Hin | Hin]%in_app_or; [exact (Hno Hin) |].
        destruct Hin as [Hin | [Hin | [Hin | [Hin | [Hin | []]]]]]; discriminate. }
      split; [exact Ho |]. split; [eauto | exact Hfin].
    + intros error Heval Hd.
      destruct (Hrejected error Heval Hd) as (-> & Ho & Hfin).
      split; [simpl; lia |]. split; [exact Ho |]. split; [| exact Hfin].
      apply last_snoc.
  - intros Hlast. eapply protocol_timeout_late; eassumption.
  - intros error Ho. eapply protocol_rejected_last; eassumption.
  - intros Hall.
    destruct (protocol_challenged _ _ _ _ _ _ _ _ Hp Hall)
      as (Ho & Hlast & Hfin & Hlate & Hbefore).
    split; [exact Ho |]. split; [exact Hlast |]. split; [exact Hfin |].
    split; [exact Hlate |].
    intros j Hj. specialize (Hbefore j Hj). lia.
Qed.

(** A run with a navigation: the first evaluation fails, the second
    still finds the challenge, and the deadline of 500 ms has passed
    when the sleep is over. *)
Example waitForCloudflare_navigation_sample :
  waitForCloudflare sample_navigation 0 500 =
  Some {| events := [Poll; InfoNavigated; Sleep 1000; Recheck; Sleep 500; WarnTimeout];
          settled := Resolved; finished_at := 1500 |}.
Proof. vm_compute. reflexivity. Qed.

(** A value thrown that is [null]: the handler fails on reading its
    message. *)
Example waitForCloudflare_null_sample :
  settled <$> waitForCloudflare
    (fun _ => {| eval_ms := 3; eval_result := EvalThrows Nullish;
                 navigation_late_ms := 0; recheck_ms := 0;
                 recheck_result := RecheckThrows; sleep_late_ms := 0 |}) 0 45000
  = Some (Rejected TypeError).
Proof. vm_compute. reflexivity. Qed.

(** While the challenge stays, the wait resolves by the time-out. *)
Lemma loop_challenged fuel page i startTime maxWaitTime now lastTitle r :
  (forall j, challenged (page j)) ->
  loop fuel page i startTime maxWaitTime now lastTitle = Some r ->
  settled r = Resolved /\ last (events r) = Some WarnTimeout.
Proof.
  intros Hall Hr. apply loop_protocol in Hr.
  destruct (protocol_challenged _ _ _ _ _ _ _ _ Hr Hall) as (Ho & Hlast & _).
  split; assumption.
Qed.

(** *** How often and how long the loop runs *)

Lemma protocol_evaluations page startTime maxWaitTime i now evs o finished :
  protocol page startTime maxWaitTime i now evs o finished ->
  (Z.of_nat (polls evs)
   <= Z.max 0 ((maxWaitTime - (now - startTime) + 499) / 500))%Z /\
  (Z.of_nat (evaluations evs)
   <= if (now - startTime <? maxWaitTime)%Z
      then 1 + (maxWaitTime - (now - startTime) + 499) / 500 else 0)%Z /\
  polls evs <= evaluations evs <= 2 * polls evs.
Proof.
  induction 1 as [i now Hlate | i now title shown Hlt Heval
                  | i now e Hlt Heval Hd Hre | i now e Hlt Heval Hd
                  | i now title shown rest o finished Hlt Heval Hrest IH
                  | i now e rest o finished Hlt Heval Hd Hre Hrest IH].
  - simpl. destruct (Z.ltb_spec (now - startTime) maxWaitTime); lia.
  - replace (polls (Poll :: title_events shown ++ [InfoPassed])) with 1
      by (simpl; rewrite polls_app, polls_title_events; reflexivity).
    replace (evaluations (Poll :: title_events shown ++ [InfoPassed])) with 1
      by (simpl; rewrite evaluations_app; destruct shown; reflexivity).
    destruct (Z.ltb_spec (now - startTime) maxWaitTime); [| lia].
    Z.div_mod_to_equations. lia.
  - simpl polls. simpl evaluations.
    destruct (Z.ltb_spec (now - startTime) maxWaitTime); [| lia].
    Z.div_mod_to_equations. lia.
  - simpl polls. simpl evaluations.
    destruct (Z.ltb_spec (now - startTime) maxWaitTime); [| lia].
    Z.div_mod_to_equations. lia.
  - rewrite polls_round.
    replace (evaluations (Poll :: title_events shown ++ Sleep 500 :: rest))
      with (S (evaluations rest))
      by (simpl; rewrite evaluations_app; destruct shown; reflexivity).
    pose proof (round_ms_long (page i)) as Hround.
    destruct IH as (IHp & IHe & IHb).
    destruct (Z.ltb_spec (now - startTime) maxWaitTime); [| lia].
    destruct (Z.ltb_spec (now + round_ms (page i) - startTime) maxWaitTime);
      Z.div_mod_to_equations; lia.
  - change (polls (Poll :: InfoNavigated :: Sleep 1000 :: Recheck :: Sleep 500 :: rest))
      with (S (polls rest)).
    change (evaluations (Poll :: InfoNavigated :: Sleep 1000 :: Recheck :: Sleep 500 :: rest))
      with (S (S (evaluations rest))).
    assert (Hround : (1500 <= round_ms (page i))%Z)
      by (unfold round_ms; rewrite Heval; lia).
    destruct IH as (IHp & IHe & IHb).
    destruct (Z.ltb_spec (now - startTime) maxWaitTime); [| lia].
    destruct (Z.ltb_spec (now + round_ms (page i) - startTime) maxWaitTime);
      Z.div_mod_to_equations; lia.
Qed.

(** X8: [waitForCloudflare] opens at most one iteration for every 500 ms
    of [maxWaitTime], rounded up, however long the page takes to answer,
    and none with a [maxWaitTime] that is not positive.  Every iteration
    evaluates the signal once, and once more after a navigation; in all,
    the signal is evaluated at most once more than there are periods of
    500 ms in [maxWaitTime]. *)
Theorem waitForCloudflare_polls_bounded
    (page : nat -> poll) (startTime maxWaitTime : Z) :
  exists r,
    waitForCloudflare page startTime maxWaitTime = Some r /\
    (Z.of_nat (polls (events r)) <= Z.max 0 ((maxWaitTime + 499) / 500))%Z /\
    (Z.of_nat (evaluations (events r))
     <= if (0 <? maxWaitTime)%Z then 1 + (maxWaitTime + 499) / 500 else 0)%Z /\
    polls (events r) <= evaluations (events r) <= 2 * polls (events r).
Proof.
  destruct (waitForCloudflare_runs page startTime maxWaitTime) as (r & Hr & Hp).
  exists r. split; [exact Hr |].
  apply protocol_evaluations in Hp.
  replace (startTime - startTime)%Z with 0%Z in Hp by lia.
  replace (maxWaitTime - 0 + 499)%Z with (maxWaitTime + 499)%Z in Hp by lia.
  exact Hp.
Qed.

Lemma protocol_finished page startTime maxWaitTime slow late i now evs o finished :
  (forall j, Z.of_N (eval_ms (page j)) <= slow /\ Z.of_N (recheck_ms (page j)) <= slow)%Z ->
  (forall j, Z.of_N (navigation_late_ms (page j)) <= late /\
             Z.of_N (sleep_late_ms (page j)) <= late)%Z ->
  protocol page startTime maxWaitTime i now evs o finished ->
  (finished <= Z.max now (startTime + maxWaitTime + 2 * slow + 2 * late + 1500))%Z.
Proof.
  intros Hslow Hlate.
  induction 1 as [i now Hover | i now title shown Hlt Heval
                  | i now e Hlt Heval Hd Hre | i now e Hlt Heval Hd
                  | i now title shown rest o finished Hlt Heval Hrest IH
                  | i now e rest o finished Hlt Heval Hd Hre Hrest IH];
    try (destruct (Hslow i) as [Heval_ms Hre_ms]; destruct (Hlate i) as [Hnav Hsleep]).
  - lia.
  - lia.
  - lia.
  - lia.
  - unfold round_ms in IH. rewrite Heval in IH. lia.
  - unfold round_ms in IH. rewrite Heval in IH. lia.
Qed.

(** X9: if every evaluation in the page takes at most [slow] ms and
    every timer fires at most [late] ms after its delay,
    [waitForCloudflare] is over at most [2 * slow + 2 * late + 1500] ms
    after its deadline: the deadline is only tested between iterations,
    and an iteration that began before it may still evaluate, wait for a
    navigation, evaluate again and sleep. *)
Theorem waitForCloudflare_finished_by
    (page : nat -> poll) (startTime maxWaitTime slow late : Z) (r : result) :
  (forall j, Z.of_N (eval_ms (page j)) <= slow /\ Z.of_N (recheck_ms (page j)) <= slow)%Z ->
  (forall j, Z.of_N (navigation_late_ms (page j)) <= late /\
             Z.of_N (sleep_late_ms (page j)) <= late)%Z ->
  waitForCloudflare page startTime maxWaitTime = Some r ->
  (finished_at r - startTime <= Z.max 0 (maxWaitTime + 2 * slow + 2 * late + 1500))%Z.
Proof.
  intros Hslow Hlate Hr. unfold waitForCloudflare in Hr.
  apply loop_protocol in Hr.
  apply (protocol_finished _ _ _ slow late _ _ _ _ _ Hslow Hlate) in Hr. lia.
Qed.

Lemma waitForCloudflare_finished_by_witness :
  (finished_at {| events := [Poll; InfoPageTitle (str "Just a moment..."); Sleep 500;
                             Poll; Sleep 500; WarnTimeout];
                  settled := Resolved; finished_at := 1028 |} - 0
   <= Z.max 0 (1000 + 2 * 10 + 2 * 4 + 1500))%Z.
Proof.
  apply (waitForCloudflare_finished_by sample_challenge 0 1000 10 4).
  - intros j. simpl. lia.
  - intros j. simpl. lia.
  - vm_compute. reflexivity.
Defined.

Lemma loop_titles fuel page : forall i startTime maxWaitTime now lastTitle r,
  loop fuel page i startTime maxWaitTime now lastTitle = Some r ->
  changing lastTitle (titles (events r)) = true.
Proof.
  induction fuel as [| fuel IH]; intros i startTime maxWaitTime now lastTitle r; simpl.
  - destruct (now - startTime <? maxWaitTime)%Z; [discriminate |].
    intros [= <-]. reflexivity.
  - destruct (now - startTime <? maxWaitTime)%Z; [| intros [= <-]; reflexivity].
    destruct (eval_result (page i)) as [title hasChallenge | error].
    + destruct hasChallenge; simpl.
      * destruct (loop fuel page (S i) _ _ _ _) as [r' |] eqn:Hrec; [| discriminate].
        intros [= <-]. simpl. apply IH in Hrec. rewrite titles_app.
        case_decide as Htitle; simpl; [exact Hrec |].
        rewrite Hrec, bool_decide_eq_false_2 by exact Htitle. reflexivity.
      * intros [= <-]. simpl. rewrite titles_app.
        case_decide as Htitle; simpl; [reflexivity |].
        rewrite bool_decide_eq_false_2 by exact Htitle. reflexivity.
    + destruct (context_destroyed error) as [[|] |];
        [| intros [= <-]; reflexivity | intros [= <-]; reflexivity].
      destruct (recheck_result (page i)) as [[|] |];
        try (destruct (loop fuel page (S i) _ _ _ _) as [r' |] eqn:Hrec;
             [| discriminate]; intros [= <-]; simpl; apply IH in Hrec; exact Hrec).
      intros [= <-]. reflexivity.
Qed.

(** X10: [waitForCloudflare] logs the title of the page only when it
    changes: no title it logs is the same as the one logged before it,
    and the first one logged is not the empty title. *)
Theorem waitForCloudflare_logs_title_changes
    (page : nat -> poll) (startTime maxWaitTime : Z) :
  exists r,
    waitForCloudflare page startTime maxWaitTime = Some r /\
    changing [] (titles (events r)) = true.
Proof.
  unfold waitForCloudflare.
  destruct (loop_total (enough_fuel maxWaitTime) page 0 startTime maxWaitTime
              startTime []) as [r Hr].
  { pose proof (enough_fuel_enough maxWaitTime). lia. }
  exists r. split; [exact Hr |]. apply loop_titles in Hr. exact Hr.
Qed.

End CloudflareFacts.

(** ** Numbers *)

Section NumberFacts.
Import JsNumber.
Open Scope Z_scope.

Lemma digits2_size p : digits2_pos p = Pos.size p.
Proof. induction p; simpl; congruence. Qed.

Lemma Zdigits2_log2 p : Zdigits2 (Zpos p) = Z.log2 (Zpos p) + 1.
Proof.
  simpl. rewrite digits2_size.
  destruct p; simpl; lia.
Qed.

Lemma shr_1_m r : 0 <= shr_m r -> shr_m (shr_1 r) = Z.div2 (shr_m r).
Proof.
  destruct r as [m rb sb]. simpl. intros Hm.
  destruct m as [| [p | p |] | p]; simpl; try reflexivity; lia.
Qed.

(** [shr] shifts the mantissa to the right. *)
Lemma iter_pos_shr p : forall r, 0 <= shr_m r ->
  shr_m (SpecFloat.iter_pos shr_1 p r) = Z.shiftr (shr_m r) (Zpos p).
Proof.
  induction p as [p IH | p IH |]; intros r Hr; simpl SpecFloat.iter_pos.
  - assert (H1 : 0 <= shr_m (shr_1 r))
      by (rewrite shr_1_m by auto; apply Z.div2_nonneg; auto).
    assert (H2 : 0 <= shr_m (SpecFloat.iter_pos shr_1 p (shr_1 r)))
      by (rewrite IH by auto; apply Z.shiftr_nonneg; auto).
    rewrite IH, IH, shr_1_m by auto.
    rewrite Z.div2_spec, !Z.shiftr_shiftr by lia. f_equal. lia.
  - assert (H2 : 0 <= shr_m (SpecFloat.iter_pos shr_1 p r))
      by (rewrite IH by auto; apply Z.shiftr_nonneg; auto).
    rewrite IH, IH by auto.
    rewrite !Z.shiftr_shiftr by lia. f_equal. lia.
  - rewrite shr_1_m, Z.div2_spec by auto. reflexivity.
Qed.

Lemma shr_record_of_loc_m m l : shr_m (shr_record_of_loc m l) = m.
Proof. destruct l as [| []]; reflexivity. Qed.

(** Shifted by less than its number of digits, a positive mantissa stays
    positive. *)
Lemma shr_positive m e n l :
  0 < m -> n < Zdigits2 m ->
  0 < shr_m (fst (shr (shr_record_of_loc m l) e n)).
Proof.
  intros Hm Hn. unfold shr.
  pose proof (shr_record_of_loc_m m l) as Hrec.
  destruct n as [| p | p]; simpl fst; rewrite ?Hrec; auto.
  rewrite iter_pos_shr by (rewrite Hrec; lia). rewrite Hrec.
  destruct m as [| q | q]; try lia.
  rewrite Zdigits2_log2 in Hn.
  destruct (Z.shiftr_eq_0_iff (Zpos q) (Zpos p)) as [H1 _].
  pose proof (Z.shiftr_nonneg (Zpos q) (Zpos p)) as [_ H2].
  specialize (H2 ltac:(lia)).
  destruct (Z.eq_dec (Z.shiftr (Zpos q) (Zpos p)) 0) as [H0 |]; [| lia].
  destruct (H1 H0) as [| [_ ?]]; lia.
Qed.

Lemma round_nearest_even_ge m l : m <= round_nearest_even m l.
Proof. destruct l as [| []]; simpl; try lia. destruct (Z.even m); lia. Qed.

Lemma shr_fexp_positive m e l :
  0 < m -> emin64 <= e ->
  0 < shr_m (fst (shr_fexp prec emax m e l)) /\
  emin64 <= snd (shr_fexp prec emax m e l).
Proof.
  intros Hm He. unfold shr_fexp. split.
  - apply shr_positive; [exact Hm |].
    unfold fexp. fold emin64.
    assert (0 < Zdigits2 m) by (destruct m; simpl; lia).
    change prec with 53. lia.
  - unfold shr.
    destruct (fexp prec emax (Zdigits2 m + e) - e) eqn:Hn; simpl; try lia.
    all: rewrite <- Hn; unfold fexp; fold emin64; lia.
Qed.

(** Rounding a positive mantissa gives a positive Number. *)
Lemma binary_round_aux_positive m e l :
  0 < m -> emin64 <= e ->
  positive_sf (binary_round_aux prec emax false m e l) = true.
Proof.
  intros Hm He. unfold binary_round_aux.
  destruct (shr_fexp_positive m e l Hm He) as [H1 H2].
  destruct (shr_fexp prec emax m e l) as [mrs' e']. simpl in H1, H2.
  pose proof (round_nearest_even_ge (shr_m mrs') (loc_of_shr_record mrs')) as Hge.
  destruct (shr_fexp_positive
              (round_nearest_even (shr_m mrs') (loc_of_shr_record mrs')) e'
              loc_Exact ltac:(lia) H2) as [H3 H4].
  destruct (shr_fexp prec emax _ e' loc_Exact) as [mrs'' e'']. simpl in H3, H4.
  destruct (shr_m mrs''); try lia.
  destruct (e'' <=? emax - prec); reflexivity.
Qed.

Lemma binary_normalize_positive m :
  0 < m -> positive_sf (binary_normalize prec emax m 0 false) = true.
Proof.
  intros Hm. destruct m as [| p | p]; try lia. unfold binary_normalize, binary_round.
  destruct (shl_align p 0 (fexp prec emax (Z.pos (digits2_pos p) + 0)))
    as [mz ez] eqn:Hsh.
  apply binary_round_aux_positive; [lia |].
  unfold shl_align in Hsh.
  destruct (fexp prec emax (Z.pos (digits2_pos p) + 0) - 0) eqn:Hd;
    injection Hsh as <- <-; unfold emin64; try (vm_compute; discriminate).
  unfold fexp. lia.
Qed.

(** The Number of a length that is not zero is above zero. *)
Lemma of_nat_positive n :
  (0 < n)%nat -> Z.of_nat n < 2 ^ 63 -> positive_sf (Prim2SF (of_nat n)) = true.
Proof.
  intros Hn Hlt. unfold of_nat. rewrite of_uint63_spec, Uint63.of_Z_spec.
  rewrite Z.mod_small by (change wB with (2 ^ 63); lia).
  apply binary_normalize_positive. lia.
Qed.

Lemma binary_round_aux_unsigned m e l :
  unsigned_sf (binary_round_aux prec emax false m e l) = true.
Proof.
  unfold binary_round_aux.
  destruct (shr_fexp prec emax m e l) as [mrs' e'].
  destruct (shr_fexp prec emax _ e' loc_Exact) as [mrs'' e''].
  destruct (shr_m mrs''); try reflexivity.
  destruct (e'' <=? emax - prec); reflexivity.
Qed.

Lemma add_unsigned x y :
  unsigned_sf (Prim2SF x) = true -> unsigned_sf (Prim2SF y) = true ->
  unsigned_sf (Prim2SF (x + y)%float) = true.
Proof.
  rewrite FloatAxioms.add_spec. unfold SF64add, SFadd.
  destruct (Prim2SF x) as [[|] | [|] | | [|] mx ex],
           (Prim2SF y) as [[|] | [|] | | [|] my ey];
    try discriminate; try reflexivity; intros _ _.
  unfold binary_normalize, cond_Zopp.
  destruct (Z.pos _ + Z.pos _) eqn:Hsum; try lia; try reflexivity.
  unfold binary_round. destruct (shl_align p _ _) as [mz ez].
  apply binary_round_aux_unsigned.
Qed.

(** A loop counter has no minus sign. *)
Lemma counter_unsigned i : unsigned_sf (Prim2SF (counter i)) = true.
Proof.
  induction i as [| i IH]; [reflexivity |].
  simpl. apply add_unsigned; [exact IH | reflexivity].
Qed.

(** Adding zero over a positive Number changes nothing. *)
Lemma add_zero_over x y :
  unsigned_sf (Prim2SF x) = true -> positive_sf (Prim2SF y) = true ->
  (x + 0 / y)%float = x.
Proof.
  intros Hx Hy. apply Prim2SF_inj.
  rewrite FloatAxioms.add_spec, FloatAxioms.div_spec.
  change (Prim2SF 0) with (S754_zero false).
  unfold SF64add, SF64div, SFadd, SFdiv.
  destruct (Prim2SF y) as [[|] | [|] | | [|] my ey]; try discriminate;
    destruct (Prim2SF x) as [[|] | [|] | | [|] mx ex]; try discriminate; reflexivity.
Qed.

Lemma loc_exact_inexact r : loc_of_shr_record r <> loc_Exact -> inexact r = true.
Proof.
  destruct r as [m [|] [|]]; intros Hl; try reflexivity.
  exfalso. apply Hl. reflexivity.
Qed.

Lemma inexact_of_loc m l : inexact (shr_record_of_loc m l) = true -> l <> loc_Exact.
Proof. destruct l as [| []]; intros Hi; try discriminate. Qed.

Lemma shr_1_inexact r :
  0 <= shr_m r -> inexact (shr_1 r) = Z.odd (shr_m r) || inexact r.
Proof.
  destruct r as [m rb sb]. unfold inexact. simpl. intros Hm.
  destruct m as [| [p | p |] | p]; simpl; try reflexivity; lia.
Qed.

(** Shifting out bits that are all zero keeps the record exact. *)
Lemma iter_pos_exact p : forall r P,
  0 <= shr_m r -> inexact r = false -> Zpos p <= P -> (2 ^ P | shr_m r) ->
  inexact (SpecFloat.iter_pos shr_1 p r) = false.
Proof.
  assert (Hstep : forall r P, 0 <= shr_m r -> inexact r = false -> 1 <= P ->
            (2 ^ P | shr_m r) ->
            inexact (shr_1 r) = false /\ 0 <= shr_m (shr_1 r) /\
            (2 ^ (P - 1) | shr_m (shr_1 r))).
  { intros r P Hr Hi HP [q Hq].
    rewrite shr_1_inexact, Hi, shr_1_m, Z.div2_div by auto.
    replace (2 ^ P) with (2 ^ (P - 1) * 2) in Hq
      by (rewrite Z.mul_comm, <- Z.pow_succ_r by lia; f_equal; lia).
    rewrite Hq, Z.mul_assoc, Z.odd_mul, Z.div_mul by lia. simpl.
    rewrite andb_false_r. split; [reflexivity |]. split.
    - rewrite Hq in Hr. nia.
    - exists q. reflexivity. }
  assert (Hdiv : forall m q P, 0 <= q <= P -> (2 ^ P | m) -> (2 ^ (P - q) | Z.shiftr m q)).
  { intros m q P Hq [k Hk]. exists k. rewrite Z.shiftr_div_pow2 by lia.
    replace (2 ^ P) with (2 ^ (P - q) * 2 ^ q) in Hk
      by (rewrite <- Z.pow_add_r by lia; f_equal; lia).
    rewrite Hk, Z.mul_assoc, Z.div_mul; [reflexivity |].
    apply Z.pow_nonzero; lia. }
  induction p as [p IH | p IH |]; intros r P Hr Hi HP Hd; simpl SpecFloat.iter_pos.
  - destruct (Hstep r P Hr Hi ltac:(lia) Hd) as (Hi1 & Hr1 & Hd1).
    assert (Hi2 := IH (shr_1 r) (P - 1) Hr1 Hi1 ltac:(lia) Hd1).
    apply (IH _ (P - 1 - Zpos p)); auto.
    + rewrite iter_pos_shr by auto. apply Z.shiftr_nonneg. auto.
    + lia.
    + rewrite iter_pos_shr by auto. apply Hdiv; [lia | exact Hd1].
  - assert (Hi2 := IH r P Hr Hi ltac:(lia) Hd).
    apply (IH _ (P - Zpos p)); auto.
    + rewrite iter_pos_shr by auto. apply Z.shiftr_nonneg. auto.
    + lia.
    + rewrite iter_pos_shr by auto. apply Hdiv; [lia | exact Hd].
  - destruct (Hstep r P Hr Hi ltac:(lia) Hd) as (Hi1 & _). exact Hi1.
Qed.

(** What [shr] does to a mantissa that is not negative. *)
Lemma shr_spec m l e n :
  0 <= m ->
  let mrs := fst (shr (shr_record_of_loc m l) e n) in
  let e' := snd (shr (shr_record_of_loc m l) e n) in
  e' = e + Z.max n 0 /\
  shr_m mrs = m / 2 ^ Z.max n 0 /\
  (loc_of_shr_record mrs <> loc_Exact -> m mod 2 ^ Z.max n 0 <> 0 \/ l <> loc_Exact).
Proof.
  intros Hm. unfold shr. destruct n as [| p | p]; simpl fst; simpl snd.
  - rewrite shr_record_of_loc_m, Z.div_1_r. split; [lia |]. split; [reflexivity |].
    intros Hl. right. apply inexact_of_loc with m, loc_exact_inexact, Hl.
  - rewrite iter_pos_shr, shr_record_of_loc_m, Z.shiftr_div_pow2
      by (rewrite ?shr_record_of_loc_m; lia).
    replace (Z.max (Z.pos p) 0) with (Z.pos p) by lia.
    split; [reflexivity |]. split; [reflexivity |].
    intros Hl. apply loc_exact_inexact in Hl.
    destruct (Z.eq_dec (m mod 2 ^ Z.pos p) 0) as [Hmod | Hmod]; [| left; exact Hmod].
    right. intros ->.
    rewrite (iter_pos_exact p _ (Zpos p)) in Hl; simpl; try lia; try reflexivity.
    simpl. apply Z.mod_divide; [apply Z.pow_nonzero; lia | exact Hmod].
  - rewrite shr_record_of_loc_m, Z.div_1_r. split; [lia |]. split; [reflexivity |].
    intros Hl. right. apply inexact_of_loc with m, loc_exact_inexact, Hl.
Qed.

Lemma Zdigits2_bound m B : 0 <= m -> 0 <= B -> m < 2 ^ B -> Zdigits2 m <= B.
Proof.
  intros Hm HB Hlt. destruct m as [| p | p]; [simpl; lia | | lia].
  rewrite Zdigits2_log2.
  assert (Z.log2 (Z.pos p) < B) by (apply Z.log2_lt_pow2; lia). lia.
Qed.

Lemma fexp_le0 d : d <= 53 -> fexp prec emax d <= 0.
Proof. unfold fexp, SpecFloat.emin, prec, emax. lia. Qed.

Lemma round_nearest_even_le m l :
  round_nearest_even m l <= m + 1 /\ (l = loc_Exact -> round_nearest_even m l = m).
Proof.
  destruct l as [| []]; simpl; repeat split; try lia; try discriminate;
    destruct (Z.even m); lia.
Qed.

Lemma pow2_split a b : 0 <= a -> 0 <= b -> 2 ^ (a + b) = 2 ^ a * 2 ^ b.
Proof. intros. apply Z.pow_add_r; assumption. Qed.

(** One shift to the exponent the format asks for keeps the mantissa
   under a bound that is on the grid. *)
Lemma shr_fexp_below m e l Y :
  0 <= m -> e <= 0 -> 0 < Y < 2 ^ 53 -> m <= Y * 2 ^ (- e) ->
  let mrs := fst (shr_fexp prec emax m e l) in
  let e' := snd (shr_fexp prec emax m e l) in
  e' <= 0 /\ 0 <= shr_m mrs /\ shr_m mrs <= Y * 2 ^ (- e') /\
  (loc_of_shr_record mrs <> loc_Exact ->
   (l <> loc_Exact -> m < Y * 2 ^ (- e)) ->
   shr_m mrs < Y * 2 ^ (- e')).
Proof.
  intros Hm He HY Hle. unfold shr_fexp.
  set (n := fexp prec emax (Zdigits2 m + e) - e).
  destruct (shr_spec m l e n Hm) as (He' & Hm' & Hloc).
  set (mrs := fst (shr (shr_record_of_loc m l) e n)) in *.
  set (e' := snd (shr (shr_record_of_loc m l) e n)) in *.
  simpl. 
  assert (Hpow : 0 < 2 ^ (- e)) by (apply Z.pow_pos_nonneg; lia).
  assert (Hdig : Zdigits2 m + e <= 53).
  { assert (Zdigits2 m <= 53 - e); [| lia].
    apply Zdigits2_bound; [lia | lia |].
    replace (53 - e) with (53 + - e) by lia. rewrite pow2_split by lia. nia. }
  assert (He'0 : e' <= 0).
  { rewrite He'. destruct (Z.max_spec n 0) as [[_ ->] | [_ ->]]; [lia |].
    unfold n. pose proof (fexp_le0 _ Hdig). lia. }
  set (N := Z.max n 0) in *. assert (HN : 0 <= N) by (unfold N; lia).
  assert (HpN : 0 < 2 ^ N) by (apply Z.pow_pos_nonneg; lia).
  assert (Hgrid : Y * 2 ^ (- e) = Y * 2 ^ (- e') * 2 ^ N).
  { replace (- e) with (- e' + N) by lia. rewrite pow2_split by lia. ring. }
  split; [exact He'0 |]. rewrite Hm'.
  split; [apply Z.div_pos; lia |].
  split.
  - apply Z.div_le_upper_bound; [lia |]. rewrite Hgrid in Hle. lia.
  - intros Hinexact Hstrict.
    apply Z.div_lt_upper_bound; [lia |].
    destruct (Hloc Hinexact) as [Hmod | Hl].
    + pose proof (Z.div_mod m (2 ^ N) ltac:(lia)) as Hdm.
      pose proof (Z.mod_pos_bound m (2 ^ N) HpN) as Hb.
      rewrite Hgrid in Hle.
      destruct (Z.eq_dec m (2 ^ N * (Y * 2 ^ (- e')))) as [Heq | Hne]; [| lia].
      exfalso. apply Hmod. rewrite Heq, Z.mul_comm. apply Z.mod_mul. lia.
    + specialize (Hstrict Hl). rewrite Hgrid in Hstrict. lia.
Qed.

(** Rounding does not go above a bound that is a Number. *)
Lemma binary_round_aux_below mx ex lx Y :
  0 <= mx -> ex <= 0 -> 0 < Y < 2 ^ 53 ->
  mx <= Y * 2 ^ (- ex) -> (lx <> loc_Exact -> mx < Y * 2 ^ (- ex)) ->
  bounded_by (binary_round_aux prec emax false mx ex lx) Y.
Proof.
  intros Hmx Hex HY Hle Hstrict. unfold binary_round_aux.
  destruct (shr_fexp_below mx ex lx Y Hmx Hex HY Hle) as (He' & Hm'0 & Hm' & Hlt).
  destruct (shr_fexp prec emax mx ex lx) as [mrs' e']. simpl in He', Hm'0, Hm', Hlt.
  set (m2 := round_nearest_even (shr_m mrs') (loc_of_shr_record mrs')).
  assert (Hm2 : 0 <= m2 <= Y * 2 ^ (- e')).
  { unfold m2. split.
    - pose proof (round_nearest_even_ge (shr_m mrs') (loc_of_shr_record mrs')). lia.
    - destruct (round_nearest_even_le (shr_m mrs') (loc_of_shr_record mrs')) as [Hup Hex'].
      destruct (loc_of_shr_record mrs') eqn:Hl.
      + rewrite Hex' by reflexivity. exact Hm'.
      + assert (shr_m mrs' < Y * 2 ^ (- e')) by (apply Hlt; [discriminate | exact Hstrict]).
        lia. }
  destruct (shr_fexp_below m2 e' loc_Exact Y ltac:(lia) He' HY ltac:(lia))
    as (He'' & Hm3 & Hm3' & _).
  destruct (shr_fexp prec emax m2 e' loc_Exact) as [mrs'' e'']. simpl in He'', Hm3, Hm3'.
  destruct (shr_m mrs'') as [| p | p]; simpl; [exact I | | lia].
  replace (e'' <=? emax - prec) with true
    by (symmetry; apply Z.leb_le; unfold emax, prec; lia).
  simpl. split; assumption.
Qed.

Lemma bounded_by_mono x a a' : bounded_by x a -> a <= a' -> bounded_by x a'.
Proof.
  destruct x as [[|] | | | [|] m e]; simpl; auto.
  intros [He Hm] Ha. split; [exact He |].
  assert (0 < 2 ^ (- e)) by (apply Z.pow_pos_nonneg; lia). nia.
Qed.

Lemma exactly_bounded x a : exactly x a -> bounded_by x a.
Proof. destruct x as [[|] | | | [|] m e]; simpl; auto. intros [He Hm]. split; lia. Qed.

Lemma exactly_pos x a : exactly x a -> 0 < a.
Proof.
  destruct x as [[|] | | | [|] m e]; simpl; try tauto. intros [He Hm].
  assert (0 < 2 ^ (- e)) by (apply Z.pow_pos_nonneg; lia). nia.
Qed.

(** [shl_align] moves to the lower exponent and keeps the value. *)
Lemma iter_xO_value p d : Zpos (Pos.iter xO p d) = Zpos p * 2 ^ Zpos d.
Proof.
  induction d as [| d IH] using Pos.peano_ind.
  - simpl. lia.
  - rewrite Pos.iter_succ, Pos2Z.inj_succ, Z.pow_succ_r by lia.
    rewrite Pos2Z.inj_xO, IH. ring.
Qed.

Lemma shl_align_spec m e e2 :
  snd (shl_align m e e2) = Z.min e e2 /\
  Zpos (fst (shl_align m e e2)) = Zpos m * 2 ^ (e - Z.min e e2).
Proof.
  unfold shl_align. destruct (e2 - e) as [| d | d] eqn:Hd; simpl.
  - replace (Z.min e e2) with e by lia. rewrite Z.sub_diag. simpl. lia.
  - replace (Z.min e e2) with e by lia. rewrite Z.sub_diag. simpl. lia.
  - replace (Z.min e e2) with e2 by lia. split; [reflexivity |].
    rewrite iter_xO_value. f_equal. f_equal. lia.
Qed.

(** Rounding a mantissa known exactly. *)
Lemma binary_round_below m e Y :
  e <= 0 -> 0 < Y < 2 ^ 53 -> Zpos m <= Y * 2 ^ (- e) ->
  bounded_by (binary_round prec emax false m e) Y.
Proof.
  intros He HY Hle. unfold binary_round.
  destruct (shl_align_spec m e (fexp prec emax (Z.pos (digits2_pos m) + e))) as [He2 Hm2].
  destruct (shl_align m e _) as [mz ez]. simpl in He2, Hm2.
  apply binary_round_aux_below; try lia; [| intros Hl; exfalso; apply Hl; reflexivity].
  rewrite Hm2. replace (- ez) with (- e + (e - Z.min e (fexp prec emax (Z.pos (digits2_pos m) + e)))) by lia.
  rewrite pow2_split by lia.
  assert (0 < 2 ^ (e - Z.min e (fexp prec emax (Z.pos (digits2_pos m) + e))))
    by (apply Z.pow_pos_nonneg; lia).
  nia.
Qed.

Lemma add_below x y a b :
  bounded_by x a -> bounded_by y b -> 0 <= a -> 0 <= b -> 0 < a + b < 2 ^ 53 ->
  bounded_by (SF64add x y) (a + b).
Proof.
  intros Hx Hy Ha Hb Hab. unfold SF64add, SFadd.
  destruct x as [[|] | | | [|] mx ex]; simpl in Hx; try tauto;
    destruct y as [[|] | | | [|] my ey]; simpl in Hy; try tauto.
  - apply bounded_by_mono with b; [exact Hy | lia].
  - apply bounded_by_mono with a; [exact Hx | lia].
  - destruct Hx as [Hex Hmx], Hy as [Hey Hmy].
    set (ez := Z.min ex ey).
    destruct (shl_align_spec mx ex ez) as [_ Hx2].
    destruct (shl_align_spec my ey ez) as [_ Hy2].
    replace (Z.min ex ez) with ez in Hx2 by (unfold ez; lia).
    replace (Z.min ey ez) with ez in Hy2 by (unfold ez; lia).
    simpl cond_Zopp.
    assert (Hsum : Z.pos (fst (shl_align mx ex ez)) + Z.pos (fst (shl_align my ey ez))
                   <= (a + b) * 2 ^ (- ez)).
    { rewrite Hx2, Hy2.
      assert (Hxp : 2 ^ (- ez) = 2 ^ (- ex) * 2 ^ (ex - ez))
        by (rewrite <- pow2_split by (unfold ez; lia); f_equal; lia).
      assert (Hyp : 2 ^ (- ez) = 2 ^ (- ey) * 2 ^ (ey - ez))
        by (rewrite <- pow2_split by (unfold ez; lia); f_equal; lia).
      assert (0 < 2 ^ (ex - ez)) by (apply Z.pow_pos_nonneg; unfold ez; lia).
      assert (0 < 2 ^ (ey - ez)) by (apply Z.pow_pos_nonneg; unfold ez; lia).
      rewrite Z.mul_add_distr_r. rewrite Hxp at 1. rewrite Hyp. nia. }
    destruct (Z.pos (fst (shl_align mx ex ez)) + Z.pos (fst (shl_align my ey ez)))
      as [| p | p] eqn:Hp; try lia.
    unfold binary_normalize. apply binary_round_below; [unfold ez; lia | lia | exact Hsum].
Qed.

Lemma new_location_exact nb r : new_location nb r <> loc_Exact -> r <> 0.
Proof.
  intros Hl ->. apply Hl. unfold new_location, new_location_even, new_location_odd.
  destruct (Z.even nb); reflexivity.
Qed.

Lemma div_below x y a b :
  bounded_by x a -> exactly y b -> 0 <= a <= b ->
  bounded_by (SF64div x y) 1.
Proof.
  intros Hx Hy Hab. unfold SF64div, SFdiv.
  destruct y as [[|] | | | [|] my ey]; simpl in Hy; try tauto.
  destruct x as [[|] | | | [|] mx ex]; simpl in Hx; try tauto.
  destruct Hx as [Hex Hmx], Hy as [Hey Hmy].
  assert (Hpx : 0 < 2 ^ (- ex)) by (apply Z.pow_pos_nonneg; lia).
  assert (Hpy : 0 < 2 ^ (- ey)) by (apply Z.pow_pos_nonneg; lia).
  (** the value of x is at most that of y *)
  assert (I1 : Zpos mx * 2 ^ (- ey) <= Zpos my * 2 ^ (- ex)).
  { rewrite Hmy.
    apply Z.le_trans with (a * 2 ^ (- ex) * 2 ^ (- ey)).
    - apply Z.mul_le_mono_nonneg_r; lia.
    - replace (b * 2 ^ (- ey) * 2 ^ (- ex)) with (b * (2 ^ (- ex) * 2 ^ (- ey))) by ring.
      rewrite <- Z.mul_assoc. apply Z.mul_le_mono_nonneg_r; nia. }
  unfold SFdiv_core_binary.
  set (D := Zdigits2 (Z.pos mx) + ex - (Zdigits2 (Z.pos my) + ey)).
  assert (HD : D <= 0).
  { unfold D. rewrite !Zdigits2_log2.
    assert (Z.log2 (Zpos mx * 2 ^ (- ey)) <= Z.log2 (Zpos my * 2 ^ (- ex)))
      by (apply Z.log2_le_mono; exact I1).
    rewrite !Z.log2_mul_pow2 in H by lia. lia. }
  set (e' := Z.min (fexp prec emax D) (ex - ey)).
  assert (He' : e' <= fexp prec emax D) by (unfold e'; lia).
  assert (He'0 : e' <= 0) by (pose proof (fexp_le0 D ltac:(lia)); lia).
  set (s := ex - ey - e'). assert (Hs : 0 <= s) by (unfold s, e'; lia).
  set (m' := match s with Z.pos _ => Z.shiftl (Z.pos mx) s | 0 => Z.pos mx | Z.neg _ => 0 end).
  assert (Hm' : m' = Zpos mx * 2 ^ s).
  { unfold m'. clear - Hs. clearbody s. destruct s as [| ps | ps]; try lia.
    rewrite Z.shiftl_mul_pow2 by lia. reflexivity. }
  (** m' <= my * 2^(-e') *)
  assert (Hle : m' <= Zpos my * 2 ^ (- e')).
  { rewrite Hm'.
    assert (Hp1 : 2 ^ (- ey + - e') = 2 ^ s * 2 ^ (- ex))
      by (rewrite <- pow2_split by lia; f_equal; unfold s; lia).
    assert (Hp2 : 2 ^ (- ex + - e') = 2 ^ (- e') * 2 ^ (- ex))
      by (rewrite <- pow2_split by lia; f_equal; lia).
    assert (Hp3 : 2 ^ (- ey + - e') = 2 ^ (- ey) * 2 ^ (- e')) by (apply pow2_split; lia).
    assert (Hp4 : 2 ^ (- ex + - e') = 2 ^ (- ex) * 2 ^ (- e')) by (apply pow2_split; lia).
    assert (0 < 2 ^ (- e')) by (apply Z.pow_pos_nonneg; lia).
    assert (0 < 2 ^ s) by (apply Z.pow_pos_nonneg; lia).
    assert (Zpos mx * 2 ^ (- ey + - e') <= Zpos my * 2 ^ (- ex + - e')).
    { rewrite Hp3, Hp4. nia. }
    rewrite Hp1, Hp2 in H1. nia. }
  pose proof (Z_div_mod m' (Zpos my) ltac:(lia)) as Hdm.
  destruct (Z.div_eucl m' (Z.pos my)) as [q r]. destruct Hdm as [Hdm Hr].
  assert (Hm'0 : 0 <= m') by (rewrite Hm'; assert (0 < 2 ^ s) by (apply Z.pow_pos_nonneg; lia); nia).
  assert (Hq0 : 0 <= q) by nia.
  apply binary_round_aux_below; try lia.
  - assert (0 < 2 ^ (- e')) by (apply Z.pow_pos_nonneg; lia). nia.
  - intros Hl. apply new_location_exact in Hl.
    assert (0 < 2 ^ (- e')) by (apply Z.pow_pos_nonneg; lia). nia.
Qed.

Lemma mul_below x y a b :
  bounded_by x a -> exactly y b -> 0 <= a -> 0 < a * b < 2 ^ 53 ->
  bounded_by (SF64mul x y) (a * b).
Proof.
  intros Hx Hy Ha Hab. unfold SF64mul, SFmul.
  destruct y as [[|] | | | [|] my ey]; simpl in Hy; try tauto.
  destruct x as [[|] | | | [|] mx ex]; simpl in Hx; try tauto.
  destruct Hx as [Hex Hmx], Hy as [Hey Hmy]. simpl xorb.
  assert (Hpx : 0 < 2 ^ (- ex)) by (apply Z.pow_pos_nonneg; lia).
  assert (Hpy : 0 < 2 ^ (- ey)) by (apply Z.pow_pos_nonneg; lia).
  apply binary_round_aux_below; try lia; [| intros Hl; exfalso; apply Hl; reflexivity].
  replace (- (ex + ey)) with (- ex + - ey) by lia. rewrite pow2_split by lia.
  rewrite Pos2Z.inj_mul, Hmy.
  replace (a * b * (2 ^ (- ex) * 2 ^ (- ey)))
    with (a * 2 ^ (- ex) * (b * 2 ^ (- ey))) by ring.
  apply Z.mul_le_mono_nonneg_r; lia.
Qed.

Lemma floor_below x Y :
  0 <= Y -> bounded_by (Prim2SF x) Y -> 0 <= Math_floor x <= Y.
Proof.
  intros HY. unfold Math_floor.
  destruct (Prim2SF x) as [[|] | | | [|] m e]; simpl; try tauto.
  - lia.
  - intros [He Hm]. destruct e as [| pe | pe]; try lia.
    + rewrite Z.shiftl_0_r. change (2 ^ (- 0)) with 1 in Hm. lia.
    + change (Z.shiftl (Z.pos m) (Z.neg pe)) with (Z.shiftr (Z.pos m) (Z.pos pe)).
      rewrite Z.shiftr_div_pow2 by lia.
      assert (0 < 2 ^ Z.pos pe) by (apply Z.pow_pos_nonneg; lia).
      change (- Z.neg pe) with (Z.pos pe) in Hm.
      split; [apply Z.div_pos; lia |].
      apply Z.div_le_upper_bound; lia.
Qed.

(** A mantissa that is already at its exponent is left as it is. *)
Lemma binary_round_aux_exact p e :
  fexp prec emax (Zdigits2 (Zpos p) + e) <= e -> e <= emax - prec ->
  binary_round_aux prec emax false (Zpos p) e loc_Exact = S754_finite false p e.
Proof.
  intros Hcanon He. unfold binary_round_aux, shr_fexp.
  assert (Hshr : shr (shr_record_of_loc (Z.pos p) loc_Exact) e
                   (fexp prec emax (Zdigits2 (Z.pos p) + e) - e)
                 = (shr_record_of_loc (Z.pos p) loc_Exact, e)).
  { unfold shr. destruct (fexp prec emax (Zdigits2 (Z.pos p) + e) - e) eqn:Hn;
      try reflexivity; lia. }
  rewrite Hshr.
  cbn [shr_m shr_record_of_loc loc_of_shr_record round_nearest_even].
  change {| shr_m := Z.pos p; shr_r := false; shr_s := false |}
    with (shr_record_of_loc (Z.pos p) loc_Exact).
  rewrite Hshr. cbn [shr_m shr_record_of_loc].
  apply Z.leb_le in He. rewrite He. reflexivity.
Qed.

Lemma of_nat_exact n :
  (0 < n)%nat -> Z.of_nat n < 2 ^ 53 -> exactly (Prim2SF (of_nat n)) (Z.of_nat n).
Proof.
  intros Hn Hlt. unfold of_nat. rewrite of_uint63_spec, Uint63.of_Z_spec.
  rewrite Z.mod_small by (change wB with (2 ^ 63); lia).
  destruct (Z.of_nat n) as [| p | p] eqn:Hp; try lia.
  unfold binary_normalize, binary_round.
  destruct (shl_align_spec p 0 (fexp prec emax (Z.pos (digits2_pos p) + 0))) as [He Hm].
  destruct (shl_align p 0 _) as [mz ez]. simpl in He, Hm. rewrite <- He in Hm.
  assert (Hd : Zdigits2 (Zpos p) <= 53) by (apply Zdigits2_bound; lia).
  assert (Hf : fexp prec emax (Z.pos (digits2_pos p) + 0) = Zdigits2 (Zpos p) - 53).
  { rewrite Z.add_0_r. change (Z.pos (digits2_pos p)) with (Zdigits2 (Zpos p)).
    unfold fexp, SpecFloat.emin, prec, emax.
    assert (0 < Zdigits2 (Zpos p)) by (simpl; lia). lia. }
  rewrite Hf in He.
  assert (Hez : ez = Zdigits2 (Zpos p) - 53) by lia.
  assert (Hdz : Zdigits2 (Zpos mz) + ez = Zdigits2 (Zpos p)).
  { rewrite !Zdigits2_log2, Hm, Z.log2_mul_pow2 by lia. lia. }
  rewrite binary_round_aux_exact.
  - simpl. split; [lia |]. rewrite Hm. f_equal.
  - rewrite Hdz. unfold fexp, SpecFloat.emin, prec, emax.
    assert (0 < Zdigits2 (Zpos p)) by (simpl; lia). lia.
  - unfold emax, prec. lia.
Qed.

Lemma counter_below i :
  Z.of_nat i < 2 ^ 53 -> bounded_by (Prim2SF (counter i)) (Z.of_nat i).
Proof.
  induction i as [| i IH]; intros Hi; [exact I |].
  cbn [counter]. rewrite FloatAxioms.add_spec.
  replace (Z.of_nat (S i)) with (Z.of_nat i + 1) by lia.
  apply add_below; try lia.
  - apply IH. lia.
  - vm_compute. split; discriminate.
Qed.

(** The progress shown while pages are fetched stays within 0 .. 90. *)
Lemma progress_at_most_90 c k p n :
  (c < n)%nat -> (k <= p)%nat -> (0 < p)%nat ->
  Z.of_nat n < 2 ^ 32 -> Z.of_nat p < 2 ^ 32 ->
  0 <= Math_floor (((counter c + counter k / of_nat p) / of_nat n) * 90)%float <= 90.
Proof.
  intros Hc Hk Hp Hn32 Hp32.
  assert (H32 : 2 ^ 32 < 2 ^ 53) by (vm_compute; reflexivity).
  apply floor_below; [lia |].
  rewrite FloatAxioms.mul_spec.
  change 90 with (1 * 90).
  apply mul_below; try lia.
  - rewrite FloatAxioms.div_spec.
    apply div_below with (Z.of_nat c + 1) (Z.of_nat n); [| apply of_nat_exact; lia | lia].
    rewrite FloatAxioms.add_spec. apply add_below; try lia.
    + apply counter_below. lia.
    + rewrite FloatAxioms.div_spec.
      apply div_below with (Z.of_nat k) (Z.of_nat p);
        [apply counter_below; lia | apply of_nat_exact; lia | lia].
  - vm_compute. split; [discriminate | reflexivity].
Qed.

End NumberFacts.

(** ** The download service *)

Section DownloadFacts.
Import Js Download.
Context `{Platform}.

(** *** updateDownloadStatus *)

Lemma assigned_skip {A} (pick : Assign -> option A) old updates :
  (forall a, In a updates -> pick a = None) ->
  assigned pick old updates = old.
Proof.
  unfold assigned. revert old.
  induction updates as [| a updates IH]; intros old Hnone; simpl; [reflexivity |].
  rewrite (Hnone a) by (left; reflexivity). simpl.
  apply IH. intros b Hb. apply Hnone. right. exact Hb.
Qed.

(** [Object.assign] leaves the properties the update does not name as
    they are, [updatedAt] apart. *)
Lemma assign_frame download updates now f :
  f <> FupdatedAt -> ~ In f (map field_of updates) ->
  get f (assign download updates now) = get f download.
Proof.
  intros Hf Hnot.
  assert (Hpick : forall a, In a updates -> field_of a <> f).
  { intros a Ha Heq. apply Hnot. rewrite <- Heq. apply in_map. exact Ha. }
  destruct f; try congruence; simpl; f_equal; apply assigned_skip;
    intros a Ha; specialize (Hpick a Ha); destruct a; simpl in *; congruence.
Qed.

Lemma assign_updatedAt download updates now :
  updatedAt (assign download updates now) = now.
Proof. reflexivity. Qed.

Lemma updateDownloadStatus_absent w downloadId updates s :
  downloads s !! downloadId = None ->
  updateDownloadStatus w downloadId updates s = (s, [], inr tt).
Proof. intros Hnone. unfold updateDownloadStatus. rewrite Hnone. reflexivity. Qed.

Lemma updateDownloadStatus_present w downloadId updates s ref download :
  downloads s !! downloadId = Some ref ->
  objects s !! ref = Some download ->
  updateDownloadStatus w downloadId updates s =
  ({| objects := <[ref := assign download updates (toISOString w (clock s))]> (objects s);
      downloads := downloads s; allocated := allocated s; uuids := uuids s;
      clock := S (clock s) |}, [], inr tt).
Proof.
  intros Href Hobj. unfold updateDownloadStatus. rewrite Href, Hobj.
  rewrite (insert_id (downloads s)) by exact Href. reflexivity.
Qed.

Lemma same_identity_refl d : same_identity d d.
Proof. repeat split. Qed.

Lemma same_identity_trans d1 d2 d3 :
  same_identity d1 d2 -> same_identity d2 d3 -> same_identity d1 d3.
Proof. unfold same_identity. intuition congruence. Qed.

Lemma assign_same_identity download updates now :
  (forall f, In f identity_fields -> ~ In f (map field_of updates)) ->
  same_identity download (assign download updates now).
Proof.
  intros Hnames.
  assert (Hget : forall f, In f identity_fields ->
            get f (assign download updates now) = get f download).
  { intros f Hf. apply assign_frame; [| apply Hnames; exact Hf].
    intros ->. simpl in Hf. intuition discriminate. }
  pose proof (Hget Fid) as H1. pose proof (Hget FsourceId) as H2.
  pose proof (Hget FmangaId) as H3. pose proof (Hget FchapterIds) as H4.
  pose proof (Hget Fformat) as H5. pose proof (Hget FcreatedAt) as H6.
  simpl in *. unfold same_identity.
  repeat split; [injection H1 | injection H2 | injection H3 | injection H4
                 | injection H5 | injection H6]; auto 10.
Qed.

Lemma keeps_ret {A} (a : A) : keeps_identity (mret a).
Proof. intros s ref d Hd. exists d. split; [exact Hd | apply same_identity_refl]. Qed.

Lemma keeps_throw {A} e : keeps_identity (@throw A e).
Proof. intros s ref d Hd. exists d. split; [exact Hd | apply same_identity_refl]. Qed.

Lemma keeps_perform e : keeps_identity (perform e).
Proof. intros s ref d Hd. exists d. split; [exact Hd | apply same_identity_refl]. Qed.

Lemma keeps_inspect {A} (f : Service -> A) : keeps_identity (inspect f).
Proof. intros s ref d Hd. exists d. split; [exact Hd | apply same_identity_refl]. Qed.

Lemma keeps_now w : keeps_identity (now w).
Proof. intros s ref d Hd. exists d. split; [exact Hd | apply same_identity_refl]. Qed.

Lemma keeps_bind {A B} (m : M A) (k : A -> M B) :
  keeps_identity m -> (forall a, keeps_identity (k a)) -> keeps_identity (m ≫= k).
Proof.
  intros Hm Hk s ref d Hd. unfold mbind, M_bind, bind.
  destruct (Hm s ref d Hd) as (d1 & Hd1 & Hsame1).
  destruct (m s) as [[s1 log1] [e | a]]; simpl in *.
  - exists d1. split; assumption.
  - destruct (Hk a s1 ref d1 Hd1) as (d2 & Hd2 & Hsame2).
    destruct (k a s1) as [[s2 log2] r]. simpl in *.
    exists d2. split; [exact Hd2 | eapply same_identity_trans; eassumption].
Qed.

Lemma keeps_try_catch {A} (m : M A) (handler : Error -> M A) :
  keeps_identity m -> (forall e, keeps_identity (handler e)) ->
  keeps_identity (try_catch m handler).
Proof.
  intros Hm Hh s ref d Hd. unfold try_catch.
  destruct (Hm s ref d Hd) as (d1 & Hd1 & Hsame1).
  destruct (m s) as [[s1 log1] [e | a]]; simpl in *.
  - destruct (Hh e s1 ref d1 Hd1) as (d2 & Hd2 & Hsame2).
    destruct (handler e s1) as [[s2 log2] r]. simpl in *.
    exists d2. split; [exact Hd2 | eapply same_identity_trans; eassumption].
  - exists d1. split; assumption.
Qed.

Lemma keeps_finally {A} (m : M A) (cleanup : M unit) :
  keeps_identity m -> keeps_identity cleanup -> keeps_identity (finally m cleanup).
Proof.
  intros Hm Hc s ref d Hd. unfold finally.
  destruct (Hm s ref d Hd) as (d1 & Hd1 & Hsame1).
  destruct (m s) as [[s1 log1] r]; simpl in *.
  destruct (Hc s1 ref d1 Hd1) as (d2 & Hd2 & Hsame2).
  destruct (cleanup s1) as [[s2 log2] r2]. simpl in *.
  exists d2. split; [exact Hd2 | eapply same_identity_trans; eassumption].
Qed.

Lemma keeps_updateDownloadStatus w downloadId updates :
  (forall f, In f identity_fields -> ~ In f (map field_of updates)) ->
  keeps_identity (updateDownloadStatus w downloadId updates).
Proof.
  intros Hnames s ref d Hd. unfold updateDownloadStatus.
  destruct (downloads s !! downloadId) as [r |] eqn:Hr;
    [| exists d; split; [exact Hd | apply same_identity_refl]].
  destruct (objects s !! r) as [download |] eqn:Hobj;
    [| exists d; split; [exact Hd | apply same_identity_refl]].
  simpl. destruct (decide (r = ref)) as [-> | Hne].
  - rewrite lookup_insert_eq. eexists. split; [reflexivity |].
    assert (download = d) as -> by congruence.
    apply assign_same_identity. exact Hnames.
  - rewrite lookup_insert_ne by exact Hne.
    exists d. split; [exact Hd | apply same_identity_refl].
Qed.

Ltac names_no_identity :=
  let f := fresh "f" in let Hf := fresh "Hf" in
  intros f Hf; simpl in Hf; simpl;
  intuition (subst; discriminate).

Lemma keeps_fetchPages w downloadId chapterIndex totalChapters pageCount pages :
  forall pageIndex resourceMap,
  keeps_identity (fetchPages w downloadId chapterIndex totalChapters pageCount
                    pages pageIndex resourceMap).
Proof.
  induction pages as [| page rest IH]; intros pageIndex resourceMap; simpl.
  - apply keeps_ret.
  - apply keeps_bind; [apply keeps_inspect | intros shown].
    apply keeps_bind; [apply keeps_perform | intros _].
    destruct (Fetch page) as [m | blob]; [apply keeps_throw |].
    destruct (SaveTemporary w blob) as [m | tempKey]; [apply keeps_throw |].
    apply keeps_bind; [| intros _; apply IH].
    apply keeps_updateDownloadStatus. names_no_identity.
Qed.

Lemma keeps_exportChapter w fmt chapter mangaTitle downloadPath resourceMap :
  keeps_identity (exportChapter w fmt chapter mangaTitle downloadPath resourceMap).
Proof.
  unfold exportChapter.
  apply keeps_bind; [destruct fmt; (apply keeps_ret || apply keeps_throw) | intros outputPath].
  apply keeps_bind;
    [destruct (mkdir w _); (apply keeps_throw || apply keeps_perform) | intros _].
  apply keeps_bind; [| intros _; apply keeps_ret].
  apply keeps_finally; [| apply keeps_perform].
  apply keeps_bind; [apply keeps_perform | intros _].
  destruct (Export w _ _ _ _ _); (apply keeps_throw || apply keeps_ret).
Qed.

Lemma keeps_chapterLoop w downloadId fmt mangaTitle downloadPath totalChapters chapters :
  forall chapterIndex,
  keeps_identity (chapterLoop w downloadId fmt mangaTitle downloadPath
                    totalChapters chapters chapterIndex).
Proof.
  induction chapters as [| chapter rest IH]; intros chapterIndex; simpl.
  - apply keeps_throw.
  - apply keeps_bind; [apply keeps_updateDownloadStatus; names_no_identity | intros _].
    destruct (Update chapter); [apply keeps_throw |].
    destruct (Pages chapter) as [| page pages]; [apply IH |].
    apply keeps_bind; [apply keeps_fetchPages | intros resourceMap].
    apply keeps_exportChapter.
Qed.

Lemma keeps_processDownload_rest w downloadId request downloadPath :
  keeps_identity (processDownload_rest w downloadId request downloadPath).
Proof.
  unfold processDownload_rest.
  destruct (find _ (WebsitePlugins w)) as [plugin |]; [| apply keeps_throw].
  destruct (find _ (plugin_Entries plugin)) as [manga |]; [| apply keeps_throw].
  destruct (filter _ (manga_Entries manga)) as [| c cs]; [apply keeps_throw |].
  apply keeps_bind; [apply keeps_updateDownloadStatus; names_no_identity | intros _].
  apply keeps_bind; [apply keeps_chapterLoop | intros _].
  apply keeps_bind; [apply keeps_now | intros completed_at].
  apply keeps_updateDownloadStatus; names_no_identity.
Qed.

Lemma keeps_settle w downloadId request :
  keeps_identity (settle w downloadId request).
Proof.
  unfold settle. apply keeps_try_catch; [apply keeps_processDownload_rest |].
  intros e. apply keeps_updateDownloadStatus; names_no_identity.
Qed.

Lemma keeps_processDownload w downloadId request downloadPath :
  keeps_identity (processDownload w downloadId request downloadPath).
Proof.
  unfold processDownload, processDownload_start.
  apply keeps_bind; [apply keeps_updateDownloadStatus; names_no_identity | intros _].
  apply keeps_processDownload_rest.
Qed.

(** C10: [updateDownloadStatus] on an identifier that is not in the
    table changes nothing and throws nothing; on one that is, it changes
    in its record only the properties the update names and [updatedAt],
    which it sets to the time of the call, and it changes no other
    record; and the updates the service makes once a record is created
    (the whole of [processDownload] and the handler of its failure)
    leave [id], [sourceId], [mangaId], [chapterIds], [format] and
    [createdAt] of every record as they were. *)
Theorem updateDownloadStatus_frame (w : World) (downloadId : jsstring)
    (updates : list Assign) (s : Service) :
  (downloads s !! downloadId = None ->
   updateDownloadStatus w downloadId updates s = (s, [], inr tt)) /\
  (forall ref download,
     downloads s !! downloadId = Some ref -> objects s !! ref = Some download ->
     exists s' download',
       updateDownloadStatus w downloadId updates s = (s', [], inr tt) /\
       downloads s' = downloads s /\
       objects s' !! ref = Some download' /\
       (forall other, other <> ref -> objects s' !! other = objects s !! other) /\
       updatedAt download' = toISOString w (clock s) /\
       (forall f, f <> FupdatedAt -> ~ In f (map field_of updates) ->
          get f download' = get f download)) /\
  (forall request downloadPath ref d,
     objects s !! ref = Some d ->
     (exists d', objects (processDownload w downloadId request downloadPath s).1.1
                   !! ref = Some d' /\ same_identity d d') /\
     (exists d', objects (settle w downloadId request s).1.1 !! ref = Some d' /\
                 same_identity d d')).
Proof.
  split; [apply updateDownloadStatus_absent |]. split.
  - intros ref download Href Hobj.
    rewrite (updateDownloadStatus_present _ _ _ _ _ _ Href Hobj).
    eexists _, _. split; [reflexivity |]. simpl.
    split; [reflexivity |]. split; [apply lookup_insert_eq |].
    split; [intros other Hne; apply lookup_insert_ne; congruence |].
    split; [reflexivity |].
    intros f Hf Hnot. apply assign_frame; assumption.
  - intros request downloadPath ref d Hd. split.
    + apply keeps_processDownload. exact Hd.
    + apply keeps_settle. exact Hd.
Qed.

(** *** getDownloadFilePath *)

(** C6: [getDownloadFilePath] returns a path only for a download whose
    status is [completed]; for a download in any other state it throws
    [BadRequest('Download is not completed yet')], and for an identifier
    that is not in the table it throws [DownloadNotFound]. *)
Theorem getDownloadFilePath_only_completed (w : World) (downloadId : jsstring)
    (s : Service) :
  (forall path s' log,
     getDownloadFilePath w downloadId s = (s', log, inr path) ->
     exists download,
       record_of s downloadId = Some download /\ status download = completed) /\
  (forall download,
     record_of s downloadId = Some download -> status download <> completed ->
     getDownloadFilePath w downloadId s =
     (s, [], inl (Errors BadRequest (str "Download is not completed yet")))) /\
  (record_of s downloadId = None ->
   getDownloadFilePath w downloadId s = (s, [], inl (Errors DownloadNotFound downloadId))).
Proof.
  unfold getDownloadFilePath, getDownload, mbind, M_bind, bind.
  destruct (record_of s downloadId) as [download |] eqn:Hrec; simpl.
  - split; [| split; [| discriminate]].
    + intros path s' log Hrun. exists download. split; [reflexivity |].
      destruct (status download); try reflexivity; simpl in Hrun; discriminate.
    + intros d [= <-] Hstatus.
      destruct (status download); try reflexivity; congruence.
  - split; [discriminate |]. split; [discriminate | reflexivity].
Qed.

(** *** createDownload *)

(** The state in which [createDownload] returns. *)
Lemma createDownload_record w request s s' log ref downloadId :
  createDownload w request s = (s', log, inr (ref, downloadId)) ->
  exists d,
    downloads s' !! downloadId = Some ref /\ objects s' !! ref = Some d /\
    status d = downloading /\ progress d = 0%Z /\ error d = None /\
    id d = downloadId /\ sourceId d = req_sourceId request /\
    mangaId d = req_mangaId request /\ chapterIds d = req_chapterIds request.
Proof.
  unfold createDownload, processDownload_start, updateDownloadStatus.
  unfold mbind, M_bind, bind, fresh_uuid, now, allocate, downloads_set, mret, M_ret, ret.
  simpl.
  destruct (truthy (req_downloadPath request)); simpl.
  - destruct (mkdir w (download_path w request)) as [m |]; simpl; [discriminate |].
    rewrite !lookup_insert_eq. simpl.
    intros [= <- <- <- <-]. simpl. rewrite !lookup_insert_eq.
    eexists. repeat split; reflexivity.
  - rewrite !lookup_insert_eq. simpl.
    intros [= <- <- <- <-]. simpl. rewrite !lookup_insert_eq.
    eexists. repeat split; reflexivity.
Qed.

(** C2 (the code does not keep it): the record [createDownload] returns
    is meant to have the state [queued] when the call returns.  The
    function stores the record with [status: 'queued'] and
    [progress: 0], then calls [processDownload], which sets the status
    of that same record to [downloading] before its first [await]; so
    whenever [createDownload] returns a record, its state is
    [downloading], with progress [0]. *)
Theorem createDownload_returns_downloading (w : World) (request : DownloadRequest)
    (s s' : Service) (log : list Effect) (ref : nat) (downloadId : jsstring) :
  createDownload w request s = (s', log, inr (ref, downloadId)) ->
  exists d,
    objects s' !! ref = Some d /\ record_of s' downloadId = Some d /\
    status d = downloading /\ progress d = 0%Z.
Proof.
  intros Hrun.
  destruct (createDownload_record _ _ _ _ _ _ _ Hrun)
    as (d & Hid & Hobj & Hstatus & Hprogress & _).
  exists d. unfold record_of. rewrite Hid. simpl. auto.
Qed.

(** *** processDownload: no requested chapter in the catalog *)

Lemma starts_with_app (x rest : jsstring) : starts_with x (x ++ rest) = true.
Proof.
  induction x as [| c x IH]; simpl; [reflexivity |].
  rewrite N.eqb_refl. exact IH.
Qed.

Lemma includes_at_start (x hay : jsstring) :
  starts_with x hay = true -> includes x hay = true.
Proof. intros Hx. destruct hay; simpl; rewrite Hx; reflexivity. Qed.

Lemma includes_app (x before after : jsstring) :
  includes x (before ++ x ++ after) = true.
Proof.
  induction before as [| c before IH].
  - rewrite app_nil_l. apply includes_at_start, starts_with_app.
  - change (includes x ((c :: before) ++ x ++ after))
      with (starts_with x ((c :: before) ++ x ++ after)
            || includes x (before ++ x ++ after)).
    rewrite IH. apply orb_true_r.
Qed.

Lemma join_contains (sep x : jsstring) parts :
  In x parts -> exists before after, join sep parts = before ++ x ++ after.
Proof.
  induction parts as [| p parts IH]; [intros [] |].
  intros [-> | Hin].
  - destruct parts as [| q parts].
    + exists [], []. simpl. rewrite app_nil_r. reflexivity.
    + exists [], (sep ++ join sep (q :: parts)). reflexivity.
  - destruct (IH Hin) as (before & after & Heq).
    destruct parts as [| q parts]; [destruct Hin |].
    exists (p ++ sep ++ before), after.
    change (join sep (p :: q :: parts)) with (p ++ sep ++ join sep (q :: parts)).
    rewrite Heq, <- !app_assoc. reflexivity.
Qed.

(** The message names every identifier of the catalog. *)
Lemma no_valid_chapters_lists available requested x :
  In x available -> includes x (no_valid_chapters available requested) = true.
Proof.
  intros Hin. destruct (join_contains (str ", ") x available Hin) as (before & after & Heq).
  unfold no_valid_chapters. rewrite Heq, <- !app_assoc, (app_assoc _ before).
  apply includes_app.
Qed.

Lemma filter_requested_nil request chapters :
  (forall c, In c chapters -> Identifier c ∉ req_chapterIds request) ->
  filter (fun c => requested request c = true) chapters = [].
Proof.
  induction chapters as [| c chapters IH]; intros Hnone; [reflexivity |].
  rewrite filter_cons. destruct (decide (requested request c = true)) as [Hreq | _].
  - unfold requested in Hreq. apply bool_decide_eq_true in Hreq.
    exfalso. apply (Hnone c); [left; reflexivity | exact Hreq].
  - apply IH. intros c' Hc'. apply Hnone. right. exact Hc'.
Qed.

(** C5: when the plugin and the manga are found and none of the
    chapters of the catalog is among the requested identifiers, the
    processing started by [createDownload] throws an error whose message
    contains every identifier of the catalog, and the download goes to
    the state [failed] with that message as its error. *)
Theorem no_requested_chapter_fails (w : World) (request : DownloadRequest)
    (s s1 : Service) (log : list Effect) (ref : nat) (downloadId : jsstring)
    (plugin : Plugin) (manga : Manga) :
  find (fun p => bool_decide (plugin_Identifier p = req_sourceId request))
       (WebsitePlugins w) = Some plugin ->
  find (fun m => bool_decide (manga_Identifier m = req_mangaId request))
       (plugin_Entries plugin) = Some manga ->
  (forall c, In c (manga_Entries manga) -> Identifier c ∉ req_chapterIds request) ->
  createDownload w request s = (s1, log, inr (ref, downloadId)) ->
  let available := map Identifier (manga_Entries manga) in
  let text := no_valid_chapters available (req_chapterIds request) in
  processDownload_rest w downloadId request (download_path w request) s1 =
    (s1, [], inl (JsError text)) /\
  (forall x, In x available -> includes x text = true) /\
  exists s2 d,
    settle w downloadId request s1 = (s2, [], inr tt) /\
    downloads s2 !! downloadId = Some ref /\ objects s2 !! ref = Some d /\
    status d = failed /\ error d = Some text.
Proof.
  intros Hplugin Hmanga Hnone Hcreate available text.
  assert (Hrest : processDownload_rest w downloadId request (download_path w request) s1
                  = (s1, [], inl (JsError text))).
  { unfold processDownload_rest. rewrite Hplugin, Hmanga.
    rewrite (filter_requested_nil _ _ Hnone). reflexivity. }
  split; [exact Hrest |]. split.
  - intros x Hx. apply no_valid_chapters_lists. exact Hx.
  - destruct (createDownload_record _ _ _ _ _ _ _ Hcreate)
      as (d1 & Hid & Hobj & _).
    unfold settle, try_catch. rewrite Hrest.
    rewrite (updateDownloadStatus_present _ _ _ _ _ _ Hid Hobj). simpl.
    eexists _, _. split; [reflexivity |]. simpl.
    split; [exact Hid |]. split; [apply lookup_insert_eq |].
    split; reflexivity.
Qed.

(** *** downloadAndExport: which chapter is exported *)

Lemma bind_run {A B} (m : M A) (k : A -> M B) s :
  (m ≫= k) s =
  match m s with
  | (s1, log1, inl e) => (s1, log1, inl e)
  | (s1, log1, inr a) => let '(s2, log2, r) := k a s1 in (s2, log1 ++ log2, r)
  end.
Proof. reflexivity. Qed.

Lemma updateDownloadStatus_run w downloadId updates s :
  exists s', updateDownloadStatus w downloadId updates s = (s', [], inr tt).
Proof.
  unfold updateDownloadStatus.
  destruct (downloads s !! downloadId) as [ref |]; [| eauto].
  destruct (objects s !! ref); eauto.
Qed.

#[local] Arguments updateDownloadStatus : simpl never.
#[local] Arguments JsNumber.Math_floor : simpl never.
#[local] Arguments JsNumber.counter : simpl never.
#[local] Arguments JsNumber.of_nat : simpl never.

Ltac run_update :=
  match goal with
  | |- context [updateDownloadStatus ?w ?i ?u ?s] =>
      let s1 := fresh "s" in
      let Hs1 := fresh "Hupdate" in
      destruct (updateDownloadStatus_run w i u s) as [s1 Hs1]; rewrite Hs1
  end.

Lemma exports_app log1 log2 : exports (log1 ++ log2) = exports log1 ++ exports log2.
Proof. apply omap_app. Qed.

(** The inner loop exports nothing; it only fetches. *)
Lemma fetchPages_log w downloadId chapterIndex totalChapters pageCount pages :
  forall pageIndex resourceMap s s' log res,
  fetchPages w downloadId chapterIndex totalChapters pageCount pages pageIndex
    resourceMap s = (s', log, res) ->
  exports log = [] /\
  forall c k shown, In (Fetching c k shown) log -> c = chapterIndex.
Proof.
  induction pages as [| page rest IH]; intros pageIndex resourceMap s s' log res; simpl.
  - intros [= <- <- <-]. split; [reflexivity | intros c k shown []].
  - rewrite !bind_run. unfold inspect, perform. simpl.
    destruct (Fetch page) as [m | blob];
      [intros [= <- <- <-]; split; [reflexivity |];
       intros c k shown [[= <- _ _] | []]; reflexivity |].
    destruct (SaveTemporary w blob) as [m | tempKey];
      [intros [= <- <- <-]; split; [reflexivity |];
       intros c k shown [[= <- _ _] | []]; reflexivity |].
    rewrite !bind_run. run_update.
    destruct (fetchPages w downloadId chapterIndex totalChapters pageCount rest
                (S pageIndex) (resourceMap ++ [(pageIndex, tempKey)]) _)
      as [[s2 log2] r2] eqn:Hrec.
    destruct (IH _ _ _ _ _ _ Hrec) as [Hexp Hfetch].
    intros [= <- <- <-]. simpl. split; [exact Hexp |].
    intros c k shown [[= <- _ _] | Hin]; [reflexivity | eapply Hfetch; exact Hin].
Qed.

(** What follows the inner loop asks for at most one export, that of
    its chapter, and returns the path it asked for. *)
Lemma exportChapter_log w fmt chapter mangaTitle downloadPath resourceMap s s' log res :
  exportChapter w fmt chapter mangaTitle downloadPath resourceMap s = (s', log, res) ->
  length (exports log) <= 1 /\
  (forall c k shown, ~ In (Fetching c k shown) log) /\
  forall outputPath, res = inr outputPath ->
    exports log = [(Title chapter, outputPath)] /\
    export_path fmt downloadPath mangaTitle chapter = Some outputPath.
Proof.
  unfold exportChapter, export_path, finally.
  rewrite !bind_run. unfold mret, M_ret, ret, throw, perform.
  destruct fmt; simpl;
    try (intros [= <- <- <-]; simpl; repeat split; (lia || tauto || discriminate)).
  all: destruct (mkdir w _) as [m |]; simpl;
    try (intros [= <- <- <-]; simpl; repeat split; (lia || tauto || discriminate)).
  all: rewrite !bind_run; simpl.
  all: destruct (Export w _ _ _ _ _) as [m |]; simpl;
    intros [= <- <- <-]; simpl; (split; [lia |]); (split; [intuition discriminate |]);
    intros outputPath [= <-]; split; reflexivity.
Qed.

Lemma chapterLoop_log w downloadId fmt mangaTitle downloadPath totalChapters chapters :
  forall chapterIndex s s' log res,
  chapterLoop w downloadId fmt mangaTitle downloadPath totalChapters chapters
    chapterIndex s = (s', log, res) ->
  length (exports log) <= 1 /\
  forall outputPath, res = inr outputPath ->
    exists before chapter after,
      chapters = before ++ chapter :: after /\
      Forall (fun c => Pages c = []) before /\ Pages chapter <> [] /\
      exports log = [(Title chapter, outputPath)] /\
      export_path fmt downloadPath mangaTitle chapter = Some outputPath /\
      forall c k shown, In (Fetching c k shown) log -> c = chapterIndex + length before.
Proof.
  induction chapters as [| chapter rest IH]; intros chapterIndex s s' log res; simpl.
  - intros [= <- <- <-]. split; [simpl; lia | discriminate].
  - rewrite bind_run. run_update.
    destruct (Update chapter) as [m |];
      [intros [= <- <- <-]; split; [simpl; lia | discriminate] |].
    destruct (Pages chapter) as [| page pages] eqn:Hpages.
    + destruct (chapterLoop w downloadId fmt mangaTitle downloadPath totalChapters
                  rest (S chapterIndex) _) as [[s2 log2] r2] eqn:Hrec.
      destruct (IH _ _ _ _ _ Hrec) as [Hle Hok].
      intros [= <- <- <-]. simpl. split; [exact Hle |].
      intros outputPath ->.
      destruct (Hok outputPath eq_refl)
        as (before & chosen & after & -> & Hempty & Hnonempty & Hexp & Hpath & Hfetch).
      exists (chapter :: before), chosen, after.
      split; [reflexivity |]. split; [constructor; assumption |].
      split; [exact Hnonempty |]. split; [exact Hexp |]. split; [exact Hpath |].
      intros c k shown Hin. rewrite (Hfetch c k shown Hin). simpl. lia.
    + rewrite bind_run.
      destruct (fetchPages w downloadId chapterIndex totalChapters
                  (length (page :: pages)) (page :: pages) 0 [] _)
        as [[s2 log2] [e | resourceMap]] eqn:Hfetch.
      * destruct (fetchPages_log _ _ _ _ _ _ _ _ _ _ _ _ Hfetch) as [Hexp _].
        intros [= <- <- <-]. simpl. rewrite Hexp. split; [simpl; lia | discriminate].
      * destruct (fetchPages_log _ _ _ _ _ _ _ _ _ _ _ _ Hfetch) as [Hexp Hidx].
        destruct (exportChapter w fmt chapter mangaTitle downloadPath resourceMap s2)
          as [[s3 log3] r3] eqn:Hexport.
        destruct (exportChapter_log _ _ _ _ _ _ _ _ _ _ Hexport) as (Hle & Hnofetch & Hok).
        intros [= <- <- <-]. rewrite exports_app, Hexp. simpl.
        split; [exact Hle |]. intros outputPath ->.
        destruct (Hok outputPath eq_refl) as [Hone Hpath].
        exists [], chapter, rest. split; [reflexivity |]. split; [constructor |].
        split; [rewrite Hpages; discriminate |]. split; [exact Hone |].
        split; [exact Hpath |].
        intros c k shown [Hin | Hin]%in_app_or;
          [rewrite (Hidx c k shown Hin); simpl; lia | destruct (Hnofetch c k shown Hin)].
Qed.

(** *** extractChapterNumber *)


















(** *** downloadAndExport: the progress shown while a page is fetched *)

Lemma record_of_update w downloadId updates s d :
  record_of s downloadId = Some d ->
  exists s',
    updateDownloadStatus w downloadId updates s = (s', [], inr tt) /\
    record_of s' downloadId = Some (assign d updates (toISOString w (clock s))).
Proof.
  unfold record_of. intros Hrec.
  destruct (downloads s !! downloadId) as [ref |] eqn:Href; [| discriminate].
  simpl in Hrec.
  rewrite (updateDownloadStatus_present _ _ _ _ _ _ Href Hrec).
  eexists. split; [reflexivity |]. simpl. rewrite Href. simpl.
  apply lookup_insert_eq.
Qed.

(** Within a chapter, the record shows [formula_progress] of the page
    being fetched. *)
Lemma fetchPages_shown w downloadId chapterIndex totalChapters pageCount pages :
  forall pageIndex resourceMap s s' log res d,
  record_of s downloadId = Some d ->
  progress d = formula_progress (JsNumber.counter chapterIndex)
                 (JsNumber.counter pageIndex) (JsNumber.of_nat pageCount)
                 (JsNumber.of_nat totalChapters) ->
  fetchPages w downloadId chapterIndex totalChapters pageCount pages pageIndex
    resourceMap s = (s', log, res) ->
  forall c k shown, In (Fetching c k shown) log ->
    c = chapterIndex /\ pageIndex <= k < pageIndex + length pages /\
    shown = Some (formula_progress (JsNumber.counter chapterIndex)
                    (JsNumber.counter k) (JsNumber.of_nat pageCount)
                    (JsNumber.of_nat totalChapters)).
Proof.
  induction pages as [| page rest IH];
    intros pageIndex resourceMap s s' log res d Hrec Hprogress; simpl.
  - intros [= <- <- <-] c k shown [].
  - rewrite !bind_run. unfold inspect, perform. simpl. rewrite Hrec. simpl.
    assert (Hfirst : forall c k shown,
              Fetching chapterIndex pageIndex (Some (progress d)) = Fetching c k shown ->
              c = chapterIndex /\ pageIndex <= k < pageIndex + S (length rest) /\
              shown = Some (formula_progress (JsNumber.counter chapterIndex)
                              (JsNumber.counter k) (JsNumber.of_nat pageCount)
                              (JsNumber.of_nat totalChapters))).
    { intros c k shown [= <- <- <-]. rewrite Hprogress. repeat split; lia. }
    destruct (Fetch page) as [m | blob];
      [intros [= <- <- <-] c k shown [Heq | []]; apply Hfirst; exact Heq |].
    destruct (SaveTemporary w blob) as [m | tempKey];
      [intros [= <- <- <-] c k shown [Heq | []]; apply Hfirst; exact Heq |].
    rewrite !bind_run.
    match goal with
    | |- context [updateDownloadStatus ?w ?i ?u s] =>
        destruct (record_of_update w i u s d Hrec) as (s1 & -> & Hrec1)
    end.
    destruct (fetchPages w downloadId chapterIndex totalChapters pageCount rest
                (S pageIndex) (resourceMap ++ [(pageIndex, tempKey)]) s1)
      as [[s2 log2] r2] eqn:Hrun.
    intros [= <- <- <-] c k shown [Heq | Hin]; [apply Hfirst; exact Heq |].
    destruct (IH (S pageIndex) _ _ _ _ _ _ Hrec1 eq_refl Hrun c k shown Hin)
      as (Hc & Hk & Hshown).
    split; [exact Hc |]. split; [lia | exact Hshown].
Qed.

Lemma chapterLoop_shown w downloadId fmt mangaTitle downloadPath all chapters :
  forall before s s' log res d,
  all = before ++ chapters ->
  Forall (fun c => (Z.of_nat (length (Pages c)) < 2 ^ 32)%Z) chapters ->
  record_of s downloadId = Some d ->
  chapterLoop w downloadId fmt mangaTitle downloadPath (length all) chapters
    (length before) s = (s', log, res) ->
  forall c k shown, In (Fetching c k shown) log ->
    exists chapter,
      all !! c = Some chapter /\ k < length (Pages chapter) /\
      shown = Some (formula_progress (JsNumber.counter c) (JsNumber.counter k)
                      (JsNumber.of_nat (length (Pages chapter)))
                      (JsNumber.of_nat (length all))).
Proof.
  induction chapters as [| chapter rest IH];
    intros before s s' log res d Hall Hsmall Hrec; simpl.
  - intros [= <- <- <-] c k shown [].
  - rewrite bind_run.
    match goal with
    | |- context [updateDownloadStatus ?w ?i ?u s] =>
        destruct (record_of_update w i u s d Hrec) as (s1 & -> & Hrec1)
    end.
    destruct (Update chapter) as [m |]; [intros [= <- <- <-] c k shown [] |].
    inversion Hsmall as [| ? ? Hpages Hrest]; subst.
    destruct (Pages chapter) as [| page pages] eqn:Hp.
    + destruct (chapterLoop w downloadId fmt mangaTitle downloadPath _ rest
                  (S (length before)) s1) as [[s2 log2] r2] eqn:Hrun.
      intros [= <- <- <-]. simpl.
      eapply (IH (before ++ [chapter]) s1 s2 log2 r2).
      * rewrite <- app_assoc. reflexivity.
      * exact Hrest.
      * exact Hrec1.
      * replace (length (before ++ [chapter])) with (S (length before))
          by (rewrite length_app; simpl; lia).
        exact Hrun.
    + rewrite bind_run.
      destruct (fetchPages w downloadId (length before) _ _ (page :: pages) 0 [] s1)
        as [[s2 log2] r2] eqn:Hfetch.
      assert (Hshown : forall c k shown, In (Fetching c k shown) log2 ->
                exists chosen,
                  (before ++ chapter :: rest) !! c = Some chosen /\
                  k < length (Pages chosen) /\
                  shown = Some (formula_progress (JsNumber.counter c)
                                  (JsNumber.counter k)
                                  (JsNumber.of_nat (length (Pages chosen)))
                                  (JsNumber.of_nat (length (before ++ chapter :: rest))))).
      { intros c k shown Hin.
        eapply fetchPages_shown in Hin; [| exact Hrec1 | | exact Hfetch].
        - destruct Hin as (-> & Hk & ->). exists chapter.
          rewrite list_lookup_middle by reflexivity. rewrite Hp.
          split; [reflexivity |]. split; [simpl in *; lia | reflexivity].
        - simpl. unfold formula_progress. f_equal. f_equal. f_equal.
          symmetry. apply add_zero_over; [apply counter_unsigned |].
          apply of_nat_positive; [simpl; lia |]. simpl length in *. lia. }
      destruct r2 as [e | resourceMap]; [intros [= <- <- <-]; exact Hshown |].
      destruct (exportChapter w fmt chapter mangaTitle downloadPath resourceMap s2)
        as [[s3 log3] r3] eqn:Hexport.
      destruct (exportChapter_log _ _ _ _ _ _ _ _ _ _ Hexport) as (_ & Hnofetch & _).
      intros [= <- <- <-] c k shown [Hin | Hin]%in_app_or;
        [apply Hshown; exact Hin | destruct (Hnofetch c k shown Hin)].
Qed.

(** The progress set when a chapter is begun. *)
Lemma chapter_start_at_most_90 c n :
  c < n -> (Z.of_nat n < 2 ^ 32)%Z ->
  (0 <= JsNumber.Math_floor ((JsNumber.counter c / JsNumber.of_nat n) * 90)%float <= 90)%Z.
Proof.
  intros Hc Hn.
  assert (H1 : (Z.of_nat 1 < 2 ^ 32)%Z) by reflexivity.
  pose proof (progress_at_most_90 c 0 1 n Hc ltac:(lia) ltac:(lia) Hn H1) as Hb.
  change (JsNumber.counter 0) with 0%float in Hb.
  rewrite add_zero_over in Hb; [exact Hb | apply counter_unsigned |].
  apply of_nat_positive; [lia | reflexivity].
Qed.

(** The inner loop keeps the progress of the record within 0 .. 90. *)
Lemma fetchPages_at_most_90 w downloadId chapterIndex totalChapters pageCount pages :
  forall pageIndex resourceMap s s' log res d,
  chapterIndex < totalChapters -> pageIndex + length pages <= pageCount ->
  (Z.of_nat totalChapters < 2 ^ 32)%Z -> (Z.of_nat pageCount < 2 ^ 32)%Z ->
  record_of s downloadId = Some d -> (0 <= progress d <= 90)%Z ->
  fetchPages w downloadId chapterIndex totalChapters pageCount pages pageIndex
    resourceMap s = (s', log, res) ->
  exists d', record_of s' downloadId = Some d' /\ (0 <= progress d' <= 90)%Z.
Proof.
  induction pages as [| page rest IH];
    intros pageIndex resourceMap s s' log res d Hc Hlen Hn Hp Hrec Hd; simpl.
  - intros [= <- <- <-]. eauto.
  - rewrite !bind_run. unfold inspect, perform. simpl.
    destruct (Fetch page) as [m | blob]; [intros [= <- <- <-]; eauto |].
    destruct (SaveTemporary w blob) as [m | tempKey]; [intros [= <- <- <-]; eauto |].
    rewrite !bind_run.
    match goal with
    | |- context [updateDownloadStatus ?w ?i ?u s] =>
        destruct (record_of_update w i u s d Hrec) as (s1 & -> & Hrec1)
    end.
    destruct (fetchPages w downloadId chapterIndex totalChapters pageCount rest
                (S pageIndex) (resourceMap ++ [(pageIndex, tempKey)]) s1)
      as [[s2 log2] r2] eqn:Hrun.
    intros [= <- <- <-].
    eapply (IH (S pageIndex) _ s1 s2 log2 r2);
      [exact Hc | simpl in Hlen; lia | exact Hn | exact Hp | exact Hrec1 | | exact Hrun].
    apply (progress_at_most_90 chapterIndex (S pageIndex) pageCount totalChapters);
      simpl in Hlen; lia.
Qed.

(** Naming and export leave the table as it is. *)
Lemma exportChapter_state w fmt chapter mangaTitle downloadPath resourceMap s s' log res :
  exportChapter w fmt chapter mangaTitle downloadPath resourceMap s = (s', log, res) ->
  s' = s.
Proof.
  unfold exportChapter, finally.
  rewrite !bind_run. unfold mret, M_ret, ret, throw, perform.
  destruct fmt; simpl; try (intros [= <- <- <-]; reflexivity).
  all: destruct (mkdir w _) as [m |]; simpl; try (intros [= <- <- <-]; reflexivity).
  all: rewrite !bind_run; simpl.
  all: destruct (Export w _ _ _ _ _) as [m |]; simpl; intros [= <- <- <-]; reflexivity.
Qed.

(** The outer loop leaves the progress of the record within 0 .. 90,
    however it ends. *)
Lemma chapterLoop_at_most_90 w downloadId fmt mangaTitle downloadPath totalChapters chapters :
  forall chapterIndex s s' log res d,
  chapterIndex + length chapters <= totalChapters ->
  (Z.of_nat totalChapters < 2 ^ 32)%Z ->
  Forall (fun c => (Z.of_nat (length (Pages c)) < 2 ^ 32)%Z) chapters ->
  record_of s downloadId = Some d ->
  (chapters = [] -> (0 <= progress d <= 90)%Z) ->
  chapterLoop w downloadId fmt mangaTitle downloadPath totalChapters chapters
    chapterIndex s = (s', log, res) ->
  exists d', record_of s' downloadId = Some d' /\ (0 <= progress d' <= 90)%Z.
Proof.
  induction chapters as [| chapter rest IH];
    intros chapterIndex s s' log res d Hlen Hn Hsmall Hrec Hd; simpl.
  - intros [= <- <- <-]. eauto.
  - rewrite bind_run.
    match goal with
    | |- context [updateDownloadStatus ?w ?i ?u s] =>
        destruct (record_of_update w i u s d Hrec) as (s1 & -> & Hrec1)
    end.
    assert (Hstart : (0 <= progress
                            (assign d
                               [SetCurrentChapter (Some (Title chapter));
                                SetProgress
                                  (JsNumber.Math_floor
                                     ((JsNumber.counter chapterIndex
                                       / JsNumber.of_nat totalChapters) * 90)%float)]
                               (toISOString w (clock s))) <= 90)%Z).
    { apply chapter_start_at_most_90; [simpl in Hlen; lia | exact Hn]. }
    destruct (Update chapter) as [m |]; [intros [= <- <- <-]; eauto |].
    inversion Hsmall as [| ? ? Hpages Hrest]; subst.
    destruct (Pages chapter) as [| page pages] eqn:Hp.
    + destruct (chapterLoop w downloadId fmt mangaTitle downloadPath _ rest
                  (S chapterIndex) s1) as [[s2 log2] r2] eqn:Hrun.
      intros [= <- <- <-].
      eapply (IH (S chapterIndex) s1 s2 log2 r2);
        [simpl in Hlen; lia | exact Hn | exact Hrest | exact Hrec1
         | intros _; exact Hstart | exact Hrun].
    + rewrite bind_run.
      destruct (fetchPages w downloadId chapterIndex _ _ (page :: pages) 0 [] s1)
        as [[s2 log2] r2] eqn:Hfetch.
      assert (Hc : chapterIndex < totalChapters) by (simpl in Hlen; lia).
      assert (Hall : 0 + length (page :: pages) <= length (page :: pages)) by lia.
      destruct (fetchPages_at_most_90 _ _ _ _ _ _ _ _ _ _ _ _ _
                  Hc Hall Hn Hpages Hrec1 Hstart Hfetch)
        as (d2 & Hrec2 & Hd2).
      destruct r2 as [e | resourceMap]; [intros [= <- <- <-]; eauto |].
      destruct (exportChapter w fmt chapter mangaTitle downloadPath resourceMap s2)
        as [[s3 log3] r3] eqn:Hexport.
      apply exportChapter_state in Hexport. subst s3.
      intros [= <- <- <-]. eauto.
Qed.

(** The progress is computed on Numbers: with one chapter of ten pages,
    the page of index 7 is fetched under a progress of 62, the Number
    nearest to 7/10 being below it. *)
Example formula_progress_on_numbers :
  formula_progress (JsNumber.counter 0) (JsNumber.counter 7)
    (JsNumber.of_nat 10) (JsNumber.of_nat 1) = 62%Z.
Proof. vm_compute. reflexivity. Qed.

(** C3 as the specification words it fails: with one resolved chapter
    of ten pages, [page.Fetch] is called for the page of index 7 while
    the record shows a progress of 62, and the formula read in exact
    arithmetic gives 63; the pages before it show the exact values. *)
Lemma progress_below_exact_formula :
  In (Fetching 0 7 (Some 62%Z)) ten_pages_run.1.2 /\
  exact_progress 0 7 10 1 = 63%Z /\
  In (Fetching 0 6 (Some (exact_progress 0 6 10 1))) ten_pages_run.1.2.
Proof. vm_compute. repeat split; auto 12. Qed.

(** C3: in a run of [downloadAndExport] on a download that is in the
    table, whenever [page.Fetch] is called for the page of index [k] of
    the chapter of index [c], the record shows the progress
    [Math.floor((c + k / pageCount) / totalChapters * 90)], computed on
    Numbers as the code computes it, [pageCount] being the number of
    pages of that chapter and [totalChapters] the number of resolved
    chapters; that progress is between 0 and 90; and when
    [downloadAndExport] is over, the export done or failed, the progress
    of the record is still between 0 and 90: the values above 90 are
    left to what follows the export. *)
Theorem progress_while_fetching (w : World) (downloadId : jsstring)
    (request : DownloadRequest) (chapters : list Chapter)
    (mangaTitle downloadPath : jsstring) (s s' : Service) (log : list Effect)
    (res : Error + jsstring) (d : DownloadStatus) (c k : nat) (shown : option Z) :
  record_of s downloadId = Some d ->
  (Z.of_nat (length chapters) < 2 ^ 32)%Z ->
  Forall (fun c => (Z.of_nat (length (Pages c)) < 2 ^ 32)%Z) chapters ->
  downloadAndExport w downloadId request chapters mangaTitle downloadPath s =
    (s', log, res) ->
  In (Fetching c k shown) log ->
  exists chapter,
    chapters !! c = Some chapter /\ k < length (Pages chapter) /\
    shown = Some (formula_progress (JsNumber.counter c) (JsNumber.counter k)
                    (JsNumber.of_nat (length (Pages chapter)))
                    (JsNumber.of_nat (length chapters))) /\
    (0 <= formula_progress (JsNumber.counter c) (JsNumber.counter k)
            (JsNumber.of_nat (length (Pages chapter)))
            (JsNumber.of_nat (length chapters)) <= 90)%Z /\
    exists d', record_of s' downloadId = Some d' /\ (0 <= progress d' <= 90)%Z.
Proof.
  intros Hrec Hmany Hsmall Hrun Hin. unfold downloadAndExport in Hrun.
  destruct (chapterLoop_shown w downloadId _ mangaTitle downloadPath chapters chapters
              [] s s' log res d eq_refl Hsmall Hrec Hrun c k shown Hin)
    as (chapter & Hchapter & Hk & Hshown).
  exists chapter. split; [exact Hchapter |]. split; [exact Hk |].
  split; [exact Hshown |]. split.
  - unfold formula_progress. apply progress_at_most_90.
    + apply lookup_lt_Some in Hchapter. exact Hchapter.
    + lia.
    + lia.
    + exact Hmany.
    + rewrite Forall_lookup in Hsmall. exact (Hsmall c chapter Hchapter).
  - eapply (chapterLoop_at_most_90 w downloadId _ mangaTitle downloadPath
              (length chapters) chapters 0 s s' log res d);
      [simpl; lia | exact Hmany | exact Hsmall | exact Hrec | | exact Hrun].
    intros ->. rewrite lookup_nil in Hchapter. discriminate.
Qed.

(** *** What a run of downloadAndExport does to the outside *)

Lemma fetchPages_effects w downloadId chapterIndex totalChapters pageCount pages :
  forall pageIndex resourceMap s,
  Forall (fun e => is_fetching e = true)
    (fetchPages w downloadId chapterIndex totalChapters pageCount pages pageIndex
       resourceMap s).1.2.
Proof.
  induction pages as [| page rest IH]; intros pageIndex resourceMap s; simpl.
  - constructor.
  - rewrite !bind_run. unfold inspect, perform. simpl.
    destruct (Fetch page) as [m | blob]; [repeat constructor |].
    destruct (SaveTemporary w blob) as [m | tempKey]; [repeat constructor |].
    rewrite !bind_run. run_update.
    specialize (IH (S pageIndex) (resourceMap ++ [(pageIndex, tempKey)]) s0).
    destruct (fetchPages w downloadId chapterIndex totalChapters pageCount rest
                (S pageIndex) (resourceMap ++ [(pageIndex, tempKey)]) s0)
      as [[s2 log2] r2].
    simpl in *. constructor; [reflexivity | exact IH].
Qed.

(** What follows the inner loop does nothing to the outside, or it
    makes the directory, asks for the export and removes the temporary
    files, whether the export succeeds or not. *)
Lemma exportChapter_effects w fmt chapter mangaTitle downloadPath resourceMap s :
  ((exportChapter w fmt chapter mangaTitle downloadPath resourceMap s).1.2 = [] /\
   exists e, (exportChapter w fmt chapter mangaTitle downloadPath resourceMap s).2 = inl e) \/
  exists outputPath,
    export_path fmt downloadPath mangaTitle chapter = Some outputPath /\
    (exportChapter w fmt chapter mangaTitle downloadPath resourceMap s).1.2
      = export_effects fmt resourceMap outputPath chapter mangaTitle /\
    (exportChapter w fmt chapter mangaTitle downloadPath resourceMap s).2
      = match Export w fmt resourceMap outputPath (Title chapter) mangaTitle with
        | Some errorMessage => inl (JsError errorMessage)
        | None => inr outputPath
        end.
Proof.
  unfold exportChapter, export_path, export_effects, finally.
  rewrite !bind_run. unfold mret, M_ret, ret, throw, perform.
  destruct fmt; simpl; try (left; split; [reflexivity | eauto]).
  all: destruct (mkdir w _) as [m |]; simpl; [left; split; [reflexivity | eauto] |].
  all: rewrite !bind_run; simpl.
  all: right; eexists; split; [reflexivity |].
  all: destruct (Export w _ _ _ _ _) as [m |]; simpl; split; reflexivity.
Qed.

Lemma chapterLoop_effects w downloadId fmt mangaTitle downloadPath totalChapters chapters :
  forall chapterIndex s,
  exists fetched rest,
    (chapterLoop w downloadId fmt mangaTitle downloadPath totalChapters chapters
       chapterIndex s).1.2 = fetched ++ rest /\
    Forall (fun e => is_fetching e = true) fetched /\
    ((rest = [] /\
      exists e, (chapterLoop w downloadId fmt mangaTitle downloadPath totalChapters
                   chapters chapterIndex s).2 = inl e) \/
     exists chapter resourceMap outputPath,
       In chapter chapters /\
       export_path fmt downloadPath mangaTitle chapter = Some outputPath /\
       rest = export_effects fmt resourceMap outputPath chapter mangaTitle /\
       (chapterLoop w downloadId fmt mangaTitle downloadPath totalChapters chapters
          chapterIndex s).2
         = match Export w fmt resourceMap outputPath (Title chapter) mangaTitle with
           | Some errorMessage => inl (JsError errorMessage)
           | None => inr outputPath
           end).
Proof.
  induction chapters as [| chapter rest IH]; intros chapterIndex s; simpl.
  - exists [], []. split; [reflexivity |]. split; [constructor |].
    left. split; [reflexivity | eauto].
  - rewrite bind_run. run_update.
    destruct (Update chapter) as [m |].
    { exists [], []. split; [reflexivity |]. split; [constructor |].
      left. split; [reflexivity | eauto]. }
    destruct (Pages chapter) as [| page pages] eqn:Hpages.
    + destruct (IH (S chapterIndex) s0) as (fetched & tail & Hlog & Hfetched & Hend).
      destruct (chapterLoop w downloadId fmt mangaTitle downloadPath totalChapters
                  rest (S chapterIndex) s0) as [[s2 log2] r2].
      simpl in *. exists fetched, tail. split; [exact Hlog |]. split; [exact Hfetched |].
      destruct Hend as [Hend | (chosen & rm & path & Hin & Hend)]; [left; exact Hend |].
      right. exists chosen, rm, path. split; [right; exact Hin | exact Hend].
    + rewrite bind_run.
      pose proof (fetchPages_effects w downloadId chapterIndex totalChapters
                    (length (page :: pages)) (page :: pages) 0 [] s0) as Hfetch.
      destruct (fetchPages w downloadId chapterIndex totalChapters
                  (length (page :: pages)) (page :: pages) 0 [] s0)
        as [[s2 log2] [e | resourceMap]].
      * simpl in *. exists log2, []. rewrite app_nil_r.
        split; [reflexivity |]. split; [exact Hfetch |]. left. eauto.
      * pose proof (exportChapter_effects w fmt chapter mangaTitle downloadPath
                      resourceMap s2) as Hexport.
        destruct (exportChapter w fmt chapter mangaTitle downloadPath resourceMap s2)
          as [[s3 log3] r3].
        simpl in *. exists log2, log3. split; [reflexivity |]. split; [exact Hfetch |].
        destruct Hexport as [[-> Herr] | (path & Hpath & -> & ->)]; [left; auto |].
        right. exists chapter, resourceMap, path. auto.
Qed.

(** X11: the effects of [downloadAndExport] are calls of [page.Fetch]
    followed by nothing more, in which case it throws, or by the making
    of one directory, one export and the removal of exactly the temporary
    files handed to that export; the removal follows whether the export
    succeeds or fails, and the result is the export's path or its
    error. *)
Theorem downloadAndExport_effects (w : World) (downloadId : jsstring)
    (request : DownloadRequest) (chapters : list Chapter)
    (mangaTitle downloadPath : jsstring) (s : Service) :
  exists fetched rest,
    (downloadAndExport w downloadId request chapters mangaTitle downloadPath s).1.2
      = fetched ++ rest /\
    Forall (fun e => is_fetching e = true) fetched /\
    ((rest = [] /\
      exists e, (downloadAndExport w downloadId request chapters mangaTitle
                   downloadPath s).2 = inl e) \/
     exists chapter resourceMap outputPath,
       In chapter chapters /\
       export_path (default cbz (req_format request)) downloadPath mangaTitle chapter
         = Some outputPath /\
       rest = export_effects (default cbz (req_format request)) resourceMap outputPath
                chapter mangaTitle /\
       (downloadAndExport w downloadId request chapters mangaTitle downloadPath s).2
         = match Export w (default cbz (req_format request)) resourceMap outputPath
                   (Title chapter) mangaTitle with
           | Some errorMessage => inl (JsError errorMessage)
           | None => inr outputPath
           end).
Proof. unfold downloadAndExport. apply chapterLoop_effects. Qed.

(** Every run of the outer loop, whether it returns or throws: the
    chapters it passes over, the one it stops at, and what it does to
    the outside for that one alone. *)
Lemma chapterLoop_one_chapter w downloadId fmt mangaTitle downloadPath totalChapters
    chapters :
  forall chapterIndex s s' log res,
  chapterLoop w downloadId fmt mangaTitle downloadPath totalChapters chapters
    chapterIndex s = (s', log, res) ->
  length (exports log) <= 1 /\
  exists before rest,
    chapters = before ++ rest /\
    Forall (fun c => Update c = None /\ Pages c = []) before /\
    (forall c k shown, In (Fetching c k shown) log -> c = chapterIndex + length before) /\
    match rest with
    | [] =>
        log = [] /\
        res = inl (JsError (str "No chapters were successfully downloaded"))
    | chapter :: after =>
        (Update chapter <> None \/ Pages chapter <> []) /\
        (forall exported, In exported (exports log) ->
           exists outputPath,
             exported = (Title chapter, outputPath) /\
             export_path fmt downloadPath mangaTitle chapter = Some outputPath) /\
        (forall outputPath, res = inr outputPath ->
           Update chapter = None /\ Pages chapter <> [] /\
           exports log = [(Title chapter, outputPath)] /\
           export_path fmt downloadPath mangaTitle chapter = Some outputPath)
    end.
Proof.
  induction chapters as [| chapter rest IH]; intros chapterIndex s s' log res; simpl.
  - intros [= <- <- <-]. split; [simpl; lia |].
    exists [], []. split; [reflexivity |]. split; [constructor |].
    split; [intros c k shown [] |]. split; reflexivity.
  - rewrite bind_run. run_update.
    destruct (Update chapter) as [m |] eqn:Hupd.
    { intros [= <- <- <-]. split; [simpl; lia |].
      exists [], (chapter :: rest). split; [reflexivity |]. split; [constructor |].
      split; [intros c k shown [] |].
      split; [left; congruence |]. split; [intros exported [] | discriminate]. }
    destruct (Pages chapter) as [| page pages] eqn:Hpages.
    + destruct (chapterLoop w downloadId fmt mangaTitle downloadPath totalChapters
                  rest (S chapterIndex) _) as [[s2 log2] r2] eqn:Hrec.
      destruct (IH _ _ _ _ _ Hrec) as (Hle & before & tail & -> & Hskipped & Hfetch & Hstop).
      intros [= <- <- <-]. simpl. split; [exact Hle |].
      exists (chapter :: before), tail. split; [reflexivity |].
      split; [constructor; [split |]; assumption |].
      split; [| exact Hstop].
      intros c k shown Hin. rewrite (Hfetch c k shown Hin). simpl. lia.
    + rewrite bind_run.
      destruct (fetchPages w downloadId chapterIndex totalChapters
                  (length (page :: pages)) (page :: pages) 0 [] _)
        as [[s2 log2] [e | resourceMap]] eqn:Hfetch;
        destruct (fetchPages_log _ _ _ _ _ _ _ _ _ _ _ _ Hfetch) as [Hexp Hidx].
      * intros [= <- <- <-]. simpl. rewrite Hexp. split; [simpl; lia |].
        exists [], (chapter :: rest). split; [reflexivity |]. split; [constructor |].
        split; [intros c k shown Hin; rewrite (Hidx c k shown Hin); simpl; lia |].
        split; [right; rewrite Hpages; discriminate |].
        split; [intros exported [] | discriminate].
      * pose proof (exportChapter_effects w fmt chapter mangaTitle downloadPath
                      resourceMap s2) as Hexport.
        destruct (exportChapter w fmt chapter mangaTitle downloadPath resourceMap s2)
          as [[s3 log3] r3].
        simpl in Hexport. intros [= <- <- <-]. rewrite exports_app, Hexp. simpl.
        destruct Hexport as [[-> [e ->]] | (outputPath & Hpath & -> & ->)].
        -- split; [simpl; lia |].
           exists [], (chapter :: rest). split; [reflexivity |]. split; [constructor |].
           split; [intros c k shown Hin; rewrite app_nil_r in Hin;
                   rewrite (Hidx c k shown Hin); simpl; lia |].
           split; [right; rewrite Hpages; discriminate |].
           split; [intros exported [] | discriminate].
        -- split; [simpl; lia |].
           exists [], (chapter :: rest). split; [reflexivity |]. split; [constructor |].
           split.
           { intros c k shown [Hin | Hin]%in_app_or;
               [rewrite (Hidx c k shown Hin); simpl; lia |].
             unfold export_effects in Hin.
             destruct Hin as [Hin | [Hin | [Hin | []]]]; discriminate. }
           split; [right; rewrite Hpages; discriminate |].
           split.
           { intros exported [<- | []]. exists outputPath. split; [reflexivity | exact Hpath]. }
           intros path Hres. split; [exact Hupd |].
           split; [rewrite Hpages; discriminate |].
           destruct (Export w fmt resourceMap outputPath (Title chapter) mangaTitle);
             [discriminate |].
           injection Hres as <-. split; [reflexivity | exact Hpath].
Qed.

(** C9, as the code has it: in every run of [downloadAndExport], whether
    it returns or throws, at most one chapter is exported.  The run
    passes over the resolved chapters that come first, update and have
    no page; it stops at the first chapter whose update fails or that
    has pages: every page it fetches is a page of that chapter, every
    export it asks for is the export of that chapter to the path built
    for it, and when it returns, that chapter had pages, was exported
    once, and the path returned is the path of that export.  The
    resolved chapters after it are neither fetched nor exported.  When
    every resolved chapter is passed over, nothing is fetched or
    exported and the run throws. *)
Theorem downloadAndExport_first_chapter_with_pages (w : World) (downloadId : jsstring)
    (request : DownloadRequest) (chapters : list Chapter)
    (mangaTitle downloadPath : jsstring) (s s' : Service) (log : list Effect)
    (res : Error + jsstring) :
  downloadAndExport w downloadId request chapters mangaTitle downloadPath s =
    (s', log, res) ->
  length (exports log) <= 1 /\
  exists before rest,
    chapters = before ++ rest /\
    Forall (fun c => Update c = None /\ Pages c = []) before /\
    (forall c k shown, In (Fetching c k shown) log -> c = length before) /\
    match rest with
    | [] =>
        log = [] /\
        res = inl (JsError (str "No chapters were successfully downloaded"))
    | chapter :: after =>
        (Update chapter <> None \/ Pages chapter <> []) /\
        (forall exported, In exported (exports log) ->
           exists outputPath,
             exported = (Title chapter, outputPath) /\
             export_path (default cbz (req_format request)) downloadPath mangaTitle
               chapter = Some outputPath) /\
        (forall outputPath, res = inr outputPath ->
           Update chapter = None /\ Pages chapter <> [] /\
           exports log = [(Title chapter, outputPath)] /\
           export_path (default cbz (req_format request)) downloadPath mangaTitle
             chapter = Some outputPath)
    end.
Proof.
  unfold downloadAndExport. intros Hrun.
  exact (chapterLoop_one_chapter _ _ _ _ _ _ _ _ _ _ _ _ Hrun).
Qed.

Lemma only_fetching log :
  Forall (fun e => is_fetching e = true) log -> exports log = [] /\ removals log = [].
Proof.
  induction 1 as [| e log He _ [IH1 IH2]]; [split; reflexivity |].
  destruct e; try discriminate. split; assumption.
Qed.

(** The inner loop on pages that are all fetched and saved. *)
Lemma fetchPages_saved w downloadId chapterIndex totalChapters pageCount pages :
  forall keys pageIndex resourceMap s,
  Forall2 (saved_as w) pages keys ->
  (fetchPages w downloadId chapterIndex totalChapters pageCount pages pageIndex
     resourceMap s).2
  = inr (resourceMap ++ zip (seq pageIndex (length pages)) keys).
Proof.
  induction pages as [| page rest IH]; intros keys pageIndex resourceMap s Hsaved.
  - inversion Hsaved; subst. simpl. rewrite app_nil_r. reflexivity.
  - inversion Hsaved as [| ? key ? keys' (blob & Hfetch & Hsave) Hrest]; subst.
    simpl. rewrite !bind_run. unfold inspect, perform. simpl.
    rewrite Hfetch, Hsave. rewrite !bind_run. run_update.
    specialize (IH keys' (S pageIndex) (resourceMap ++ [(pageIndex, key)]) s0 Hrest).
    destruct (fetchPages w downloadId chapterIndex totalChapters pageCount rest
                (S pageIndex) (resourceMap ++ [(pageIndex, key)]) s0)
      as [[s2 log2] r2].
    simpl in *. rewrite IH, <- app_assoc. reflexivity.
Qed.

(** The map the inner loop returns holds every page of the chapter, under
    its index and the key it was saved under. *)
Lemma fetchPages_resourceMap w downloadId chapterIndex totalChapters pageCount pages :
  forall pageIndex resourceMap s result,
  (fetchPages w downloadId chapterIndex totalChapters pageCount pages pageIndex
     resourceMap s).2 = inr result ->
  exists keys,
    Forall2 (saved_as w) pages keys /\
    result = resourceMap ++ zip (seq pageIndex (length pages)) keys.
Proof.
  induction pages as [| page rest IH]; intros pageIndex resourceMap s result; simpl.
  - intros [= <-]. exists []. split; [constructor |]. rewrite app_nil_r. reflexivity.
  - rewrite !bind_run. unfold inspect, perform. simpl.
    destruct (Fetch page) as [m | blob] eqn:Hfetch; [discriminate |].
    destruct (SaveTemporary w blob) as [m | tempKey] eqn:Hsave; [discriminate |].
    rewrite !bind_run. run_update.
    specialize (IH (S pageIndex) (resourceMap ++ [(pageIndex, tempKey)]) s0).
    destruct (fetchPages w downloadId chapterIndex totalChapters pageCount rest
                (S pageIndex) (resourceMap ++ [(pageIndex, tempKey)]) s0)
      as [[s2 log2] r2].
    simpl in *. intros ->. destruct (IH result eq_refl) as (keys & Hkeys & ->).
    exists (tempKey :: keys). split.
    + constructor; [exists blob; auto | exact Hkeys].
    + rewrite <- app_assoc. reflexivity.
Qed.

(** The inner loop on a page that fails after pages that do not. *)
Lemma fetchPages_failed w downloadId chapterIndex totalChapters pageCount fetched :
  forall bad rest m pageIndex resourceMap s,
  Forall (fun page => exists key, saved_as w page key) fetched ->
  (Fetch bad = inl m \/
   exists imageBlob, Fetch bad = inr imageBlob /\ SaveTemporary w imageBlob = inl m) ->
  (fetchPages w downloadId chapterIndex totalChapters pageCount (fetched ++ bad :: rest)
     pageIndex resourceMap s).2
  = inl (JsError (str "Failed to download page "
                  ++ JsNumber.integer_to_string
                       (Z.of_nat (pageIndex + length fetched + 1))
                  ++ str ": " ++ m)).
Proof.
  induction fetched as [| page fetched IH];
    intros bad rest m pageIndex resourceMap s Hfetched Hbad; simpl.
  - rewrite !bind_run. unfold inspect, perform. simpl. rewrite Nat.add_0_r.
    destruct Hbad as [-> | (blob & -> & ->)]; reflexivity.
  - inversion Hfetched as [| ? ? (key & blob & Hfetch & Hsave) Hrest]; subst.
    rewrite !bind_run. unfold inspect, perform. simpl.
    rewrite Hfetch, Hsave. rewrite !bind_run. run_update.
    specialize (IH bad rest m (S pageIndex) (resourceMap ++ [(pageIndex, key)]) s0
                  Hrest Hbad).
    destruct (fetchPages w downloadId chapterIndex totalChapters pageCount
                (fetched ++ bad :: rest) (S pageIndex)
                (resourceMap ++ [(pageIndex, key)]) s0) as [[s2 log2] r2].
    simpl in *. rewrite IH. repeat f_equal. lia.
Qed.

(** Chapters that update and have no page are passed over. *)
Lemma chapterLoop_skip w downloadId fmt mangaTitle downloadPath totalChapters before :
  forall chapters chapterIndex s,
  Forall (fun c => Update c = None /\ Pages c = []) before ->
  exists s1,
    chapterLoop w downloadId fmt mangaTitle downloadPath totalChapters
      (before ++ chapters) chapterIndex s
    = chapterLoop w downloadId fmt mangaTitle downloadPath totalChapters
        chapters (chapterIndex + length before) s1.
Proof.
  induction before as [| c before IH]; intros chapters chapterIndex s Hskip.
  - exists s. simpl. rewrite Nat.add_0_r. reflexivity.
  - inversion Hskip as [| ? ? [Hupdate Hpages] Hrest]; subst.
    simpl. rewrite bind_run. run_update. rewrite Hupdate, Hpages.
    destruct (IH chapters (S chapterIndex) s0 Hrest) as [s1 Heq].
    exists s1. rewrite Heq.
    replace (chapterIndex + S (length before)) with (S chapterIndex + length before) by lia.
    destruct (chapterLoop _ _ _ _ _ _ _ _ s1) as [[s2 log2] r2]. reflexivity.
Qed.

Lemma chapterLoop_exporting w downloadId fmt mangaTitle downloadPath totalChapters chapters :
  forall chapterIndex s fmt' resourceMap outputPath chapterTitle mangaTitle',
  In (Exporting fmt' resourceMap outputPath chapterTitle mangaTitle')
     (chapterLoop w downloadId fmt mangaTitle downloadPath totalChapters chapters
        chapterIndex s).1.2 ->
  exists chapter keys,
    In chapter chapters /\ chapterTitle = Title chapter /\
    Forall2 (saved_as w) (Pages chapter) keys /\
    resourceMap = zip (seq 0 (length (Pages chapter))) keys.
Proof.
  induction chapters as [| chapter rest IH];
    intros chapterIndex s fmt' rm path title mt; simpl; [intros [] |].
  rewrite bind_run. run_update.
  destruct (Update chapter) as [m |]; [intros [] |].
  destruct (Pages chapter) as [| page pages] eqn:Hpages.
  - specialize (IH (S chapterIndex) s0 fmt' rm path title mt).
    destruct (chapterLoop w downloadId fmt mangaTitle downloadPath totalChapters
                rest (S chapterIndex) s0) as [[s2 log2] r2].
    simpl in *. intros Hin. destruct (IH Hin) as (chosen & keys & Hc & Hrest).
    exists chosen, keys. split; [right; exact Hc | exact Hrest].
  - rewrite bind_run.
    pose proof (fetchPages_effects w downloadId chapterIndex totalChapters
                  (length (page :: pages)) (page :: pages) 0 [] s0) as Hfetch.
    pose proof (fetchPages_resourceMap w downloadId chapterIndex totalChapters
                  (length (page :: pages)) (page :: pages) 0 [] s0) as Hmap.
    destruct (fetchPages w downloadId chapterIndex totalChapters
                (length (page :: pages)) (page :: pages) 0 [] s0)
      as [[s2 log2] [e | resourceMap]].
    + simpl in *. intros Hin. rewrite Forall_forall in Hfetch.
      apply list_elem_of_In, Hfetch in Hin. discriminate.
    + pose proof (exportChapter_effects w fmt chapter mangaTitle downloadPath
                    resourceMap s2) as Hexport.
      destruct (exportChapter w fmt chapter mangaTitle downloadPath resourceMap s2)
        as [[s3 log3] r3].
      simpl in *. intros [Hin | Hin]%in_app_or.
      * rewrite Forall_forall in Hfetch.
        apply list_elem_of_In, Hfetch in Hin. discriminate.
      * destruct Hexport as [[-> _] | (out & _ & -> & _)]; [destruct Hin |].
        destruct Hin as [Heq | [Heq | [Heq | []]]]; try discriminate.
        injection Heq as <- <- <- <- <-.
        destruct (Hmap resourceMap eq_refl) as (keys & Hkeys & ->).
        exists chapter, keys. rewrite Hpages. auto.
Qed.

(** X12: the export [downloadAndExport] asks for is that of one of the
    resolved chapters and is handed every page of it: the map of
    temporary files has an entry for each index from 0 to the number of
    pages less one, in this order, with the key that page was saved
    under. *)
Theorem export_holds_every_page (w : World) (downloadId : jsstring)
    (request : DownloadRequest) (chapters : list Chapter)
    (mangaTitle downloadPath : jsstring) (s : Service)
    (fmt : Format) (resourceMap : list (nat * jsstring))
    (outputPath chapterTitle mangaTitle' : jsstring) :
  In (Exporting fmt resourceMap outputPath chapterTitle mangaTitle')
     (downloadAndExport w downloadId request chapters mangaTitle downloadPath s).1.2 ->
  exists chapter keys,
    In chapter chapters /\ chapterTitle = Title chapter /\
    Forall2 (saved_as w) (Pages chapter) keys /\
    resourceMap = zip (seq 0 (length (Pages chapter))) keys.
Proof. unfold downloadAndExport. apply chapterLoop_exporting. Qed.

(** X13: a page that cannot be fetched or saved fails the whole
    download: [downloadAndExport] throws "Failed to download page N: "
    followed by the message of the failure, N counting the pages of the
    chapter from 1; nothing is exported, and the temporary files of the
    pages saved before are not removed. *)
Theorem failed_page_fails_download (w : World) (downloadId : jsstring)
    (request : DownloadRequest) (before after : list Chapter) (chapter : Chapter)
    (fetched rest : list PageEntry) (bad : PageEntry) (m : jsstring)
    (mangaTitle downloadPath : jsstring) (s : Service) :
  Forall (fun c => Update c = None /\ Pages c = []) before ->
  Update chapter = None ->
  Pages chapter = fetched ++ bad :: rest ->
  Forall (fun page => exists key, saved_as w page key) fetched ->
  (Fetch bad = inl m \/
   exists imageBlob, Fetch bad = inr imageBlob /\ SaveTemporary w imageBlob = inl m) ->
  (downloadAndExport w downloadId request (before ++ chapter :: after)
     mangaTitle downloadPath s).2
  = inl (JsError (str "Failed to download page "
                  ++ JsNumber.integer_to_string (Z.of_nat (length fetched + 1))
                  ++ str ": " ++ m)) /\
  exports (downloadAndExport w downloadId request (before ++ chapter :: after)
             mangaTitle downloadPath s).1.2 = [] /\
  removals (downloadAndExport w downloadId request (before ++ chapter :: after)
              mangaTitle downloadPath s).1.2 = [].
Proof.
  intros Hskip Hupdate Hpages Hfetched Hbad. unfold downloadAndExport.
  destruct (chapterLoop_skip w downloadId (default cbz (req_format request)) mangaTitle
              downloadPath (length (before ++ chapter :: after)) before
              (chapter :: after) 0 s Hskip) as [s1 ->].
  simpl. rewrite bind_run. run_update. rewrite Hupdate, Hpages.
  destruct (fetched ++ bad :: rest) as [| page pages] eqn:Hlist;
    [destruct fetched; discriminate |].
  rewrite bind_run. rewrite <- Hlist.
  pose proof (fetchPages_effects w downloadId (length before)
                (length (before ++ chapter :: after)) (length (fetched ++ bad :: rest))
                (fetched ++ bad :: rest) 0 [] s0) as Hlog.
  pose proof (fetchPages_failed w downloadId (length before)
                (length (before ++ chapter :: after)) (length (fetched ++ bad :: rest))
                fetched bad rest m 0 [] s0 Hfetched Hbad) as Hres.
  destruct (fetchPages w downloadId (length before)
              (length (before ++ chapter :: after)) (length (fetched ++ bad :: rest))
              (fetched ++ bad :: rest) 0 [] s0) as [[s2 log2] r2].
  simpl in *. rewrite Hres. split; [reflexivity |]. apply only_fetching. exact Hlog.
Qed.

Lemma chapterLoop_unsupported w downloadId fmt mangaTitle downloadPath totalChapters chapters :
  forall chapterIndex s,
  fmt = pdf \/ fmt = epub ->
  (forall c, In c chapters ->
     Update c = None /\ exists keys, Forall2 (saved_as w) (Pages c) keys) ->
  Exists (fun c => Pages c <> []) chapters ->
  (chapterLoop w downloadId fmt mangaTitle downloadPath totalChapters chapters
     chapterIndex s).2
  = inl (JsError (str "Unsupported format: " ++ format_name fmt)).
Proof.
  induction chapters as [| chapter rest IH]; intros chapterIndex s Hfmt Hgood Hsome;
    [inversion Hsome |].
  simpl. rewrite bind_run. run_update.
  destruct (Hgood chapter ltac:(left; reflexivity)) as [-> [keys Hkeys]].
  destruct (Pages chapter) as [| page pages] eqn:Hpages.
  - assert (Hrest : Exists (fun c => Pages c <> []) rest).
    { inversion Hsome as [? ? Hhead | ? ? Htail]; subst; [congruence | exact Htail]. }
    specialize (IH (S chapterIndex) s0 Hfmt
                  (fun c Hc => Hgood c (or_intror Hc)) Hrest).
    destruct (chapterLoop w downloadId fmt mangaTitle downloadPath totalChapters
                rest (S chapterIndex) s0) as [[s2 log2] r2].
    exact IH.
  - rewrite bind_run.
    pose proof (fetchPages_saved w downloadId chapterIndex totalChapters
                  (length (page :: pages)) (page :: pages) keys 0 [] s0 Hkeys) as Hres.
    destruct (fetchPages w downloadId chapterIndex totalChapters
                (length (page :: pages)) (page :: pages) 0 [] s0)
      as [[s2 log2] r2].
    simpl in Hres. subst r2.
    unfold exportChapter. rewrite !bind_run. unfold throw.
    destruct Hfmt as [-> | ->]; reflexivity.
Qed.

(** X14: a request for the format pdf or epub never produces a file:
    [downloadAndExport] always throws, makes no directory, asks for no
    export and removes no temporary file; when nothing else fails and
    some resolved chapter has pages, the pages of the first such chapter
    are fetched and saved first and the error is "Unsupported format: "
    followed by the format. *)
Theorem unsupported_format_never_exports (w : World) (downloadId : jsstring)
    (request : DownloadRequest) (chapters : list Chapter)
    (mangaTitle downloadPath : jsstring) (s : Service) :
  req_format request = Some pdf \/ req_format request = Some epub ->
  (exists e, (downloadAndExport w downloadId request chapters mangaTitle
                downloadPath s).2 = inl e) /\
  Forall (fun e => is_fetching e = true)
    (downloadAndExport w downloadId request chapters mangaTitle downloadPath s).1.2 /\
  ((forall c, In c chapters ->
      Update c = None /\ exists keys, Forall2 (saved_as w) (Pages c) keys) ->
   Exists (fun c => Pages c <> []) chapters ->
   (downloadAndExport w downloadId request chapters mangaTitle downloadPath s).2
   = inl (JsError (str "Unsupported format: "
                   ++ format_name (default cbz (req_format request))))).
Proof.
  intros Hfmt.
  assert (Hfmt' : default cbz (req_format request) = pdf
                  \/ default cbz (req_format request) = epub).
  { destruct Hfmt as [-> | ->]; [left | right]; reflexivity. }
  unfold downloadAndExport.
  destruct (chapterLoop_effects w downloadId (default cbz (req_format request))
              mangaTitle downloadPath (length chapters) chapters 0 s)
    as (fetched & rest & Hlog & Hfetched & Hend).
  assert (Hnone : forall c,
            export_path (default cbz (req_format request)) downloadPath mangaTitle c
            = None).
  { intros c. destruct Hfmt' as [-> | ->]; reflexivity. }
  destruct Hend as [[-> Herr] | (chapter & rm & path & _ & Hpath & _)];
    [| rewrite Hnone in Hpath; discriminate].
  rewrite app_nil_r in Hlog. rewrite Hlog.
  split; [exact Herr |]. split; [exact Hfetched |].
  intros Hgood Hsome. apply chapterLoop_unsupported; assumption.
Qed.

(** X15: when every resolved chapter updates and has no page,
    [downloadAndExport] skips them all, fetches nothing and throws "No
    chapters were successfully downloaded". *)
Theorem nothing_to_download (w : World) (downloadId : jsstring)
    (request : DownloadRequest) (chapters : list Chapter)
    (mangaTitle downloadPath : jsstring) (s : Service) :
  Forall (fun c => Update c = None /\ Pages c = []) chapters ->
  (downloadAndExport w downloadId request chapters mangaTitle downloadPath s).2
  = inl (JsError (str "No chapters were successfully downloaded")) /\
  (downloadAndExport w downloadId request chapters mangaTitle downloadPath s).1.2 = [].
Proof.
  intros Hskip. unfold downloadAndExport.
  destruct (chapterLoop_skip w downloadId (default cbz (req_format request)) mangaTitle
              downloadPath (length chapters) chapters [] 0 s Hskip) as [s1 Heq].
  rewrite app_nil_r in Heq. rewrite Heq. split; reflexivity.
Qed.

(** X16: a chapter whose update fails is not skipped the way a chapter
    without pages is: [downloadAndExport] throws the error of the update,
    having fetched nothing, and the resolved chapters after it are not
    tried. *)
Theorem failed_update_fails_download (w : World) (downloadId : jsstring)
    (request : DownloadRequest) (before after : list Chapter) (chapter : Chapter)
    (m : jsstring) (mangaTitle downloadPath : jsstring) (s : Service) :
  Forall (fun c => Update c = None /\ Pages c = []) before ->
  Update chapter = Some m ->
  (downloadAndExport w downloadId request (before ++ chapter :: after)
     mangaTitle downloadPath s).2 = inl (JsError m) /\
  (downloadAndExport w downloadId request (before ++ chapter :: after)
     mangaTitle downloadPath s).1.2 = [].
Proof.
  intros Hskip Hupdate. unfold downloadAndExport.
  destruct (chapterLoop_skip w downloadId (default cbz (req_format request)) mangaTitle
              downloadPath (length (before ++ chapter :: after)) before
              (chapter :: after) 0 s Hskip) as [s1 ->].
  simpl. rewrite bind_run. run_update. rewrite Hupdate. split; reflexivity.
Qed.

(** *** Processing works on one download *)

Lemma touches_ret downloadId {A} (a : A) : touches_only downloadId (mret a).
Proof. intros s. simpl. auto. Qed.

Lemma touches_throw downloadId {A} e : touches_only downloadId (@throw A e).
Proof. intros s. simpl. auto. Qed.

Lemma touches_perform downloadId e : touches_only downloadId (perform e).
Proof. intros s. simpl. auto. Qed.

Lemma touches_inspect downloadId {A} (f : Service -> A) :
  touches_only downloadId (inspect f).
Proof. intros s. simpl. auto. Qed.

Lemma touches_now downloadId w : touches_only downloadId (now w).
Proof. intros s. simpl. auto. Qed.

Lemma touches_bind downloadId {A B} (m : M A) (k : A -> M B) :
  touches_only downloadId m -> (forall a, touches_only downloadId (k a)) ->
  touches_only downloadId (m ≫= k).
Proof.
  intros Hm Hk s. rewrite bind_run.
  destruct (Hm s) as (Hd1 & Hk1 & Ho1).
  destruct (m s) as [[s1 log1] [e | a]]; simpl in *; [auto |].
  destruct (Hk a s1) as (Hd2 & Hk2 & Ho2).
  destruct (k a s1) as [[s2 log2] r]. simpl in *.
  split; [congruence |]. split; [auto |].
  intros ref Href. rewrite Ho2 by (rewrite Hd1; exact Href). auto.
Qed.

Lemma touches_try_catch downloadId {A} (m : M A) (handler : Error -> M A) :
  touches_only downloadId m -> (forall e, touches_only downloadId (handler e)) ->
  touches_only downloadId (try_catch m handler).
Proof.
  intros Hm Hh s. unfold try_catch.
  destruct (Hm s) as (Hd1 & Hk1 & Ho1).
  destruct (m s) as [[s1 log1] [e | a]]; simpl in *; [| auto].
  destruct (Hh e s1) as (Hd2 & Hk2 & Ho2).
  destruct (handler e s1) as [[s2 log2] r]. simpl in *.
  split; [congruence |]. split; [auto |].
  intros ref Href. rewrite Ho2 by (rewrite Hd1; exact Href). auto.
Qed.

Lemma touches_finally downloadId {A} (m : M A) (cleanup : M unit) :
  touches_only downloadId m -> touches_only downloadId cleanup ->
  touches_only downloadId (finally m cleanup).
Proof.
  intros Hm Hc s. unfold finally.
  destruct (Hm s) as (Hd1 & Hk1 & Ho1).
  destruct (m s) as [[s1 log1] r]; simpl in *.
  destruct (Hc s1) as (Hd2 & Hk2 & Ho2).
  destruct (cleanup s1) as [[s2 log2] r2]. simpl in *.
  split; [congruence |]. split; [auto |].
  intros ref Href. rewrite Ho2 by (rewrite Hd1; exact Href). auto.
Qed.

Lemma touches_updateDownloadStatus downloadId w updates :
  touches_only downloadId (updateDownloadStatus w downloadId updates).
Proof.
  intros s. unfold updateDownloadStatus.
  destruct (downloads s !! downloadId) as [ref |] eqn:Href; [| simpl; auto].
  destruct (objects s !! ref) as [download |] eqn:Hobj; [| simpl; auto].
  simpl. split; [apply insert_id; exact Href |]. split.
  - intros r Hr. destruct (decide (ref = r)) as [<- | Hne].
    + rewrite lookup_insert_eq. eauto.
    + rewrite lookup_insert_ne by exact Hne. exact Hr.
  - intros r Hr. apply lookup_insert_ne. congruence.
Qed.

Lemma touches_fetchPages downloadId w chapterIndex totalChapters pageCount pages :
  forall pageIndex resourceMap,
  touches_only downloadId
    (fetchPages w downloadId chapterIndex totalChapters pageCount pages pageIndex
       resourceMap).
Proof.
  induction pages as [| page rest IH]; intros pageIndex resourceMap; simpl.
  - apply touches_ret.
  - apply touches_bind; [apply touches_inspect | intros shown].
    apply touches_bind; [apply touches_perform | intros _].
    destruct (Fetch page) as [m | blob]; [apply touches_throw |].
    destruct (SaveTemporary w blob) as [m | tempKey]; [apply touches_throw |].
    apply touches_bind; [apply touches_updateDownloadStatus | intros _; apply IH].
Qed.

Lemma touches_exportChapter downloadId w fmt chapter mangaTitle downloadPath resourceMap :
  touches_only downloadId
    (exportChapter w fmt chapter mangaTitle downloadPath resourceMap).
Proof.
  unfold exportChapter.
  apply touches_bind;
    [destruct fmt; (apply touches_ret || apply touches_throw) | intros outputPath].
  apply touches_bind;
    [destruct (mkdir w _); (apply touches_throw || apply touches_perform) | intros _].
  apply touches_bind; [| intros _; apply touches_ret].
  apply touches_finally; [| apply touches_perform].
  apply touches_bind; [apply touches_perform | intros _].
  destruct (Export w _ _ _ _ _); (apply touches_throw || apply touches_ret).
Qed.

Lemma touches_chapterLoop downloadId w fmt mangaTitle downloadPath totalChapters chapters :
  forall chapterIndex,
  touches_only downloadId
    (chapterLoop w downloadId fmt mangaTitle downloadPath totalChapters chapters
       chapterIndex).
Proof.
  induction chapters as [| chapter rest IH]; intros chapterIndex; simpl.
  - apply touches_throw.
  - apply touches_bind; [apply touches_updateDownloadStatus | intros _].
    destruct (Update chapter); [apply touches_throw |].
    destruct (Pages chapter) as [| page pages]; [apply IH |].
    apply touches_bind; [apply touches_fetchPages | intros resourceMap].
    apply touches_exportChapter.
Qed.

Lemma touches_processDownload_rest downloadId w request downloadPath :
  touches_only downloadId (processDownload_rest w downloadId request downloadPath).
Proof.
  unfold processDownload_rest.
  destruct (find _ (WebsitePlugins w)) as [plugin |]; [| apply touches_throw].
  destruct (find _ (plugin_Entries plugin)) as [manga |]; [| apply touches_throw].
  destruct (filter _ (manga_Entries manga)) as [| c cs]; [apply touches_throw |].
  apply touches_bind; [apply touches_updateDownloadStatus | intros _].
  apply touches_bind; [apply touches_chapterLoop | intros _].
  apply touches_bind; [apply touches_now | intros completed_at].
  apply touches_updateDownloadStatus.
Qed.

Lemma touches_settle downloadId w request :
  touches_only downloadId (settle w downloadId request).
Proof.
  unfold settle. apply touches_try_catch; [apply touches_processDownload_rest |].
  intros e. apply touches_updateDownloadStatus.
Qed.

Lemma touches_record_of downloadId {A} (m : M A) s d :
  touches_only downloadId m -> record_of s downloadId = Some d ->
  exists d', record_of (m s).1.1 downloadId = Some d'.
Proof.
  intros Hm Hrec. destruct (Hm s) as (Hd & Hk & _).
  unfold record_of in *. rewrite Hd.
  destruct (downloads s !! downloadId) as [ref |]; [| discriminate].
  simpl in *. destruct (Hk ref) as [d' Hd']; eauto.
Qed.

(** *** What processing changes in a record *)

Section Preserves.
Variable R : DownloadStatus -> DownloadStatus -> Prop.
Hypothesis R_refl : forall d, R d d.
Hypothesis R_trans : forall d1 d2 d3, R d1 d2 -> R d2 d3 -> R d1 d3.

Lemma preserves_same {A} (m : M A) :
  (forall s, objects (m s).1.1 = objects s) -> preserves R m.
Proof. intros Hsame s ref d Hd. exists d. rewrite Hsame. auto. Qed.

Lemma preserves_bind {A B} (m : M A) (k : A -> M B) :
  preserves R m -> (forall a, preserves R (k a)) -> preserves R (m ≫= k).
Proof.
  intros Hm Hk s ref d Hd. rewrite bind_run.
  destruct (Hm s ref d Hd) as (d1 & Hd1 & HR1).
  destruct (m s) as [[s1 log1] [e | a]]; simpl in *; [eauto |].
  destruct (Hk a s1 ref d1 Hd1) as (d2 & Hd2 & HR2).
  destruct (k a s1) as [[s2 log2] r]. simpl in *. eauto.
Qed.

Lemma preserves_try_catch {A} (m : M A) (handler : Error -> M A) :
  preserves R m -> (forall e, preserves R (handler e)) -> preserves R (try_catch m handler).
Proof.
  intros Hm Hh s ref d Hd. unfold try_catch.
  destruct (Hm s ref d Hd) as (d1 & Hd1 & HR1).
  destruct (m s) as [[s1 log1] [e | a]]; simpl in *; [| eauto].
  destruct (Hh e s1 ref d1 Hd1) as (d2 & Hd2 & HR2).
  destruct (handler e s1) as [[s2 log2] r]. simpl in *. eauto.
Qed.

Lemma preserves_finally {A} (m : M A) (cleanup : M unit) :
  preserves R m -> preserves R cleanup -> preserves R (finally m cleanup).
Proof.
  intros Hm Hc s ref d Hd. unfold finally.
  destruct (Hm s ref d Hd) as (d1 & Hd1 & HR1).
  destruct (m s) as [[s1 log1] r]; simpl in *.
  destruct (Hc s1 ref d1 Hd1) as (d2 & Hd2 & HR2).
  destruct (cleanup s1) as [[s2 log2] r2]. simpl in *. eauto.
Qed.

Lemma preserves_updateDownloadStatus w downloadId updates :
  (forall d now, R d (assign d updates now)) ->
  preserves R (updateDownloadStatus w downloadId updates).
Proof.
  intros Hassign s ref d Hd. unfold updateDownloadStatus.
  destruct (downloads s !! downloadId) as [r |]; [| simpl; eauto].
  destruct (objects s !! r) as [download |] eqn:Hobj; [| simpl; eauto].
  simpl. destruct (decide (r = ref)) as [-> | Hne].
  - rewrite lookup_insert_eq. assert (download = d) as -> by congruence. eauto.
  - rewrite lookup_insert_ne by exact Hne. eauto.
Qed.

(** Inside [downloadAndExport], records change only as the updates of
    progress change them. *)
Hypothesis R_progress : forall d updates now,
  (forall a, In a updates -> In (field_of a) progress_fields) ->
  R d (assign d updates now).

Lemma preserves_fetchPages w downloadId chapterIndex totalChapters pageCount pages :
  forall pageIndex resourceMap,
  preserves R (fetchPages w downloadId chapterIndex totalChapters pageCount pages
                 pageIndex resourceMap).
Proof.
  induction pages as [| page rest IH]; intros pageIndex resourceMap; simpl.
  - apply preserves_same. reflexivity.
  - apply preserves_bind; [apply preserves_same; reflexivity | intros shown].
    apply preserves_bind; [apply preserves_same; reflexivity | intros _].
    destruct (Fetch page) as [m | blob]; [apply preserves_same; reflexivity |].
    destruct (SaveTemporary w blob) as [m | tempKey];
      [apply preserves_same; reflexivity |].
    apply preserves_bind; [| intros _; apply IH].
    apply preserves_updateDownloadStatus. intros d now. apply R_progress.
    intros a [<- | []]. right. left. reflexivity.
Qed.

Lemma preserves_chapterLoop w downloadId fmt mangaTitle downloadPath totalChapters chapters :
  forall chapterIndex,
  preserves R (chapterLoop w downloadId fmt mangaTitle downloadPath totalChapters
                 chapters chapterIndex).
Proof.
  induction chapters as [| chapter rest IH]; intros chapterIndex; simpl.
  - apply preserves_same. reflexivity.
  - apply preserves_bind.
    { apply preserves_updateDownloadStatus. intros d now. apply R_progress.
      intros a [<- | [<- | []]]; [left | right; left]; reflexivity. }
    intros _. destruct (Update chapter); [apply preserves_same; reflexivity |].
    destruct (Pages chapter) as [| page pages]; [apply IH |].
    apply preserves_bind; [apply preserves_fetchPages | intros resourceMap].
    apply preserves_same. intros s.
    pose proof (exportChapter_state w fmt chapter mangaTitle downloadPath resourceMap s)
      as Hstate.
    destruct (exportChapter w fmt chapter mangaTitle downloadPath resourceMap s)
      as [[s' log] res].
    rewrite (Hstate s' log res eq_refl). reflexivity.
Qed.

End Preserves.

Lemma unchanged_outside_refl fields d : unchanged_outside fields d d.
Proof. intros f _ _. reflexivity. Qed.

Lemma unchanged_outside_trans fields d1 d2 d3 :
  unchanged_outside fields d1 d2 -> unchanged_outside fields d2 d3 ->
  unchanged_outside fields d1 d3.
Proof. intros H12 H23 f Hf Hu. rewrite H23, H12 by assumption. reflexivity. Qed.

Lemma unchanged_outside_assign fields d updates now :
  (forall a, In a updates -> In (field_of a) fields) ->
  unchanged_outside fields d (assign d updates now).
Proof.
  intros Hnames f Hf Hu. apply assign_frame; [exact Hu |].
  intros Hin. apply in_map_iff in Hin as (a & <- & Ha).
  apply Hf, list_elem_of_In, Hnames, Ha.
Qed.

(** [downloadAndExport] changes nothing in a record but the current
    chapter, the progress and the time of the update. *)
Lemma chapterLoop_unchanged_outside w downloadId fmt mangaTitle downloadPath
    totalChapters chapters chapterIndex s d :
  record_of s downloadId = Some d ->
  exists d',
    record_of (chapterLoop w downloadId fmt mangaTitle downloadPath totalChapters
                 chapters chapterIndex s).1.1 downloadId = Some d' /\
    unchanged_outside progress_fields d d'.
Proof.
  intros Hrec.
  destruct (touches_chapterLoop downloadId w fmt mangaTitle downloadPath totalChapters
              chapters chapterIndex s) as (Hd & _ & _).
  unfold record_of in *. rewrite Hd.
  destruct (downloads s !! downloadId) as [ref |]; [| discriminate]. simpl in *.
  apply (preserves_chapterLoop (unchanged_outside progress_fields)
           (unchanged_outside_refl _) (unchanged_outside_trans _)
           (unchanged_outside_assign _)). exact Hrec.
Qed.

(** *** How processing ends *)

Lemma unchanged_progress_fields d d' :
  unchanged_outside progress_fields d d' ->
  status d' = status d /\ mangaTitle d' = mangaTitle d /\
  downloadPath d' = downloadPath d /\ mangaId d' = mangaId d /\ error d' = error d.
Proof.
  intros Hsame.
  assert (Hget : forall f, f ∉ progress_fields -> f <> FupdatedAt -> get f d' = get f d)
    by exact Hsame.
  unfold progress_fields in Hget.
  pose proof (Hget Fstatus) as H1. pose proof (Hget FmangaTitle) as H2.
  pose proof (Hget FdownloadPath) as H3. pose proof (Hget FmangaId) as H4.
  pose proof (Hget Ferror) as H5. simpl in *.
  repeat split;
    [injection H1 | injection H2 | injection H3 | injection H4 | injection H5];
    auto; try discriminate;
    intros Hin; repeat (apply elem_of_cons in Hin as [Hin | Hin]; [discriminate |]);
    apply elem_of_nil in Hin; exact Hin.
Qed.

(** Processing that does not throw has exported one chapter and leaves
    the record completed. *)
Lemma processDownload_rest_done w downloadId request downloadPath' s s' log d :
  record_of s downloadId = Some d ->
  processDownload_rest w downloadId request downloadPath' s = (s', log, inr tt) ->
  exists d' plugin manga chapter outputPath,
    find (fun p => bool_decide (plugin_Identifier p = req_sourceId request))
         (WebsitePlugins w) = Some plugin /\
    find (fun m => bool_decide (manga_Identifier m = req_mangaId request))
         (plugin_Entries plugin) = Some manga /\
    In chapter (manga_Entries manga) /\
    exports log = [(Title chapter, outputPath)] /\
    export_path (default cbz (req_format request)) downloadPath' (manga_Title manga)
      chapter = Some outputPath /\
    record_of s' downloadId = Some d' /\
    status d' = completed /\ progress d' = 100%Z /\
    fileUrl d' = Some (str "/api/v1/downloads/" ++ downloadId ++ str "/file") /\
    is_Some (completedAt d') /\
    mangaTitle d' = Some (manga_Title manga) /\
    downloadPath d' = downloadPath d /\ mangaId d' = mangaId d /\ error d' = error d.
Proof.
  intros Hrec. unfold processDownload_rest.
  destruct (find _ (WebsitePlugins w)) as [plugin |] eqn:Hplugin; [| discriminate].
  destruct (find _ (plugin_Entries plugin)) as [manga |] eqn:Hmanga; [| discriminate].
  destruct (filter _ (manga_Entries manga)) as [| c cs] eqn:Hfilter; [discriminate |].
  rewrite bind_run.
  match goal with
  | |- context [updateDownloadStatus ?w ?i ?u s] =>
      destruct (record_of_update w i u s d Hrec) as (s1 & -> & Hrec1)
  end.
  rewrite bind_run. unfold downloadAndExport.
  pose proof (chapterLoop_unchanged_outside w downloadId
                (default cbz (req_format request)) (manga_Title manga) downloadPath'
                (length (c :: cs)) (c :: cs) 0 s1 _ Hrec1) as (d2 & Hrec2 & Hsame).
  pose proof (chapterLoop_log w downloadId (default cbz (req_format request))
                (manga_Title manga) downloadPath' (length (c :: cs)) (c :: cs) 0 s1)
    as Hlog.
  destruct (chapterLoop w downloadId (default cbz (req_format request))
              (manga_Title manga) downloadPath' (length (c :: cs)) (c :: cs) 0 s1)
    as [[s2 log2] [e | outputPath]]; [discriminate |].
  simpl in Hrec2.
  destruct (Hlog s2 log2 (inr outputPath) eq_refl) as [_ Hok].
  destruct (Hok outputPath eq_refl)
    as (before & chapter & after & Hchapters & _ & _ & Hexports & Hpath & _).
  rewrite bind_run. unfold now. simpl.
  match goal with
  | |- context [updateDownloadStatus ?w ?i ?u ?s3] =>
      destruct (record_of_update w i u s3 d2 Hrec2) as (s4 & -> & Hrec4)
  end.
  intros [= <- <-].
  apply unchanged_progress_fields in Hsame as (_ & Htitle & Hdir & Hid & Herror).
  eexists _, plugin, manga, chapter, outputPath.
  split; [reflexivity |]. split; [exact Hmanga |]. split.
  { assert (Hin : In chapter (c :: cs)) by (rewrite Hchapters; apply in_elt).
    rewrite <- Hfilter in Hin.
    apply list_elem_of_In, list_elem_of_filter in Hin as [_ Hin].
    apply list_elem_of_In. exact Hin. }
  split; [rewrite !app_nil_r; exact Hexports |]. split; [exact Hpath |].
  split; [exact Hrec4 |]. simpl.
  split; [reflexivity |]. split; [reflexivity |]. split; [reflexivity |].
  split; [eauto |]. split; [rewrite Htitle; reflexivity |].
  split; [rewrite Hdir; reflexivity |]. split; [rewrite Hid; reflexivity |].
  rewrite Herror. reflexivity.
Qed.

(** X17: processing never leaves a download half-way: the handler given
    to [.catch] takes every error, and when processing is over the
    download that is still in the table is either [completed], with
    progress 100, the time of completion and the URL of its file, or
    [failed], with the message of the error that was thrown. *)
Theorem settle_completes_or_fails (w : World) (downloadId : jsstring)
    (request : DownloadRequest) (s : Service) (d : DownloadStatus) :
  record_of s downloadId = Some d ->
  (settle w downloadId request s).2 = inr tt /\
  exists d',
    record_of (settle w downloadId request s).1.1 downloadId = Some d' /\
    match (processDownload_rest w downloadId request (download_path w request) s).2 with
    | inr _ =>
        status d' = completed /\ progress d' = 100%Z /\ is_Some (completedAt d') /\
        fileUrl d' = Some (str "/api/v1/downloads/" ++ downloadId ++ str "/file")
    | inl e => status d' = failed /\ error d' = Some (message e)
    end.
Proof.
  intros Hrec. unfold settle, try_catch.
  pose proof (touches_record_of downloadId
                (processDownload_rest w downloadId request (download_path w request)) s d
                (touches_processDownload_rest downloadId w request _) Hrec) as [d1 Hrec1].
  pose proof (processDownload_rest_done w downloadId request (download_path w request) s)
    as Hdone.
  destruct (processDownload_rest w downloadId request (download_path w request) s)
    as [[s1 log1] [e | []]]; simpl in *.
  - match goal with
    | |- context [updateDownloadStatus ?w ?i ?u s1] =>
        destruct (record_of_update w i u s1 d1 Hrec1) as (s2 & -> & Hrec2)
    end.
    simpl. split; [reflexivity |]. eexists. split; [exact Hrec2 |].
    split; reflexivity.
  - split; [reflexivity |].
    destruct (Hdone s1 log1 d Hrec eq_refl)
      as (d' & plugin & manga & chapter & outputPath & _ & _ & _ & _ & _ & Hrec'
          & Hstatus & Hprogress & Hurl & Hat & _ & _ & _ & Herror).
    exists d'. auto 10.
Qed.

(** X18: when the source of the request is not registered, or the manga
    is not in the source's catalog, processing fetches nothing and
    exports nothing, and the download ends [failed] with the message of
    [Errors.SourceNotFound] or of [Errors.MangaNotFound]. *)
Theorem unknown_source_or_manga_fails (w : World) (downloadId : jsstring)
    (request : DownloadRequest) (s : Service) (d : DownloadStatus) :
  record_of s downloadId = Some d ->
  find (fun p => bool_decide (plugin_Identifier p = req_sourceId request))
       (WebsitePlugins w) = None \/
  (exists plugin,
     find (fun p => bool_decide (plugin_Identifier p = req_sourceId request))
          (WebsitePlugins w) = Some plugin /\
     find (fun m => bool_decide (manga_Identifier m = req_mangaId request))
          (plugin_Entries plugin) = None) ->
  exists s' d',
    settle w downloadId request s = (s', [], inr tt) /\
    record_of s' downloadId = Some d' /\ status d' = failed /\
    error d' =
      Some (message
              match find (fun p => bool_decide (plugin_Identifier p = req_sourceId request))
                         (WebsitePlugins w) with
              | None => Errors SourceNotFound (req_sourceId request)
              | Some _ => Errors MangaNotFound (req_mangaId request)
              end).
Proof.
  intros Hrec Hunknown. unfold settle, try_catch, processDownload_rest.
  destruct Hunknown as [-> | (plugin & -> & ->)]; unfold throw.
  all: match goal with
       | |- context [updateDownloadStatus ?w ?i ?u ?s0] =>
           destruct (record_of_update w i u s0 d Hrec) as (s1 & -> & Hrec1)
       end.
  all: exists s1; eexists; split; [reflexivity |]; split; [exact Hrec1 |].
  all: split; reflexivity.
Qed.

(** X19: a download that is no longer in the table, deleted while it was
    being processed, is not brought back: the rest of the processing and
    the handler of its failure leave the table and every record as they
    are. *)
Theorem deleted_download_is_not_revived (w : World) (downloadId : jsstring)
    (request : DownloadRequest) (s : Service) :
  downloads s !! downloadId = None ->
  downloads (settle w downloadId request s).1.1 = downloads s /\
  objects (settle w downloadId request s).1.1 = objects s.
Proof.
  intros Habsent.
  destruct (touches_settle downloadId w request s) as (Hd & _ & Ho).
  split; [exact Hd |].
  apply map_eq. intros ref. apply Ho. rewrite Habsent. discriminate.
Qed.

Lemma touches_processDownload downloadId w request downloadPath :
  touches_only downloadId (processDownload w downloadId request downloadPath).
Proof.
  unfold processDownload, processDownload_start.
  apply touches_bind; [apply touches_updateDownloadStatus | intros _].
  apply touches_processDownload_rest.
Qed.

(** X20: processing one download changes nothing in the others: under
    an identifier that the table does not give the same record as
    [downloadId], the record is the same, field for field, after
    [processDownload] and after the handler of its failure. *)
Theorem processing_leaves_other_downloads (w : World) (downloadId other : jsstring)
    (request : DownloadRequest) (downloadPath : jsstring) (s : Service) :
  downloads s !! other <> downloads s !! downloadId ->
  record_of (processDownload w downloadId request downloadPath s).1.1 other
    = record_of s other /\
  record_of (settle w downloadId request s).1.1 other = record_of s other.
Proof.
  intros Hne. unfold record_of. split.
  - destruct (touches_processDownload downloadId w request downloadPath s)
      as (-> & _ & Ho).
    destruct (downloads s !! other) as [ref |]; [| reflexivity].
    simpl. apply Ho. congruence.
  - destruct (touches_settle downloadId w request s) as (-> & _ & Ho).
    destruct (downloads s !! other) as [ref |]; [| reflexivity].
    simpl. apply Ho. congruence.
Qed.

(** *** createDownload and deleteDownload *)

(** X21: when the custom download path cannot be created,
    [createDownload] throws "Invalid download path: " followed by the
    message of the file system; no record is added to the table and no
    processing is started. *)
Theorem createDownload_invalid_path (w : World) (request : DownloadRequest)
    (s : Service) (m : jsstring) :
  truthy (req_downloadPath request) = true ->
  mkdir w (download_path w request) = Some m ->
  (createDownload w request s).2 = inl (JsError (str "Invalid download path: " ++ m)) /\
  (createDownload w request s).1.2 = [] /\
  downloads (createDownload w request s).1.1 = downloads s /\
  objects (createDownload w request s).1.1 = objects s.
Proof.
  intros Hcustom Hmkdir. unfold createDownload.
  rewrite !bind_run. unfold fresh_uuid. simpl. rewrite Hcustom, Hmkdir.
  simpl. auto.
Qed.

Lemma createDownload_fields (w : World) (request : DownloadRequest)
    (s s' : Service) (log : list Effect) (ref : nat) (downloadId : jsstring) :
  createDownload w request s = (s', log, inr (ref, downloadId)) ->
  downloadId = randomUUID w (uuids s) /\
  (forall other, other <> downloadId -> downloads s' !! other = downloads s !! other) /\
  (forall r, r <> ref -> objects s' !! r = objects s !! r) /\
  log = (if truthy (req_downloadPath request)
         then [MadeDirectory (download_path w request)] else []) /\
  exists d,
    record_of s' downloadId = Some d /\
    id d = downloadId /\ sourceId d = req_sourceId request /\
    mangaId d = req_mangaId request /\ chapterIds d = req_chapterIds request /\
    format d = default cbz (req_format request) /\
    downloadPath d = (if truthy (req_downloadPath request)
                      then Some (download_path w request) else None) /\
    createdAt d = toISOString w (clock s).
Proof.
  unfold createDownload, processDownload_start, updateDownloadStatus, record_of.
  unfold mbind, M_bind, bind, fresh_uuid, now, allocate, downloads_set, mret, M_ret, ret,
    perform.
  simpl.
  destruct (truthy (req_downloadPath request)); simpl.
  - destruct (mkdir w (download_path w request)) as [m |]; simpl; [discriminate |].
    rewrite !lookup_insert_eq. simpl.
    intros [= <- <- <- <-]. simpl.
    split; [reflexivity |].
    split; [intros other Hne; rewrite !lookup_insert_ne by congruence; reflexivity |].
    split; [intros r Hne; rewrite !lookup_insert_ne by congruence; reflexivity |].
    split; [reflexivity |].
    rewrite !lookup_insert_eq. simpl. rewrite !lookup_insert_eq.
    eexists. split; [reflexivity |]. simpl. auto 10.
  - rewrite !lookup_insert_eq. simpl.
    intros [= <- <- <- <-]. simpl.
    split; [reflexivity |].
    split; [intros other Hne; rewrite !lookup_insert_ne by congruence; reflexivity |].
    split; [intros r Hne; rewrite !lookup_insert_ne by congruence; reflexivity |].
    split; [reflexivity |].
    rewrite !lookup_insert_eq. simpl. rewrite !lookup_insert_eq.
    eexists. split; [reflexivity |]. simpl. auto 10.
Qed.

(** X22: [createDownload] adds one record, under the identifier it drew,
    and leaves every other download as it was; the record holds the
    source, the manga and the chapters of the request, the format asked
    for or cbz, and the resolved custom path if one was given, which is
    then the one directory made. *)
Theorem createDownload_registers (w : World) (request : DownloadRequest)
    (s s' : Service) (log : list Effect) (ref : nat) (downloadId : jsstring) :
  createDownload w request s = (s', log, inr (ref, downloadId)) ->
  downloadId = randomUUID w (uuids s) /\
  (forall other, other <> downloadId -> downloads s' !! other = downloads s !! other) /\
  (forall r, r <> ref -> objects s' !! r = objects s !! r) /\
  log = (if truthy (req_downloadPath request)
         then [MadeDirectory (download_path w request)] else []) /\
  exists d,
    record_of s' downloadId = Some d /\
    id d = downloadId /\ sourceId d = req_sourceId request /\
    mangaId d = req_mangaId request /\ chapterIds d = req_chapterIds request /\
    format d = default cbz (req_format request) /\
    downloadPath d = (if truthy (req_downloadPath request)
                      then Some (download_path w request) else None) /\
    createdAt d = toISOString w (clock s).
Proof. apply createDownload_fields. Qed.

Lemma getDownloadFilePath_reads w downloadId s :
  (getDownloadFilePath w downloadId s).1 = (s, []).
Proof.
  unfold getDownloadFilePath, getDownload. rewrite bind_run.
  destruct (record_of s downloadId) as [download |]; [| reflexivity].
  destruct (status download); try reflexivity.
  destruct (access w _); [| reflexivity].
  destruct (readdir w _) as [errorMessage | [| entry entries]]; reflexivity.
Qed.

Lemma deleteDownload_run w downloadId s d :
  record_of s downloadId = Some d ->
  deleteDownload w downloadId s =
  ({| objects := objects s; downloads := delete downloadId (downloads s);
      allocated := allocated s; uuids := uuids s; clock := clock s |},
   match status d, (getDownloadFilePath w downloadId s).2 with
   | completed, inr filePath => [Unlinked filePath]
   | _, _ => []
   end,
   inr tt).
Proof.
  intros Hrec. unfold deleteDownload, getDownload. rewrite bind_run, Hrec.
  destruct (status d) eqn:Hstatus; try reflexivity.
  rewrite bind_run. unfold try_catch. rewrite bind_run.
  pose proof (getDownloadFilePath_reads w downloadId s) as Hreads.
  destruct (getDownloadFilePath w downloadId s) as [[s1 log1] [e | filePath]];
    simpl in *; injection Hreads as -> ->; reflexivity.
Qed.

(** X23: [deleteDownload] of an identifier that is not in the table
    throws [DownloadNotFound] and changes nothing; of one that is, it
    never throws, removes the entry, so that the identifier is unknown
    afterwards, and leaves the other entries alone; it unlinks a file
    only for a completed download whose file [getDownloadFilePath]
    finds, and a file that cannot be found does not keep the entry from
    being removed. *)
Theorem deleteDownload_removes (w : World) (downloadId : jsstring) (s : Service) :
  (record_of s downloadId = None ->
   deleteDownload w downloadId s = (s, [], inl (Errors DownloadNotFound downloadId))) /\
  (forall d, record_of s downloadId = Some d ->
     (deleteDownload w downloadId s).2 = inr tt /\
     downloads (deleteDownload w downloadId s).1.1 = delete downloadId (downloads s) /\
     objects (deleteDownload w downloadId s).1.1 = objects s /\
     record_of (deleteDownload w downloadId s).1.1 downloadId = None /\
     (deleteDownload w downloadId s).1.2 =
       match status d, (getDownloadFilePath w downloadId s).2 with
       | completed, inr filePath => [Unlinked filePath]
       | _, _ => []
       end).
Proof.
  split.
  - intros Hrec. unfold deleteDownload, getDownload. rewrite bind_run, Hrec. reflexivity.
  - intros d Hrec. rewrite (deleteDownload_run w downloadId s d Hrec). simpl.
    repeat split. unfold record_of. simpl. rewrite lookup_delete_eq. reflexivity.
Qed.

(** X24: for a download that was accepted and ended [completed], of a
    manga whose title is not empty, [getDownloadFilePath] looks into the
    directory the chapter was exported to, the download path of the
    request joined with the sanitised title of the manga.  It returns
    the first entry that directory lists; it throws [NotFound] if the
    directory cannot be accessed or lists nothing; and if the directory
    can be accessed but listing it fails, it throws the error of
    [readdir] itself, which no handler of the function catches. *)
Theorem file_is_sought_where_it_was_exported (w : World) (request : DownloadRequest)
    (s s1 s2 : Service) (log1 log2 : list Effect) (ref : nat) (downloadId : jsstring)
    (d : DownloadStatus) (plugin : Plugin) (manga : Manga) :
  find (fun p => bool_decide (plugin_Identifier p = req_sourceId request))
       (WebsitePlugins w) = Some plugin ->
  find (fun m => bool_decide (manga_Identifier m = req_mangaId request))
       (plugin_Entries plugin) = Some manga ->
  manga_Title manga <> [] ->
  download_path w request <> [] ->
  createDownload w request s = (s1, log1, inr (ref, downloadId)) ->
  settle w downloadId request s1 = (s2, log2, inr tt) ->
  record_of s2 downloadId = Some d -> status d = completed ->
  let mangaDir :=
    path_join [download_path w request; SanitizeFileName (manga_Title manga)] in
  (exists chapter fileName,
     exports log2 =
       [(Title chapter,
         path_join [download_path w request; SanitizeFileName (manga_Title manga);
                    fileName])]) /\
  getDownloadFilePath w downloadId s2 =
    (s2, [],
     if access w mangaDir
     then match readdir w mangaDir with
          | inl errorMessage => inl (JsError errorMessage)
          | inr [] => inl (Errors NotFound (str "Download file"))
          | inr (entry :: _) => inr (path_join [mangaDir; entry])
          end
     else inl (Errors NotFound (str "Download file"))).
Proof.
  intros Hplugin Hmanga Htitle Hbase Hcreate Hsettle Hrec Hcompleted mangaDir.
  destruct (createDownload_fields _ _ _ _ _ _ _ Hcreate)
    as (_ & _ & _ & _ & d1 & Hrec1 & _ & _ & _ & _ & _ & Hpath1 & _).
  unfold settle, try_catch in Hsettle.
  pose proof (touches_record_of downloadId
                (processDownload_rest w downloadId request (download_path w request))
                s1 d1 (touches_processDownload_rest downloadId w request _) Hrec1)
    as [d1' Hrec1'].
  pose proof (processDownload_rest_done w downloadId request (download_path w request) s1)
    as Hdone.
  destruct (processDownload_rest w downloadId request (download_path w request) s1)
    as [[s3 log3] [e | []]]; simpl in *.
  - exfalso. revert Hsettle.
    match goal with
    | |- context [updateDownloadStatus ?w ?i ?u s3] =>
        destruct (record_of_update w i u s3 d1' Hrec1') as (s4 & -> & Hrec4)
    end.
    intros [= <- _]. rewrite Hrec4 in Hrec. injection Hrec as <-.
    simpl in Hcompleted. discriminate.
  - injection Hsettle as <- <-.
    destruct (Hdone s3 log3 d1 Hrec1 eq_refl)
      as (d' & plugin' & manga' & chapter & outputPath & Hplugin' & Hmanga' & _
          & Hexports & Hexport & Hrec' & _ & _ & _ & _ & Hmt & Hdp & _ & _).
    rewrite Hplugin in Hplugin'. injection Hplugin' as <-.
    rewrite Hmanga in Hmanga'. injection Hmanga' as <-.
    rewrite Hrec in Hrec'. injection Hrec' as <-.
    split.
    + unfold export_path in Hexport.
      destruct (default cbz (req_format request)); try discriminate;
        injection Hexport as <-; eexists chapter, _; exact Hexports.
    + unfold getDownloadFilePath, getDownload. rewrite bind_run, Hrec, Hcompleted.
      rewrite Hmt, Hdp, Hpath1.
      assert (Htruthy : truthy (Some (manga_Title manga)) = true).
      { destruct (manga_Title manga); [congruence | reflexivity]. }
      rewrite Htruthy. simpl.
      assert (Hdir : (if truthy (if truthy (req_downloadPath request)
                                 then Some (download_path w request) else None)
                      then default [] (if truthy (req_downloadPath request)
                                       then Some (download_path w request) else None)
                      else downloadDir w) = download_path w request).
      { destruct (truthy (req_downloadPath request)) eqn:Hcustom; simpl.
        - destruct (download_path w request); [congruence | reflexivity].
        - unfold download_path. rewrite Hcustom. reflexivity. }
      rewrite Hdir. fold mangaDir.
      destruct (access w mangaDir); [| reflexivity].
      destruct (readdir w mangaDir) as [errorMessage | [| entry entries]]; reflexivity.
Qed.

(** *** extractChapterNumber on a title with a digit *)

Lemma span_digits_cons c rest :
  JsNumber.is_digit c = true ->
  exists run after, span JsNumber.is_digit (c :: rest) = (c :: run, after).
Proof.
  intros Hc. simpl. rewrite Hc.
  destruct (span JsNumber.is_digit rest) as [run after]. eauto.
Qed.

Lemma number_at_digit c rest :
  JsNumber.is_digit c = true -> is_Some (number_at (c :: rest)).
Proof.
  intros Hc. unfold number_at.
  destruct (span_digits_cons c rest Hc) as (run & after & ->).
  destruct after as [| a after]; [eauto |].
  destruct (N.eq_dec a 46%N) as [-> | Hne].
  - destruct (span JsNumber.is_digit after); eauto.
  - destruct a as [| p]; [eauto |].
    repeat (destruct p as [p | p |]; eauto). congruence.
Qed.

(** The last pattern finds a number in every title that has a digit. *)
Lemma search_number_at_digit title :
  Exists (fun c => JsNumber.is_digit c = true) title ->
  is_Some (search number_at title).
Proof.
  induction 1 as [c rest Hc | c rest _ IH].
  - destruct (number_at_digit c rest Hc) as [found Hfound].
    simpl. unfold number_at in *. rewrite Hfound. eauto.
  - change (search number_at (c :: rest))
      with (match number_at (c :: rest) with
            | Some found => Some found
            | None => search number_at rest
            end).
    destruct (number_at (c :: rest)); eauto.
Qed.

Lemma first_match_digit title :
  Exists (fun c => JsNumber.is_digit c = true) title ->
  is_Some (first_match patterns title).
Proof.
  intros Hdigit. unfold patterns. simpl.
  destruct (search ch_at title); [eauto |].
  destruct (search chapter_at title); [eauto |].
  destruct (number_at title); [eauto |].
  destruct (search_number_at_digit title Hdigit) as [found ->]. eauto.
Qed.

Lemma label_char_digit c : JsNumber.is_digit c = true -> label_char c = true.
Proof. intros Hc. unfold label_char. rewrite Hc. reflexivity. Qed.

Lemma digits_of_fuel_digits fuel : forall z acc,
  Forall (fun c => label_char c = true) acc ->
  Forall (fun c => label_char c = true) (JsNumber.digits_of_fuel fuel z acc).
Proof.
  induction fuel as [| fuel IH]; intros z acc Hacc; simpl; [exact Hacc |].
  destruct (z <=? 0)%Z eqn:Hz; [exact Hacc |].
  apply IH. constructor; [| exact Hacc].
  apply label_char_digit. unfold JsNumber.is_digit.
  pose proof (Z.mod_pos_bound z 10 ltac:(lia)) as Hmod.
  apply andb_true_iff. split; apply N.leb_le; lia.
Qed.

Lemma digits_of_digits z : Forall (fun c => label_char c = true) (JsNumber.digits_of z).
Proof. apply digits_of_fuel_digits. constructor. Qed.

Lemma zeros_digits n : Forall (fun c => label_char c = true) (JsNumber.zeros n).
Proof.
  unfold JsNumber.zeros. induction (Z.to_nat n) as [| k IH]; simpl; constructor;
    [reflexivity | exact IH].
Qed.

Lemma str_label_chars (t : string) :
  forallb label_char (str t) = true -> Forall (fun c => label_char c = true) (str t).
Proof. intros Hall. apply Forall_forall. intros c Hc.
  rewrite forallb_forall in Hall. apply Hall, list_elem_of_In, Hc. Qed.

Lemma format_decimal_chars ds n :
  Forall (fun c => label_char c = true) ds ->
  Forall (fun c => label_char c = true) (JsNumber.format_decimal ds n).
Proof.
  intros Hds. unfold JsNumber.format_decimal.
  assert (Hpoint : Forall (fun c => label_char c = true) (str "."))
    by (apply str_label_chars; reflexivity).
  assert (Hzero : Forall (fun c => label_char c = true) (str "0."))
    by (apply str_label_chars; reflexivity).
  assert (He : Forall (fun c => label_char c = true) (str "e"))
    by (apply str_label_chars; reflexivity).
  assert (Hsign : Forall (fun c => label_char c = true)
                    (if (0 <=? n - 1)%Z then str "+" else str "-"))
    by (destruct (0 <=? n - 1)%Z; apply str_label_chars; reflexivity).
  destruct (_ && _); [apply Forall_app; split; [exact Hds | apply zeros_digits] |].
  destruct (_ && _).
  { apply Forall_app. split; [apply Forall_take; exact Hds |].
    apply Forall_app. split; [exact Hpoint | apply Forall_drop; exact Hds]. }
  destruct (_ && _).
  { apply Forall_app. split; [exact Hzero |].
    apply Forall_app. split; [apply zeros_digits | exact Hds]. }
  destruct ds as [| d more]; [constructor |].
  inversion Hds as [| ? ? Hd Hmore]; subst.
  destruct more as [| d' more'].
  - repeat (apply Forall_app; split); auto using digits_of_digits.
  - repeat (apply Forall_app; split); auto using digits_of_digits.
Qed.

(** The text of a Number parsed from digits holds nothing but digits,
    a point, an exponent and the letters of [Infinity]. *)
Lemma toString_chars v : Forall (fun c => label_char c = true) (JsNumber.toString v).
Proof.
  destruct v as [| m e |]; try (apply str_label_chars; reflexivity).
  unfold JsNumber.toString.
  destruct (if (e <? 0)%Z then _ else _) as [num den].
  destruct (JsNumber.shortest 17 _ num den _ 1) as [[s k] |]; [| constructor].
  apply format_decimal_chars, digits_of_digits.
Qed.

(** X25: for a title that holds a digit, [extractChapterNumber] never
    falls back to the sanitised title: some pattern matches, and the
    result is the text of the Number matched, which is made of digits,
    a point, an exponent ([e], [+], [-]) and the letters of [Infinity]
    only; so it holds no path separator, although it does not go through
    [SanitizeFileName]. *)
Theorem extractChapterNumber_of_number (title : jsstring) :
  Exists (fun c => JsNumber.is_digit c = true) title ->
  exists found,
    first_match patterns title = Some found /\
    extractChapterNumber title = number_label found /\
    Forall (fun c => label_char c = true) (extractChapterNumber title).
Proof.
  intros Hdigit. destruct (first_match_digit title Hdigit) as [[intPart fracPart] Hfound].
  exists (intPart, fracPart). split; [exact Hfound |].
  unfold extractChapterNumber, number_label. rewrite Hfound. simpl.
  split; [reflexivity | apply toString_chars].
Qed.

(** *** cleanupOldDownloads *)

Lemma expired_createdAt getTime retentionMs now_ms d d' :
  createdAt d' = createdAt d ->
  expired getTime retentionMs now_ms d' = expired getTime retentionMs now_ms d.
Proof. unfold expired. intros ->. reflexivity. Qed.

Lemma deleteDownload_unknown w downloadId s :
  record_of s downloadId = None ->
  deleteDownload w downloadId s = (s, [], inl (Errors DownloadNotFound downloadId)).
Proof.
  intros Hrec. unfold deleteDownload, getDownload. rewrite bind_run, Hrec. reflexivity.
Qed.

(** One iteration that deletes: the entry is removed and the other
    calls have their turn. *)
Lemma cleanupLoop_deletes w getTime retentionMs now_ms others turn id0 ref0 rest s d0 d :
  objects s !! ref0 = Some d0 ->
  expired getTime retentionMs now_ms d0 = true ->
  record_of s id0 = Some d ->
  exists log,
    cleanupLoop w getTime retentionMs now_ms others turn ((id0, ref0) :: rest) s =
    (let '(s2, log2, r2) :=
       cleanupLoop w getTime retentionMs now_ms others (S turn) rest
         (others turn (deleted_meanwhile id0 s)) in
     (s2, log ++ log2, r2)).
Proof.
  intros Hd0 Hexpired Hrec.
  cbn [cleanupLoop]. rewrite bind_run. unfold inspect. cbn [fst snd].
  rewrite Hd0. cbn [fmap option_fmap option_map default from_option Datatypes.id].
  rewrite Hexpired. rewrite !bind_run.
  rewrite (deleteDownload_run w id0 s d Hrec). unfold meanwhile.
  fold (deleted_meanwhile id0 s).
  destruct (cleanupLoop w getTime retentionMs now_ms others (S turn) rest
              (others turn (deleted_meanwhile id0 s))) as [[s2 log2] r2].
  eexists. simpl. rewrite app_nil_r. reflexivity.
Qed.

(** One iteration that does not delete goes on at once. *)
Lemma cleanupLoop_keeps w getTime retentionMs now_ms others turn id0 ref0 rest s :
  default false (expired getTime retentionMs now_ms <$> objects s !! ref0) = false ->
  cleanupLoop w getTime retentionMs now_ms others turn ((id0, ref0) :: rest) s =
  cleanupLoop w getTime retentionMs now_ms others (S turn) rest s.
Proof.
  intros Hkept.
  cbn [cleanupLoop]. rewrite bind_run. unfold inspect. cbn [fst snd].
  rewrite Hkept. rewrite bind_run. unfold mret, M_ret, ret. cbn [fst snd].
  destruct (cleanupLoop w getTime retentionMs now_ms others (S turn) rest s)
    as [[s2 log2] r2]. reflexivity.
Qed.

(** One iteration whose download is expired and no longer in the
    table. *)
Lemma cleanupLoop_stale w getTime retentionMs now_ms others turn id0 ref0 rest s d0 :
  objects s !! ref0 = Some d0 ->
  expired getTime retentionMs now_ms d0 = true ->
  record_of s id0 = None ->
  cleanupLoop w getTime retentionMs now_ms others turn ((id0, ref0) :: rest) s =
  (s, [], inl (Errors DownloadNotFound id0)).
Proof.
  intros Hd0 Hexpired Hrec.
  cbn [cleanupLoop]. rewrite bind_run. unfold inspect. cbn [fst snd].
  rewrite Hd0. cbn [fmap option_fmap option_map default from_option Datatypes.id].
  rewrite Hexpired. rewrite !bind_run.
  rewrite (deleteDownload_unknown w id0 s Hrec). reflexivity.
Qed.

(** Whatever the other calls do, the loop throws nothing but
    [DownloadNotFound], for an entry of its copy that is no longer in
    the table when its turn comes. *)
Lemma cleanupLoop_throws w getTime retentionMs now_ms others entries : forall turn s,
  (cleanupLoop w getTime retentionMs now_ms others turn entries s).2 = inr tt \/
  exists downloadId ref,
    (downloadId, ref) ∈ entries /\
    (cleanupLoop w getTime retentionMs now_ms others turn entries s).2
      = inl (Errors DownloadNotFound downloadId) /\
    record_of (cleanupLoop w getTime retentionMs now_ms others turn entries s).1.1
      downloadId = None.
Proof.
  induction entries as [| [id0 ref0] rest IH]; intros turn s; [left; reflexivity |].
  destruct (default false (expired getTime retentionMs now_ms <$> objects s !! ref0))
    eqn:Hexpired.
  - destruct (objects s !! ref0) as [d0 |] eqn:Hd0; [| discriminate]. simpl in Hexpired.
    destruct (record_of s id0) as [d |] eqn:Hrec.
    + destruct (cleanupLoop_deletes w getTime retentionMs now_ms others turn id0 ref0
                  rest s d0 d Hd0 Hexpired Hrec) as [log ->].
      destruct (IH (S turn) (others turn (deleted_meanwhile id0 s)))
        as [Hok | (downloadId & ref & Hin & Hres & Hgone)].
      * left.
        destruct (cleanupLoop w getTime retentionMs now_ms others (S turn) rest _)
          as [[s2 log2] r2]. exact Hok.
      * right. exists downloadId, ref. split; [right; exact Hin |].
        destruct (cleanupLoop w getTime retentionMs now_ms others (S turn) rest _)
          as [[s2 log2] r2]. split; assumption.
    + right. exists id0, ref0. split; [left |].
      rewrite (cleanupLoop_stale w getTime retentionMs now_ms others turn id0 ref0
                 rest s d0 Hd0 Hexpired Hrec).
      split; [reflexivity | exact Hrec].
  - rewrite (cleanupLoop_keeps w getTime retentionMs now_ms others turn id0 ref0 rest s
               Hexpired).
    destruct (IH (S turn) s) as [Hok | (downloadId & ref & Hin & Hres & Hgone)];
      [left; exact Hok |].
    right. exists downloadId, ref. split; [right; exact Hin | split; assumption].
Qed.

(** With other calls that keep the table, the loop does not throw and
    removes the expired entries of its copy, and nothing else. *)
Lemma cleanupLoop_spec w getTime retentionMs now_ms others entries : forall turn s,
  (forall i, keeps_table (others i)) ->
  NoDup entries.*1 ->
  (forall downloadId ref, (downloadId, ref) ∈ entries ->
     downloads s !! downloadId = Some ref /\ is_Some (objects s !! ref)) ->
  (cleanupLoop w getTime retentionMs now_ms others turn entries s).2 = inr tt /\
  (forall ref d, objects s !! ref = Some d ->
     exists d',
       objects (cleanupLoop w getTime retentionMs now_ms others turn entries s).1.1 !! ref
         = Some d' /\ createdAt d' = createdAt d) /\
  forall downloadId,
    downloads (cleanupLoop w getTime retentionMs now_ms others turn entries s).1.1
      !! downloadId =
    match downloads s !! downloadId with
    | Some ref =>
        if bool_decide (downloadId ∈ entries.*1)
           && default false (expired getTime retentionMs now_ms <$> objects s !! ref)
        then None else Some ref
    | None => None
    end.
Proof.
  intros turn s Hquiet. revert turn s.
  induction entries as [| [id0 ref0] rest IH]; intros turn s Hnodup Hentries.
  - simpl. split; [reflexivity |]. split; [eauto |].
    intros downloadId. destruct (downloads s !! downloadId); reflexivity.
  - simpl in Hnodup. apply NoDup_cons in Hnodup as [Hfresh Hnodup].
    destruct (Hentries id0 ref0 ltac:(left)) as [Hid0 [d0 Hd0]].
    destruct (expired getTime retentionMs now_ms d0) eqn:Hexpired.
    + assert (Hrec : record_of s id0 = Some d0).
      { unfold record_of. rewrite Hid0. exact Hd0. }
      destruct (cleanupLoop_deletes w getTime retentionMs now_ms others turn id0 ref0
                  rest s d0 d0 Hd0 Hexpired Hrec) as [log ->].
      set (s1 := others turn (deleted_meanwhile id0 s)).
      destruct (Hquiet turn (deleted_meanwhile id0 s)) as [Htable1 Hobjects1].
      fold s1 in Htable1, Hobjects1. simpl in Htable1, Hobjects1.
      assert (Hrest : forall downloadId ref, (downloadId, ref) ∈ rest ->
                downloads s1 !! downloadId = Some ref /\ is_Some (objects s1 !! ref)).
      { intros downloadId ref Hin.
        destruct (Hentries downloadId ref ltac:(right; exact Hin)) as [Hd [d Ho]].
        split.
        - rewrite Htable1, lookup_delete_ne; [exact Hd |].
          intros <-. apply Hfresh. apply list_elem_of_fmap. exists (id0, ref). auto.
        - destruct (Hobjects1 ref d Ho) as (d' & Hd' & _). eauto. }
      destruct (IH (S turn) s1 Hnodup Hrest) as (Hres & Hobj & Htable).
      destruct (cleanupLoop w getTime retentionMs now_ms others (S turn) rest s1)
        as [[s2 log2] r2].
      simpl in *. split; [exact Hres |]. split.
      { intros ref d Hd. destruct (Hobjects1 ref d Hd) as (d1 & Hd1 & Hc1).
        destruct (Hobj ref d1 Hd1) as (d2 & Hd2 & Hc2).
        exists d2. split; [exact Hd2 | congruence]. }
      intros downloadId. rewrite Htable, Htable1.
      destruct (decide (downloadId = id0)) as [-> | Hne].
      * rewrite lookup_delete_eq, Hid0, Hd0. simpl. rewrite Hexpired.
        rewrite bool_decide_eq_true_2 by left. reflexivity.
      * rewrite lookup_delete_ne by congruence.
        destruct (downloads s !! downloadId) as [ref |] eqn:Hid; [| reflexivity].
        rewrite (bool_decide_ext (downloadId ∈ rest.*1) (downloadId ∈ id0 :: rest.*1))
          by (rewrite elem_of_cons; tauto).
        destruct (objects s !! ref) as [d |] eqn:Hd.
        -- destruct (Hobjects1 ref d Hd) as (d1 & -> & Hc1). simpl.
           rewrite (expired_createdAt _ _ _ _ _ Hc1). reflexivity.
        -- simpl. rewrite andb_false_r.
           match goal with
           | |- (if ?b && _ then _ else _) = _ => destruct b eqn:Hmember
           end; [| reflexivity].
           exfalso. apply bool_decide_eq_true in Hmember.
           apply elem_of_cons in Hmember as [-> | Hmember]; [congruence |].
           apply list_elem_of_fmap in Hmember as ([id1 ref1] & -> & Hin).
           destruct (Hentries id1 ref1 ltac:(right; exact Hin)) as [Hlook [d Ho]].
           simpl in Hid. congruence.
    + assert (Hkept : default false
                        (expired getTime retentionMs now_ms <$> objects s !! ref0) = false).
      { rewrite Hd0. exact Hexpired. }
      rewrite (cleanupLoop_keeps w getTime retentionMs now_ms others turn id0 ref0 rest s
                 Hkept).
      assert (Hrest : forall downloadId ref, (downloadId, ref) ∈ rest ->
                downloads s !! downloadId = Some ref /\ is_Some (objects s !! ref)).
      { intros downloadId ref Hin. apply Hentries. right. exact Hin. }
      destruct (IH (S turn) s Hnodup Hrest) as (Hres & Hobj & Htable).
      split; [exact Hres |]. split; [exact Hobj |].
      intros downloadId. rewrite Htable.
      destruct (decide (downloadId = id0)) as [-> | Hne].
      * rewrite Hid0, Hd0. simpl. rewrite Hexpired, !andb_false_r. reflexivity.
      * destruct (downloads s !! downloadId) as [ref |]; [| reflexivity].
        rewrite (bool_decide_ext (downloadId ∈ rest.*1) (downloadId ∈ id0 :: rest.*1));
          [reflexivity |].
        rewrite elem_of_cons. tauto.
Qed.

(** With no other call at all, the loop changes no record. *)
Lemma cleanupLoop_objects w getTime retentionMs now_ms others entries : forall turn s,
  (forall i s1, objects (others i s1) = objects s1) ->
  objects (cleanupLoop w getTime retentionMs now_ms others turn entries s).1.1 = objects s.
Proof.
  induction entries as [| [id0 ref0] rest IH]; intros turn s Hsame; [reflexivity |].
  destruct (default false (expired getTime retentionMs now_ms <$> objects s !! ref0))
    eqn:Hexpired.
  - destruct (objects s !! ref0) as [d0 |] eqn:Hd0; [| discriminate]. simpl in Hexpired.
    destruct (record_of s id0) as [d |] eqn:Hrec.
    + destruct (cleanupLoop_deletes w getTime retentionMs now_ms others turn id0 ref0
                  rest s d0 d Hd0 Hexpired Hrec) as [log ->].
      specialize (IH (S turn) (others turn (deleted_meanwhile id0 s)) Hsame).
      destruct (cleanupLoop w getTime retentionMs now_ms others (S turn) rest _)
        as [[s2 log2] r2].
      simpl in *. rewrite IH, Hsame. reflexivity.
    + rewrite (cleanupLoop_stale w getTime retentionMs now_ms others turn id0 ref0
                 rest s d0 Hd0 Hexpired Hrec). reflexivity.
  - rewrite (cleanupLoop_keeps w getTime retentionMs now_ms others turn id0 ref0 rest s
               Hexpired).
    apply IH. exact Hsame.
Qed.

(** X26: [cleanupOldDownloads] works on a copy of the table and waits
    at every deletion, where other calls can run.  Whatever they do, it
    throws nothing but [DownloadNotFound], and that for a download of
    its copy that is no longer in the table.  If the other calls add and
    remove no download meanwhile, and keep the records with their time
    of creation, it does not throw, and removes from the table exactly
    the downloads created more than [retentionDays] days before now.  If
    no other call changes anything meanwhile, every other download is
    also left as it was.  The entries copied from the table are each
    identifier once, with its record. *)
Theorem cleanupOldDownloads_removes_expired (w : World)
    (getTime : jsstring -> option Z) (retentionDays now_ms : Z)
    (others : nat -> Service -> Service)
    (entries : list (jsstring * nat)) (s : Service) :
  NoDup entries.*1 ->
  (forall downloadId ref,
     (downloadId, ref) ∈ entries <-> downloads s !! downloadId = Some ref) ->
  (forall downloadId ref,
     downloads s !! downloadId = Some ref -> is_Some (objects s !! ref)) ->
  ((cleanupOldDownloads w getTime retentionDays now_ms others entries s).2 = inr tt \/
   exists downloadId ref,
     (downloadId, ref) ∈ entries /\
     (cleanupOldDownloads w getTime retentionDays now_ms others entries s).2
       = inl (Errors DownloadNotFound downloadId) /\
     record_of (cleanupOldDownloads w getTime retentionDays now_ms others entries s).1.1
       downloadId = None) /\
  ((forall i, keeps_table (others i)) ->
   (cleanupOldDownloads w getTime retentionDays now_ms others entries s).2 = inr tt /\
   forall downloadId,
     downloads (cleanupOldDownloads w getTime retentionDays now_ms others entries s).1.1
       !! downloadId =
     match record_of s downloadId with
     | Some d =>
         if expired getTime (retentionDays * 24 * 60 * 60 * 1000) now_ms d
         then None else downloads s !! downloadId
     | None => None
     end) /\
  ((forall i s1, others i s1 = s1) ->
   (cleanupOldDownloads w getTime retentionDays now_ms others entries s).2 = inr tt /\
   forall downloadId,
     record_of (cleanupOldDownloads w getTime retentionDays now_ms others entries s).1.1
       downloadId =
     match record_of s downloadId with
     | Some d =>
         if expired getTime (retentionDays * 24 * 60 * 60 * 1000) now_ms d
         then None else Some d
     | None => None
     end).
Proof.
  intros Hnodup Hentries Hvalid. unfold cleanupOldDownloads.
  assert (Hcopy : forall downloadId ref, (downloadId, ref) ∈ entries ->
            downloads s !! downloadId = Some ref /\ is_Some (objects s !! ref)).
  { intros downloadId ref Hin. apply Hentries in Hin. split; [exact Hin |].
    apply (Hvalid downloadId ref Hin). }
  assert (Htable : (forall i, keeps_table (others i)) ->
            (cleanupLoop w getTime (retentionDays * 24 * 60 * 60 * 1000) now_ms others 0
               entries s).2 = inr tt /\
            forall downloadId,
              downloads (cleanupLoop w getTime (retentionDays * 24 * 60 * 60 * 1000)
                           now_ms others 0 entries s).1.1 !! downloadId =
              match record_of s downloadId with
              | Some d =>
                  if expired getTime (retentionDays * 24 * 60 * 60 * 1000) now_ms d
                  then None else downloads s !! downloadId
              | None => None
              end).
  { intros Hquiet.
    destruct (cleanupLoop_spec w getTime (retentionDays * 24 * 60 * 60 * 1000) now_ms
                others entries 0 s Hquiet Hnodup Hcopy) as (Hres & _ & Hdownloads).
    split; [exact Hres |].
    intros downloadId. rewrite Hdownloads. unfold record_of.
    destruct (downloads s !! downloadId) as [ref |] eqn:Hid; [| reflexivity].
    simpl. destruct (Hvalid downloadId ref Hid) as [d Hd]. rewrite Hd. simpl.
    rewrite bool_decide_eq_true_2; [reflexivity |].
    apply list_elem_of_fmap. exists (downloadId, ref). split; [reflexivity |].
    apply Hentries. exact Hid. }
  split; [apply cleanupLoop_throws |]. split; [exact Htable |].
  intros Hnone.
  assert (Hquiet : forall i, keeps_table (others i)).
  { intros i s1. rewrite Hnone. split; [reflexivity | eauto]. }
  destruct (Htable Hquiet) as [Hres Hdownloads]. split; [exact Hres |].
  intros downloadId. unfold record_of at 1. rewrite Hdownloads.
  rewrite cleanupLoop_objects by (intros i s1; rewrite Hnone; reflexivity).
  unfold record_of.
  destruct (downloads s !! downloadId) as [ref |] eqn:Hid; [| reflexivity].
  simpl. destruct (Hvalid downloadId ref Hid) as [d Hd]. rewrite Hd.
  destruct (expired getTime _ now_ms d); [reflexivity |].
  simpl. exact Hd.
Qed.

End DownloadFacts.

(** ** The properties on the sample world *)

Section Samples.
Import Js Download.

Lemma createDownload_returns_downloading_witness :
  exists d,
    objects (sample_created sample_chapters [str "b"]) !! 0 = Some d /\
    record_of (sample_created sample_chapters [str "b"]) (str "id-0") = Some d /\
    status d = downloading /\ progress d = 0%Z.
Proof.
  apply (createDownload_returns_downloading (H := sample_platform)
           (sample_world sample_chapters) (sample_request [str "b"]) empty_service
           (sample_created sample_chapters [str "b"]) [] 0 (str "id-0")).
  vm_compute. reflexivity.
Defined.

Lemma no_requested_chapter_fails_witness :
  processDownload_rest (H := sample_platform)
    (sample_world [sample_chapter "a" "One" 1; sample_chapter "b" "Two" 1])
    (str "id-0") (sample_request [str "x"; str "y"]) (str "downloads")
    (sample_created [sample_chapter "a" "One" 1; sample_chapter "b" "Two" 1] [str "x"; str "y"])
  = (sample_created [sample_chapter "a" "One" 1; sample_chapter "b" "Two" 1] [str "x"; str "y"],
     [],
     inl (JsError (str "No valid chapters found to download. Available chapter IDs: a, b. Requested: x, y"))) /\
  (forall x, In x [str "a"; str "b"] ->
     includes x (str "No valid chapters found to download. Available chapter IDs: a, b. Requested: x, y") = true) /\
  exists s2 d,
    settle (H := sample_platform)
      (sample_world [sample_chapter "a" "One" 1; sample_chapter "b" "Two" 1])
      (str "id-0") (sample_request [str "x"; str "y"])
      (sample_created [sample_chapter "a" "One" 1; sample_chapter "b" "Two" 1] [str "x"; str "y"])
    = (s2, [], inr tt) /\
    downloads s2 !! str "id-0" = Some 0 /\ objects s2 !! 0 = Some d /\
    status d = failed /\
    error d = Some (str "No valid chapters found to download. Available chapter IDs: a, b. Requested: x, y").
Proof.
  apply (no_requested_chapter_fails (H := sample_platform)
           (sample_world [sample_chapter "a" "One" 1; sample_chapter "b" "Two" 1])
           (sample_request [str "x"; str "y"]) empty_service _ [] 0 (str "id-0")
           {| plugin_Identifier := str "site";
              plugin_Entries :=
                [ {| manga_Identifier := str "berserk"; manga_Title := str "Berserk";
                     manga_Entries := [sample_chapter "a" "One" 1;
                                       sample_chapter "b" "Two" 1] |} ] |}
           {| manga_Identifier := str "berserk"; manga_Title := str "Berserk";
              manga_Entries := [sample_chapter "a" "One" 1;
                                sample_chapter "b" "Two" 1] |}).
  - reflexivity.
  - reflexivity.
  - intros c [<- | [<- | []]]; intros Hin; vm_compute in Hin;
      repeat (apply elem_of_cons in Hin as [Hin | Hin]; [discriminate |]);
      apply elem_of_nil in Hin; exact Hin.
  - vm_compute. reflexivity.
Defined.

(** C9 as the specification words it fails: the requested and resolved
    chapters are a, b and c in this order; the first, a, has no page; the
    chapter that is exported and whose path is returned is b. *)
Lemma downloadAndExport_skips_chapter_without_pages :
  filter (fun c => requested (sample_request [str "a"; str "b"; str "c"]) c = true) sample_chapters
    = sample_chapters /\
  Title <$> head sample_chapters = Some (str "Ch.001 - The Black Swordsman") /\
  sample_run.2 = inr (str "downloads/Berserk/chapter_2.cbz") /\
  exports sample_run.1.2 = [(str "Chapter 2", str "downloads/Berserk/chapter_2.cbz")].
Proof. vm_compute. repeat split; reflexivity. Qed.

Lemma downloadAndExport_first_chapter_with_pages_witness :
  length (exports sample_run.1.2) <= 1 /\
  exists before rest,
    sample_chapters = before ++ rest /\
    Forall (fun c => Update c = None /\ Pages c = []) before /\
    (forall c k shown, In (Fetching c k shown) sample_run.1.2 -> c = length before) /\
    match rest with
    | [] =>
        sample_run.1.2 = [] /\
        sample_run.2 = inl (JsError (str "No chapters were successfully downloaded"))
    | chapter :: after =>
        (Update chapter <> None \/ Pages chapter <> []) /\
        (forall exported, In exported (exports sample_run.1.2) ->
           exists outputPath,
             exported = (Title chapter, outputPath) /\
             export_path (H := sample_platform)
               (default cbz (req_format (sample_request [str "a"; str "b"; str "c"])))
               (str "downloads") (str "Berserk") chapter = Some outputPath) /\
        (forall outputPath, sample_run.2 = inr outputPath ->
           Update chapter = None /\ Pages chapter <> [] /\
           exports sample_run.1.2 = [(Title chapter, outputPath)] /\
           export_path (H := sample_platform)
             (default cbz (req_format (sample_request [str "a"; str "b"; str "c"])))
             (str "downloads") (str "Berserk") chapter = Some outputPath)
    end.
Proof.
  apply (downloadAndExport_first_chapter_with_pages (H := sample_platform)
           (sample_world sample_chapters) (str "id-0")
           (sample_request [str "a"; str "b"; str "c"]) sample_chapters
           (str "Berserk") (str "downloads")
           (sample_created sample_chapters [str "a"; str "b"; str "c"])
           sample_run.1.1 sample_run.1.2 sample_run.2).
  vm_compute. reflexivity.
Defined.

(** What the sample run does to the outside: the two pages of chapter b
    are fetched, the directory of the manga is made, and chapter b is
    exported into it. *)
Example sample_run_effects :
  sample_run.1.2 =
    [Fetching 1 0 (Some 30%Z); Fetching 1 1 (Some 45%Z);
     MadeDirectory (str "downloads/Berserk");
     Exporting cbz [(0, str "tmp"); (1, str "tmp")]
       (str "downloads/Berserk/chapter_2.cbz") (str "Chapter 2") (str "Berserk");
     RemovedTemporary [str "tmp"; str "tmp"]] /\
  sample_run.2 = inr (str "downloads/Berserk/chapter_2.cbz").
Proof. vm_compute. split; reflexivity. Qed.

Lemma progress_while_fetching_witness :
  exists chapter,
    sample_chapters !! 1 = Some chapter /\ 1 < length (Pages chapter) /\
    Some 45%Z = Some (formula_progress (JsNumber.counter 1) (JsNumber.counter 1)
                        (JsNumber.of_nat (length (Pages chapter)))
                        (JsNumber.of_nat (length sample_chapters))) /\
    (0 <= formula_progress (JsNumber.counter 1) (JsNumber.counter 1)
            (JsNumber.of_nat (length (Pages chapter)))
            (JsNumber.of_nat (length sample_chapters)) <= 90)%Z /\
    exists d', record_of sample_run.1.1 (str "id-0") = Some d' /\
               (0 <= progress d' <= 90)%Z.
Proof.
  refine (progress_while_fetching (H := sample_platform)
           (sample_world sample_chapters) (str "id-0")
           (sample_request [str "a"; str "b"; str "c"]) sample_chapters
           (str "Berserk") (str "downloads")
           (sample_created sample_chapters [str "a"; str "b"; str "c"])
           sample_run.1.1 _ _ _ 1 1 (Some 45%Z) _ _ _ _ _).
  - vm_compute. reflexivity.
  - vm_compute. reflexivity.
  - repeat constructor.
  - vm_compute. reflexivity.
  - right. left. reflexivity.
Defined.

Lemma export_holds_every_page_witness :
  exists chapter keys,
    In chapter sample_chapters /\ str "Chapter 2" = Title chapter /\
    Forall2 (saved_as (sample_world sample_chapters)) (Pages chapter) keys /\
    [(0, str "tmp"); (1, str "tmp")] = zip (seq 0 (length (Pages chapter))) keys.
Proof.
  apply (export_holds_every_page (H := sample_platform)
           (sample_world sample_chapters) (str "id-0")
           (sample_request [str "a"; str "b"; str "c"]) sample_chapters
           (str "Berserk") (str "downloads")
           (sample_created sample_chapters [str "a"; str "b"; str "c"])
           cbz [(0, str "tmp"); (1, str "tmp")]
           (str "downloads/Berserk/chapter_2.cbz") (str "Chapter 2") (str "Berserk")).
  vm_compute. right. right. right. left. reflexivity.
Defined.

Lemma failed_page_fails_download_witness :
  (downloadAndExport (H := sample_platform) (sample_world broken_chapters) (str "id-0")
     (sample_request [str "a"; str "b"]) broken_chapters (str "Berserk")
     (str "downloads") (sample_created broken_chapters [str "a"; str "b"])).2
  = inl (JsError (str "Failed to download page 2: socket hang up")) /\
  exports (downloadAndExport (H := sample_platform) (sample_world broken_chapters)
             (str "id-0") (sample_request [str "a"; str "b"]) broken_chapters
             (str "Berserk") (str "downloads")
             (sample_created broken_chapters [str "a"; str "b"])).1.2 = [] /\
  removals (downloadAndExport (H := sample_platform) (sample_world broken_chapters)
              (str "id-0") (sample_request [str "a"; str "b"]) broken_chapters
              (str "Berserk") (str "downloads")
              (sample_created broken_chapters [str "a"; str "b"])).1.2 = [].
Proof.
  apply (failed_page_fails_download (H := sample_platform)
           (sample_world broken_chapters) (str "id-0")
           (sample_request [str "a"; str "b"])
           [sample_chapter "a" "Chapter 1" 0] []
           {| Identifier := str "b"; Title := str "Chapter 2"; Update := None;
              Pages := [sample_page; broken_page; sample_page] |}
           [sample_page] [sample_page] broken_page (str "socket hang up")
           (str "Berserk") (str "downloads")
           (sample_created broken_chapters [str "a"; str "b"])).
  - repeat constructor.
  - reflexivity.
  - reflexivity.
  - repeat constructor. exists (str "tmp"), (str "image"). split; reflexivity.
  - left. reflexivity.
Defined.

Lemma unsupported_format_never_exports_witness :
  (exists e,
     (downloadAndExport (H := sample_platform) (sample_world sample_chapters) (str "id-0")
        (sample_request_as pdf [str "a"; str "b"; str "c"]) sample_chapters
        (str "Berserk") (str "downloads")
        (sample_created sample_chapters [str "a"; str "b"; str "c"])).2 = inl e) /\
  Forall (fun e => is_fetching e = true)
    (downloadAndExport (H := sample_platform) (sample_world sample_chapters) (str "id-0")
       (sample_request_as pdf [str "a"; str "b"; str "c"]) sample_chapters
       (str "Berserk") (str "downloads")
       (sample_created sample_chapters [str "a"; str "b"; str "c"])).1.2 /\
  ((forall c, In c sample_chapters ->
      Update c = None /\
      exists keys, Forall2 (saved_as (sample_world sample_chapters)) (Pages c) keys) ->
   Exists (fun c => Pages c <> []) sample_chapters ->
   (downloadAndExport (H := sample_platform) (sample_world sample_chapters) (str "id-0")
      (sample_request_as pdf [str "a"; str "b"; str "c"]) sample_chapters
      (str "Berserk") (str "downloads")
      (sample_created sample_chapters [str "a"; str "b"; str "c"])).2
   = inl (JsError (str "Unsupported format: "
                   ++ format_name
                        (default cbz
                           (req_format
                              (sample_request_as pdf [str "a"; str "b"; str "c"])))))).
Proof.
  apply (unsupported_format_never_exports (H := sample_platform)
           (sample_world sample_chapters) (str "id-0")
           (sample_request_as pdf [str "a"; str "b"; str "c"]) sample_chapters
           (str "Berserk") (str "downloads")
           (sample_created sample_chapters [str "a"; str "b"; str "c"])).
  left. reflexivity.
Defined.

Lemma nothing_to_download_witness :
  (downloadAndExport (H := sample_platform)
     (sample_world [sample_chapter "a" "Chapter 1" 0; sample_chapter "b" "Chapter 2" 0])
     (str "id-0") (sample_request [str "a"; str "b"])
     [sample_chapter "a" "Chapter 1" 0; sample_chapter "b" "Chapter 2" 0]
     (str "Berserk") (str "downloads") empty_service).2
  = inl (JsError (str "No chapters were successfully downloaded")) /\
  (downloadAndExport (H := sample_platform)
     (sample_world [sample_chapter "a" "Chapter 1" 0; sample_chapter "b" "Chapter 2" 0])
     (str "id-0") (sample_request [str "a"; str "b"])
     [sample_chapter "a" "Chapter 1" 0; sample_chapter "b" "Chapter 2" 0]
     (str "Berserk") (str "downloads") empty_service).1.2 = [].
Proof.
  apply (nothing_to_download (H := sample_platform)
           (sample_world [sample_chapter "a" "Chapter 1" 0;
                          sample_chapter "b" "Chapter 2" 0])
           (str "id-0") (sample_request [str "a"; str "b"])
           [sample_chapter "a" "Chapter 1" 0; sample_chapter "b" "Chapter 2" 0]
           (str "Berserk") (str "downloads") empty_service).
  repeat constructor.
Defined.

Lemma failed_update_fails_download_witness :
  (downloadAndExport (H := sample_platform) (sample_world stale_chapters) (str "id-0")
     (sample_request [str "a"; str "b"; str "c"]) stale_chapters
     (str "Berserk") (str "downloads")
     (sample_created stale_chapters [str "a"; str "b"; str "c"])).2
  = inl (JsError (str "404 Not Found")) /\
  (downloadAndExport (H := sample_platform) (sample_world stale_chapters) (str "id-0")
     (sample_request [str "a"; str "b"; str "c"]) stale_chapters
     (str "Berserk") (str "downloads")
     (sample_created stale_chapters [str "a"; str "b"; str "c"])).1.2 = [].
Proof.
  apply (failed_update_fails_download (H := sample_platform)
           (sample_world stale_chapters) (str "id-0")
           (sample_request [str "a"; str "b"; str "c"])
           [sample_chapter "a" "Chapter 1" 0] [sample_chapter "c" "Chapter 3" 1]
           {| Identifier := str "b"; Title := str "Chapter 2";
              Update := Some (str "404 Not Found"); Pages := [] |}
           (str "404 Not Found") (str "Berserk") (str "downloads")
           (sample_created stale_chapters [str "a"; str "b"; str "c"])).
  - repeat constructor.
  - reflexivity.
Defined.

Lemma settle_completes_or_fails_witness :
  (settle (H := sample_platform) (sample_world sample_chapters) (str "id-0")
     (sample_request [str "a"; str "b"; str "c"])
     (sample_created sample_chapters [str "a"; str "b"; str "c"])).2 = inr tt /\
  exists d',
    record_of (settle (H := sample_platform) (sample_world sample_chapters) (str "id-0")
                 (sample_request [str "a"; str "b"; str "c"])
                 (sample_created sample_chapters [str "a"; str "b"; str "c"])).1.1
      (str "id-0") = Some d' /\
    (status d' = completed /\ progress d' = 100%Z /\ is_Some (completedAt d') /\
     fileUrl d' = Some (str "/api/v1/downloads/" ++ str "id-0" ++ str "/file")).
Proof.
  refine (settle_completes_or_fails (H := sample_platform) (sample_world sample_chapters)
            (str "id-0") (sample_request [str "a"; str "b"; str "c"])
            (sample_created sample_chapters [str "a"; str "b"; str "c"]) _ _).
  vm_compute. reflexivity.
Defined.

Lemma unknown_source_or_manga_fails_witness :
  exists s' d',
    settle (H := sample_platform) (sample_world sample_chapters) (str "id-0") lost_request
      (createDownload (H := sample_platform) (sample_world sample_chapters) lost_request
         empty_service).1.1
    = (s', [], inr tt) /\
    record_of s' (str "id-0") = Some d' /\ status d' = failed /\
    error d' = Some (str "nowhere").
Proof.
  refine (unknown_source_or_manga_fails (H := sample_platform)
            (sample_world sample_chapters) (str "id-0") lost_request
            (createDownload (H := sample_platform) (sample_world sample_chapters)
               lost_request empty_service).1.1 _ _ _).
  - vm_compute. reflexivity.
  - left. reflexivity.
Defined.

Lemma deleted_download_is_not_revived_witness :
  downloads
    (settle (H := sample_platform) (sample_world sample_chapters) (str "id-0")
       (sample_request [str "b"])
       (deleteDownload (H := sample_platform) (sample_world sample_chapters) (str "id-0")
          (sample_created sample_chapters [str "b"])).1.1).1.1
  = downloads
      (deleteDownload (H := sample_platform) (sample_world sample_chapters) (str "id-0")
         (sample_created sample_chapters [str "b"])).1.1 /\
  objects
    (settle (H := sample_platform) (sample_world sample_chapters) (str "id-0")
       (sample_request [str "b"])
       (deleteDownload (H := sample_platform) (sample_world sample_chapters) (str "id-0")
          (sample_created sample_chapters [str "b"])).1.1).1.1
  = objects
      (deleteDownload (H := sample_platform) (sample_world sample_chapters) (str "id-0")
         (sample_created sample_chapters [str "b"])).1.1.
Proof.
  apply (deleted_download_is_not_revived (H := sample_platform)
           (sample_world sample_chapters) (str "id-0") (sample_request [str "b"])
           (deleteDownload (H := sample_platform) (sample_world sample_chapters)
              (str "id-0") (sample_created sample_chapters [str "b"])).1.1).
  vm_compute. reflexivity.
Defined.

Lemma processing_leaves_other_downloads_witness :
  record_of
    (processDownload (H := sample_platform) (sample_world sample_chapters) (str "id-1")
       (sample_request [str "c"]) (str "downloads") two_downloads).1.1 (str "id-0")
  = record_of two_downloads (str "id-0") /\
  record_of
    (settle (H := sample_platform) (sample_world sample_chapters) (str "id-1")
       (sample_request [str "c"]) two_downloads).1.1 (str "id-0")
  = record_of two_downloads (str "id-0").
Proof.
  apply (processing_leaves_other_downloads (H := sample_platform)
           (sample_world sample_chapters) (str "id-1") (str "id-0")
           (sample_request [str "c"]) (str "downloads") two_downloads).
  vm_compute. discriminate.
Defined.

Lemma createDownload_invalid_path_witness :
  (createDownload (H := sample_platform) (readonly_world sample_chapters)
     (sample_request_to (str "/mnt/manga") [str "b"]) empty_service).2
  = inl (JsError (str "Invalid download path: " ++ str "EACCES: permission denied")) /\
  (createDownload (H := sample_platform) (readonly_world sample_chapters)
     (sample_request_to (str "/mnt/manga") [str "b"]) empty_service).1.2 = [] /\
  downloads (createDownload (H := sample_platform) (readonly_world sample_chapters)
               (sample_request_to (str "/mnt/manga") [str "b"]) empty_service).1.1
  = downloads empty_service /\
  objects (createDownload (H := sample_platform) (readonly_world sample_chapters)
             (sample_request_to (str "/mnt/manga") [str "b"]) empty_service).1.1
  = objects empty_service.
Proof.
  apply (createDownload_invalid_path (H := sample_platform)
           (readonly_world sample_chapters)
           (sample_request_to (str "/mnt/manga") [str "b"]) empty_service
           (str "EACCES: permission denied")); reflexivity.
Defined.

Lemma createDownload_registers_witness :
  str "id-0" = randomUUID (sample_world sample_chapters) (uuids empty_service) /\
  (forall other, other <> str "id-0" ->
     downloads (sample_created sample_chapters [str "b"]) !! other
     = downloads empty_service !! other) /\
  (forall r, r <> 0 ->
     objects (sample_created sample_chapters [str "b"]) !! r = objects empty_service !! r) /\
  [] = (if truthy (req_downloadPath (sample_request [str "b"]))
        then [MadeDirectory
                (download_path (H := sample_platform) (sample_world sample_chapters)
                   (sample_request [str "b"]))]
        else []) /\
  exists d,
    record_of (sample_created sample_chapters [str "b"]) (str "id-0") = Some d /\
    id d = str "id-0" /\ sourceId d = req_sourceId (sample_request [str "b"]) /\
    mangaId d = req_mangaId (sample_request [str "b"]) /\
    chapterIds d = req_chapterIds (sample_request [str "b"]) /\
    format d = default cbz (req_format (sample_request [str "b"])) /\
    downloadPath d
    = (if truthy (req_downloadPath (sample_request [str "b"]))
       then Some (download_path (H := sample_platform) (sample_world sample_chapters)
                    (sample_request [str "b"]))
       else None) /\
    createdAt d = toISOString (sample_world sample_chapters) (clock empty_service).
Proof.
  apply (createDownload_registers (H := sample_platform) (sample_world sample_chapters)
           (sample_request [str "b"]) empty_service
           (sample_created sample_chapters [str "b"]) [] 0 (str "id-0")).
  vm_compute. reflexivity.
Defined.

Lemma file_is_sought_where_it_was_exported_witness :
  (exists chapter fileName,
     exports sample_settled.1.2 =
       [(Title chapter,
         path_join (Platform := sample_platform)
           [download_path (H := sample_platform) (sample_world sample_chapters)
              (sample_request [str "a"; str "b"; str "c"]);
            SanitizeFileName (Platform := sample_platform) (str "Berserk");
            fileName])]) /\
  getDownloadFilePath (H := sample_platform) (sample_world sample_chapters) (str "id-0")
    sample_settled.1.1
  = (sample_settled.1.1, [], inr (str "downloads/Berserk/chapter_2.cbz")).
Proof.
  refine (file_is_sought_where_it_was_exported (H := sample_platform)
            (sample_world sample_chapters) (sample_request [str "a"; str "b"; str "c"])
            empty_service (sample_created sample_chapters [str "a"; str "b"; str "c"])
            sample_settled.1.1 [] sample_settled.1.2 0 (str "id-0") _
            {| plugin_Identifier := str "site";
               plugin_Entries :=
                 [ {| manga_Identifier := str "berserk"; manga_Title := str "Berserk";
                      manga_Entries := sample_chapters |} ] |}
            {| manga_Identifier := str "berserk"; manga_Title := str "Berserk";
               manga_Entries := sample_chapters |} _ _ _ _ _ _ _ _).
  - reflexivity.
  - reflexivity.
  - discriminate.
  - intros Heq. vm_compute in Heq. discriminate.
  - vm_compute. reflexivity.
  - vm_compute. reflexivity.
  - vm_compute. reflexivity.
  - reflexivity.
Defined.

Lemma extractChapterNumber_of_number_witness :
  exists found,
    first_match patterns (str "Episode 12.50 [v2]") = Some found /\
    extractChapterNumber (H := sample_platform) (str "Episode 12.50 [v2]")
      = number_label found /\
    Forall (fun c => label_char c = true)
      (extractChapterNumber (H := sample_platform) (str "Episode 12.50 [v2]")).
Proof.
  apply (extractChapterNumber_of_number (H := sample_platform) (str "Episode 12.50 [v2]")).
  apply Exists_exists. exists 49%N. split; [| reflexivity].
  apply list_elem_of_In. vm_compute. tauto.
Defined.

Lemma two_downloads_table :
  downloads two_downloads = <[str "id-1" := 1]> (<[str "id-0" := 0]> ∅).
Proof. vm_compute. reflexivity. Qed.

Lemma cleanupOldDownloads_removes_expired_witness :
  ((sample_cleanup 8 no_others).2 = inr tt \/
   exists downloadId ref,
     (downloadId, ref) ∈ [(str "id-0", 0); (str "id-1", 1)] /\
     (sample_cleanup 8 no_others).2 = inl (Errors DownloadNotFound downloadId) /\
     record_of (sample_cleanup 8 no_others).1.1 downloadId = None) /\
  ((forall i, keeps_table (no_others i)) ->
   (sample_cleanup 8 no_others).2 = inr tt /\
   forall downloadId,
     downloads (sample_cleanup 8 no_others).1.1 !! downloadId =
     match record_of two_downloads downloadId with
     | Some d =>
         if expired sample_getTime (7 * 24 * 60 * 60 * 1000) (8 * 86400000) d
         then None else downloads two_downloads !! downloadId
     | None => None
     end) /\
  ((forall i s1, no_others i s1 = s1) ->
   (sample_cleanup 8 no_others).2 = inr tt /\
   forall downloadId,
     record_of (sample_cleanup 8 no_others).1.1 downloadId =
     match record_of two_downloads downloadId with
     | Some d =>
         if expired sample_getTime (7 * 24 * 60 * 60 * 1000) (8 * 86400000) d
         then None else Some d
     | None => None
     end).
Proof.
  assert (Hentries : forall downloadId ref,
            (downloadId, ref) ∈ [(str "id-0", 0); (str "id-1", 1)] <->
            downloads two_downloads !! downloadId = Some ref).
  { intros downloadId ref. rewrite two_downloads_table. split.
    - rewrite !elem_of_cons, elem_of_nil.
      intros [[= -> ->] | [[= -> ->] | []]]; vm_compute; reflexivity.
    - intros Hlook.
      apply lookup_insert_Some in Hlook as [[<- <-] | [_ Hlook]];
        [rewrite !elem_of_cons; auto |].
      apply lookup_insert_Some in Hlook as [[<- <-] | [_ Hlook]];
        [rewrite !elem_of_cons; auto |].
      rewrite lookup_empty in Hlook. discriminate. }
  apply (cleanupOldDownloads_removes_expired (H := sample_platform)
           (sample_world sample_chapters) sample_getTime 7 (8 * 86400000)
           no_others [(str "id-0", 0); (str "id-1", 1)] two_downloads).
  - apply (bool_decide_unpack _). vm_compute. exact I.
  - exact Hentries.
  - intros downloadId ref Hlook. apply Hentries in Hlook.
    rewrite !elem_of_cons, elem_of_nil in Hlook.
    destruct Hlook as [[= -> ->] | [[= -> ->] | []]]; vm_compute; eauto.
Defined.

(** The file of the completed sample download is found in the sample
    world; where the directory cannot be listed, the error of [readdir]
    comes out as it is. *)
Example getDownloadFilePath_sample :
  (getDownloadFilePath (H := sample_platform) (sample_world sample_chapters)
     (str "id-0") sample_settled.1.1).2 = inr (str "downloads/Berserk/chapter_2.cbz") /\
  (getDownloadFilePath (H := sample_platform) (unlistable_world sample_chapters)
     (str "id-0") sample_settled.1.1).2
  = inl (JsError (str "EACCES: permission denied, scandir")).
Proof. vm_compute. split; reflexivity. Qed.

(** In that run the download of day 0 is removed and the one of day 3
    is kept. *)
Example cleanupOldDownloads_sample :
  record_of (sample_cleanup 8 no_others).1.1 (str "id-0") = None /\
  record_of (sample_cleanup 8 no_others).1.1 (str "id-1")
  = record_of two_downloads (str "id-1") /\
  createdAt <$> record_of two_downloads (str "id-1") = Some (str "t3").
Proof. vm_compute. repeat split; reflexivity. Qed.

(** On day 20 both downloads are expired.  If, while the first is being
    deleted, another call deletes the second, the cleanup throws
    [DownloadNotFound] for it: its copy of the table is stale. *)
Example cleanupOldDownloads_stale_copy :
  (sample_cleanup 20 no_others).2 = inr tt /\
  (sample_cleanup 20
     (fun turn s => match turn with
                    | O => deleted_meanwhile (str "id-1") s
                    | S _ => s
                    end)).2 = inl (Errors DownloadNotFound (str "id-1")).
Proof. vm_compute. split; reflexivity. Qed.

End Samples.

(** ** Fetching through the browser *)

Section ProviderFacts.
Import Js Pool Provider.

(** A page taken by [getPage] and given back by [releasePage] leaves
    the pages handed out as they were. *)
Lemma page_round_trip launch_ok reset s :
  consistent s ->
  match getPage launch_ok s with
  | (s1, GotPage page) =>
      checkedOut (releasePage page reset s1).1 = checkedOut s /\
      consistent (releasePage page reset s1).1
  | (s1, _) => s1 = s
  end.
Proof.
  intros Hs.
  pose proof (step_consistent s (Acquire launch_ok) Hs I) as Hs1. simpl in Hs1.
  destruct Hs as [Hnodup Hold].
  unfold getPage in *.
  destruct (pop (browserPool s)) as [[p |] rest] eqn:Hpop.
  - split.
    + unfold releasePage.
      assert (Hout : remove_page p (p :: checkedOut s) = checkedOut s).
      { unfold remove_page. rewrite filter_cons_False by (intros Hne; apply Hne; reflexivity).
        apply remove_page_absent. apply pop_some in Hpop. rewrite Hpop in Hnodup.
        apply NoDup_app in Hnodup as (_ & Hdisj & _).
        intros Hin. apply (Hdisj p Hin). apply elem_of_app. right. left. }
      simpl. destruct (reset && _); simpl; exact Hout.
    + apply (step_consistent _ (Release p reset) Hs1). simpl. left.
  - apply pop_none in Hpop as [Hpool ->]. simpl in *.
    destruct (0 <? maxBrowsers s); [| reflexivity].
    unfold getBrowser in *.
    assert (Hfresh : created s ∉ checkedOut s).
    { intros Hin. rewrite Forall_forall in Hold.
      assert (created s < created s); [| lia].
      apply Hold. apply elem_of_app. left. exact Hin. }
    destruct (connected s); simpl in *.
    + split; [| apply (step_consistent _ (Release (created s) reset) Hs1); simpl; left].
      unfold releasePage. simpl.
      assert (Hout : remove_page (created s) (created s :: checkedOut s) = checkedOut s).
      { unfold remove_page.
        rewrite filter_cons_False by (intros Hne; apply Hne; reflexivity).
        apply remove_page_absent. exact Hfresh. }
      destruct (reset && _); simpl; exact Hout.
    + destruct launch_ok; simpl in *; [| reflexivity].
      split; [| apply (step_consistent _ (Release (created s) reset) Hs1); simpl; left].
      unfold releasePage. simpl.
      assert (Hout : remove_page (created s) (created s :: checkedOut s) = checkedOut s).
      { unfold remove_page.
        rewrite filter_cons_False by (intros Hne; apply Hne; reflexivity).
        apply remove_page_absent. exact Hfresh. }
      destruct (reset && _); simpl; exact Hout.
Qed.

(** X27: [FetchWithBrowser] and [FetchWindowPreloadScript] always give
    back the page they took, whether they return or throw: afterwards
    the pages handed out are those handed out before, and no page is in
    two places. *)
Theorem page_is_always_given_back (site : Site) (request : Request)
    (preload : bool) (timeout : Z) (launch_ok : bool) (s : state) :
  consistent s ->
  checkedOut (FetchWithBrowser site request launch_ok s).1 = checkedOut s /\
  consistent (FetchWithBrowser site request launch_ok s).1 /\
  checkedOut (FetchWindowPreloadScript site request preload timeout launch_ok s).1
    = checkedOut s /\
  consistent (FetchWindowPreloadScript site request preload timeout launch_ok s).1.
Proof.
  intros Hs. pose proof (page_round_trip launch_ok (reset_ok site) s Hs) as Hround.
  unfold FetchWithBrowser, FetchWindowPreloadScript.
  destruct (getPage launch_ok s) as [s1 [page | | | |]]; simpl;
    try (subst s1; auto).
  destruct Hround as [Hout Hcons]. auto.
Qed.

Lemma page_is_always_given_back_witness :
  checkedOut (FetchWithBrowser sample_site sample_get true (init 1)).1
    = checkedOut (init 1) /\
  consistent (FetchWithBrowser sample_site sample_get true (init 1)).1 /\
  checkedOut (FetchWindowPreloadScript sample_site sample_get true 60000 true (init 1)).1
    = checkedOut (init 1) /\
  consistent (FetchWindowPreloadScript sample_site sample_get true 60000 true (init 1)).1.
Proof.
  apply (page_is_always_given_back sample_site sample_get true 60000 true (init 1)).
  split; simpl; constructor.
Defined.

Lemma new_Response_clean site head body r :
  new_Response site head body = inr r ->
  forall name value,
    response_headers r !! name = Some value -> Headers.has_control value = false.
Proof.
  unfold new_Response. destruct (Response_throws site _); [discriminate |].
  intros [= <-] name value Hlookup. simpl in Hlookup.
  apply sanitizeHeaders_sound in Hlookup as [Hclean _]. exact Hclean.
Qed.

Lemma respond_clean site head body r :
  respond site head body = Returned r ->
  forall name value,
    response_headers r !! name = Some value -> Headers.has_control value = false.
Proof.
  unfold respond.
  destruct (new_Response site head body) as [error | r'] eqn:Hnew; [discriminate |].
  intros [= <-]. eapply new_Response_clean. exact Hnew.
Qed.

Lemma after_challenge_returned {A} site maxWaitTime (next : outcome A) a :
  after_challenge site maxWaitTime next = Returned a -> next = Returned a.
Proof.
  unfold after_challenge.
  destruct (Cloudflare.waitForCloudflare _ _ _) as [r |]; [| discriminate].
  destruct (Cloudflare.settled r); [auto | discriminate].
Qed.

Lemma FetchWithBrowser_try_clean site request r :
  FetchWithBrowser_try site request = Returned r ->
  forall name value,
    response_headers r !! name = Some value -> Headers.has_control value = false.
Proof.
  unfold FetchWithBrowser_try. destruct (has_body_method request).
  - destruct (goto site _) as [thrown | [initialResponse |]]; try discriminate.
    intros Hr%after_challenge_returned.
    destruct (request_text site); [discriminate |].
    destruct (in_page_fetch site) as [thrown | [result body]]; [discriminate |].
    eapply respond_clean; eassumption.
  - destruct (goto site _) as [thrown | [response |]]; try discriminate.
    intros Hr%after_challenge_returned.
    destruct (content site) as [thrown | html]; [discriminate |].
    eapply respond_clean; eassumption.
Qed.

(** X28: every response [Fetch] or [FetchWithBrowser] returns, from the
    plain fetch, from a page loaded in the browser or from a fetch made
    inside the page, carries sanitised headers: no header value of it
    holds a control character. *)
Theorem responses_have_clean_headers (site : Site) (request : Request)
    (launch_ok : bool) (s : state) (r : Response) :
  (Fetch site request launch_ok s).2 = Returned r \/
  (FetchWithBrowser site request launch_ok s).2 = Returned r ->
  forall name value,
    response_headers r !! name = Some value -> Headers.has_control value = false.
Proof.
  assert (Hbrowser : (FetchWithBrowser site request launch_ok s).2 = Returned r ->
            forall name value,
              response_headers r !! name = Some value ->
              Headers.has_control value = false).
  { unfold FetchWithBrowser.
    destruct (getPage launch_ok s) as [s1 [page | | | |]]; simpl; try discriminate.
    apply FetchWithBrowser_try_clean. }
  intros [Hfetch | Hfetch]; [| apply Hbrowser; exact Hfetch].
  unfold Fetch in Hfetch.
  assert (Hhandler : forall error,
            (match message_includes (str "CloudFlare") error with
             | None => (s, Threw TypeError)
             | Some true => FetchWithBrowser site request launch_ok s
             | Some false =>
                 match message_includes (str "Forbidden") error with
                 | Some true => FetchWithBrowser site request launch_ok s
                 | _ => (s, Threw (Raised error))
                 end
             end).2 = Returned r ->
            (FetchWithBrowser site request launch_ok s).2 = Returned r).
  { intros error.
    destruct (message_includes (str "CloudFlare") error) as [[|] |];
      [auto | | discriminate].
    destruct (message_includes (str "Forbidden") error) as [[|] |];
      [auto | discriminate | discriminate]. }
  destruct (direct site) as [error | [response body]].
  - apply Hbrowser, (Hhandler error). exact Hfetch.
  - destruct (new_Response site response body) as [error | r'] eqn:Hnew.
    + apply Hbrowser, (Hhandler error). exact Hfetch.
    + simpl in Hfetch. injection Hfetch as <-. eapply new_Response_clean; eassumption.
Qed.

Lemma responses_have_clean_headers_witness :
  Headers.has_control (str "cfL4;desc=x, cfExtPri") = false.
Proof.
  refine (responses_have_clean_headers sample_site sample_get true (init 1) _ _
            (str "server-timing") (str "cfL4;desc=x, cfExtPri") _).
  - left. vm_compute. reflexivity.
  - vm_compute. reflexivity.
Defined.

(** While the challenge stays, waiting for it ends by the time-out and
    lets the call go on. *)
Lemma after_challenge_timeout {A} site maxWaitTime (next : outcome A) :
  (forall i, Cloudflare.challenged (challenge site i)) ->
  after_challenge site maxWaitTime next = next.
Proof.
  intros Hall. unfold after_challenge, Cloudflare.waitForCloudflare.
  destruct (loop_total (Cloudflare.enough_fuel maxWaitTime) (challenge site) 0
              (clock site) maxWaitTime (clock site) []) as [r Hr].
  { pose proof (enough_fuel_enough maxWaitTime). lia. }
  rewrite Hr.
  destruct (loop_challenged _ _ _ _ _ _ _ _ Hall Hr) as [-> _]. reflexivity.
Qed.

(** X29: a challenge that never clears does not make the fetch fail:
    when [waitForCloudflare] runs into its deadline, [FetchWithBrowser]
    goes on to read the content of the page and answers with it, and
    [FetchWindowPreloadScript] goes on to run the script and returns its
    result. *)
Theorem fetch_goes_on_after_challenge_timeout (site : Site) (request : Request)
    (preload : bool) (timeout : Z) (response : Head) (html value : jsstring) :
  (forall i, Cloudflare.challenged (challenge site i)) ->
  has_body_method request = false ->
  goto site (url request) = inr (Some response) ->
  content site = inr html ->
  (if preload then preload_throws site else None) = None ->
  hasChallenge site = inr true ->
  script site = inr value ->
  FetchWithBrowser_try site request = respond site response html /\
  FetchWindowPreloadScript_try site request preload timeout = Returned value.
Proof.
  intros Hall Hmethod Hgoto Hcontent Hpreload Hchallenge Hscript.
  unfold FetchWithBrowser_try, FetchWindowPreloadScript_try.
  rewrite Hmethod, Hgoto, Hcontent, Hpreload, Hchallenge, Hscript.
  rewrite !after_challenge_timeout by exact Hall. split; reflexivity.
Qed.

Lemma fetch_goes_on_after_challenge_timeout_witness :
  FetchWithBrowser_try sample_site sample_get
  = respond sample_site
      {| head_status := 200; head_statusText := str "OK";
         head_headers :=
           [(str "server-timing", str "cfL4;desc=x" ++ [13; 10]%N ++ str "cfExtPri")] |}
      (str "<html></html>") /\
  FetchWindowPreloadScript_try sample_site sample_get true 60000 = Returned (str "42").
Proof.
  apply (fetch_goes_on_after_challenge_timeout sample_site sample_get true 60000);
    reflexivity.
Defined.

End ProviderFacts.

(** ** The style sheets stripped by FetchHTML *)

Section HtmlFacts.
Import Js Html.

Lemma starts_with_ci_suffix pattern : forall text rest,
  Download.starts_with_ci pattern text = Some rest -> rest `suffix_of` text.
Proof.
  induction pattern as [|p pattern IH]; intros [|c text] rest H; simpl in H.
  - injection H as <-. done.
  - injection H as <-. done.
  - discriminate.
  - destruct (_ =? _)%N; [|discriminate]. apply suffix_cons_r. eauto.
Qed.

Lemma span_suffix class text : (Download.span class text).2 `suffix_of` text.
Proof.
  induction text as [|c text IH]; simpl; [done|].
  destruct (class c); [|done].
  destruct (Download.span class text) as [run after]. simpl in *.
  by apply suffix_cons_r.
Qed.

Lemma after_first_ci_suffix pattern : forall text rest,
  after_first_ci pattern text = Some rest -> rest `suffix_of` text.
Proof.
  induction text as [|c text IH]; intros rest H; simpl in H.
  - destruct (Download.starts_with_ci pattern []) eqn:E; [|discriminate].
    injection H as <-. eapply starts_with_ci_suffix; eauto.
  - destruct (Download.starts_with_ci pattern (c :: text)) eqn:E.
    + injection H as <-. eapply starts_with_ci_suffix; eauto.
    + apply suffix_cons_r; eauto.
Qed.

Lemma after_first_ci_none pattern : forall text t,
  after_first_ci pattern text = None -> t `suffix_of` text ->
  Download.starts_with_ci pattern t = None.
Proof.
  induction text as [|c text IH]; intros t H Ht; simpl in H.
  - apply suffix_nil_inv in Ht as ->.
    destruct (Download.starts_with_ci pattern []); [discriminate|done].
  - destruct (Download.starts_with_ci pattern (c :: text)) eqn:E; [discriminate|].
    destruct t as [|x t]; [by destruct pattern|].
    apply suffix_cons_inv in Ht as [Heq|Ht]; [by rewrite Heq|]. eauto.
Qed.

Lemma style_element_at_suffix text rest :
  style_element_at text = Some rest -> rest `suffix_of` text.
Proof.
  unfold style_element_at. intros H.
  destruct (Download.starts_with_ci (str "<style") text) as [after_name|] eqn:E;
    [|discriminate].
  apply starts_with_ci_suffix in E.
  pose proof (span_suffix not_gt after_name) as Hspan.
  destruct (Download.span not_gt after_name).2 as [|c content]; [discriminate|].
  destruct (N.eq_dec c 62%N) as [->|Hc].
  - apply after_first_ci_suffix in H.
    etrans; [exact H|]. etrans; [|exact E]. etrans; [|exact Hspan].
    by apply suffix_cons_r.
  - exfalso. destruct c as [|p]; [discriminate|].
    repeat (destruct p as [p|p|]; try discriminate). by apply Hc.
Qed.

Lemma style_attribute_at_suffix text rest :
  style_attribute_at text = Some rest -> rest `suffix_of` text.
Proof.
  unfold style_attribute_at. intros H.
  pose proof (span_suffix Download.is_space text) as H0.
  destruct (Download.span Download.is_space text) as [[|s run] after_space];
    [discriminate|]. simpl in H0.
  destruct (Download.starts_with_ci (str "style") after_space) as [after_name|] eqn:E;
    [|discriminate].
  apply starts_with_ci_suffix in E.
  pose proof (span_suffix Download.is_space after_name) as H1.
  destruct (Download.span Download.is_space after_name).2 as [|c after_equals];
    [discriminate|].
  destruct (N.eq_dec c 61%N) as [->|Hc].
  - pose proof (span_suffix Download.is_space after_equals) as H2.
    destruct (Download.span Download.is_space after_equals).2 as [|opening value];
      [discriminate|].
    destruct (is_quote opening); [|discriminate].
    pose proof (span_suffix not_quote value) as H3.
    destruct (Download.span not_quote value).2 as [|closing rest'];
      [discriminate|].
    injection H as <-.
    etrans; [|exact H0]. etrans; [|exact E]. etrans; [|exact H1].
    apply suffix_cons_r. etrans; [|exact H2].
    apply suffix_cons_r. etrans; [|exact H3].
    by apply suffix_cons_r.
  - exfalso. destruct c as [|p]; [discriminate|].
    repeat (destruct p as [p|p|]; try discriminate). by apply Hc.
Qed.

Lemma link_stylesheet_at_suffix text rest :
  link_stylesheet_at text = Some rest -> rest `suffix_of` text.
Proof.
  unfold link_stylesheet_at. intros H.
  destruct (Download.starts_with_ci (str "<link") text) as [after_name|] eqn:E;
    [|discriminate].
  apply starts_with_ci_suffix in E.
  pose proof (span_suffix not_gt after_name) as Hspan.
  destruct (Download.span not_gt after_name) as [attributes rest'].
  simpl in Hspan.
  destruct rest' as [|c after_tag]; [discriminate|].
  destruct (N.eq_dec c 62%N) as [->|Hc].
  - destruct (existsb _ _); [|discriminate]. injection H as <-.
    etrans; [|exact E]. etrans; [|exact Hspan]. by apply suffix_cons_r.
  - exfalso. destruct c as [|p]; [discriminate|].
    repeat (destruct p as [p|p|]; try discriminate). by apply Hc.
Qed.

Lemma remove_matches_sublist match_at :
  (forall text rest, match_at text = Some rest -> rest `suffix_of` text) ->
  forall fuel text, remove_matches fuel match_at text `sublist_of` text.
Proof.
  intros Hm. induction fuel as [|fuel IH]; intros text; simpl; [done|].
  destruct (match_at text) as [rest|] eqn:E.
  - apply Hm in E as [k ->]. apply sublist_inserts_l, IH.
  - destruct text; [done|]. apply sublist_skip, IH.
Qed.

Lemma remove_matches_none match_at : forall fuel text,
  (forall t, t `suffix_of` text -> match_at t = None) ->
  remove_matches fuel match_at text = text.
Proof.
  induction fuel as [|fuel IH]; intros text H; simpl; [done|].
  rewrite (H text) by done.
  destruct text as [|c text]; [done|].
  f_equal. apply IH. intros t Ht. apply H. by apply suffix_cons_r.
Qed.

(** The fuel given by [remove_all] is never used up: a match takes at
    least one code unit, so with more fuel the result is the same. *)
Lemma remove_matches_fuel match_at :
  (forall text rest, match_at text = Some rest -> length rest < length text) ->
  forall fuel fuel' text, length text < fuel -> length text < fuel' ->
  remove_matches fuel match_at text = remove_matches fuel' match_at text.
Proof.
  intros Hm. induction fuel as [|fuel IH]; intros fuel' text H H'; [lia|].
  destruct fuel' as [|fuel']; [lia|]. simpl.
  destruct (match_at text) as [rest|] eqn:E.
  - apply Hm in E. apply IH; lia.
  - destruct text as [|c text]; [done|]. simpl in *. f_equal. apply IH; lia.
Qed.

(** X30 (FetchHTML, the three replacements): stripping the style sheets
    only takes text away, so what is parsed is the page's text with
    parts left out, in the same order; and a page in which neither
    [style] nor [<link] occurs, in any case of the letters, is parsed as
    it was received. *)
Theorem strip_css_only_removes (html : jsstring) :
  strip_css html `sublist_of` html
  /\ (after_first_ci (str "style") html = None ->
      after_first_ci (str "<link") html = None ->
      strip_css html = html).
Proof.
  split.
  - unfold strip_css, remove_all.
    etrans; [apply remove_matches_sublist, link_stylesheet_at_suffix|].
    etrans; [apply remove_matches_sublist, style_attribute_at_suffix|].
    apply remove_matches_sublist, style_element_at_suffix.
  - intros Hstyle Hlink. unfold strip_css, remove_all.
    assert (H1 : remove_matches (S (length html)) style_element_at html = html).
    { apply remove_matches_none. intros t Ht. unfold style_element_at.
      destruct t as [|c t']; [done|].
      assert (Ht' : t' `suffix_of` html)
        by (etrans; [|exact Ht]; by apply suffix_cons_r).
      change (str "<style") with (60%N :: str "style").
      cbn [Download.starts_with_ci].
      rewrite (after_first_ci_none _ _ _ Hstyle Ht').
      by destruct (_ =? _)%N. }
    rewrite H1.
    assert (H2 : remove_matches (S (length html)) style_attribute_at html = html).
    { apply remove_matches_none. intros t Ht. unfold style_attribute_at.
      pose proof (span_suffix Download.is_space t) as H0.
      destruct (Download.span Download.is_space t) as [[|s run] after_space];
        [done|]. simpl in H0.
      rewrite (after_first_ci_none _ _ after_space Hstyle); [done|].
      by etrans. }
    rewrite H2.
    apply remove_matches_none. intros t Ht. unfold link_stylesheet_at.
    by rewrite (after_first_ci_none _ _ _ Hlink Ht).
Qed.

Lemma strip_css_only_removes_witness :
  strip_css (str "<p>text</p>") = str "<p>text</p>".
Proof.
  apply (proj2 (strip_css_only_removes (str "<p>text</p>"))); reflexivity.
Defined.

(** What is left can hold a style sheet again: the parts around a
    removed element may join to a new one. *)
Example strip_css_leaves_joined_element :
  strip_css (str "<sty<style></style>le>p{}</style>") = str "<style>p{}</style>".
Proof. reflexivity. Qed.

End HtmlFacts.
